(** * pseudotoy: URL-state codec, shader splitter and page life cycle

    A shallow embedding of the TypeScript sources [src/App.tsx],
    [src/CustomShaderExtension.ts] and the entry script that renders [App]
    (the comments of [App.tsx] call it [main.tsx]).

    JavaScript strings are sequences of 16-bit code units; they are modelled
    as lists of integers.  A [Uint8Array] is a list of [Byte.byte].  The
    platform functions the sources call ([TextEncoder], [TextDecoder],
    [btoa], [atob], [String.prototype.trim], ...) follow the algorithms of
    their standards (ECMAScript, WHATWG Encoding, WHATWG Infra, HTML). *)

From Stdlib Require Import ZArith List Lia Bool String Ascii.
From Stdlib.Strings Require Import Byte.
Import ListNotations.
Local Open Scope Z_scope.

(** [lia] also decides goals with division and remainder by constants. *)
Ltac Zify.zify_post_hook ::= Z.to_euclidean_division_equations.

(** ** JavaScript strings *)

Module JS.

Abbreviation code_unit := Z (only parsing).
Abbreviation jsstring := (list Z) (only parsing).

(** A string of the sources (all of them are ASCII) as code units. *)
Fixpoint of_string (s : string) : jsstring :=
  match s with
  | EmptyString => []
  | String a rest => Z.of_N (N_of_ascii a) :: of_string rest
  end.

Definition is_code_unit (c : Z) : Prop := 0 <= c < 65536.
Definition wf_string (s : jsstring) : Prop := Forall is_code_unit s.

(** Values thrown by the platform or by a library. *)
Inductive thrown : Type :=
| ErrorObject (message : jsstring)            (* an instance of Error *)
| DOMException (name : string) (message : jsstring)
| OtherValue (shown : jsstring).     (* anything else; [shown] is String(e) *)

(** The exception of [btoa] and [atob].  Its message is chosen by the user
    agent; no path of the sources reads it (see [encodeShaderForUrl_total]
    and the handler of [getShaderFromUrl]). *)
Definition InvalidCharacterError : thrown :=
  DOMException "InvalidCharacterError"%string [].

Inductive result (A : Type) : Type :=
| Ok (a : A)
| Throw (e : thrown).
Arguments Ok {A} a.
Arguments Throw {A} e.

Definition bind {A B} (r : result A) (k : A -> result B) : result B :=
  match r with
  | Ok a => k a
  | Throw e => Throw e
  end.

(** [try { body } catch { handler }] *)
Definition try_catch {A} (body : result A) (handler : thrown -> A) : A :=
  match body with
  | Ok a => a
  | Throw e => handler e
  end.

Definition eqb_string (a b : jsstring) : bool :=
  if list_eq_dec Z.eq_dec a b then true else false.

(** [!s] on a string: only the empty string is falsy. *)
Definition falsy (s : jsstring) : bool :=
  match s with [] => true | _ => false end.

(** [!s] on [string | null]. *)
Definition falsy_opt (s : option jsstring) : bool :=
  match s with None => true | Some t => falsy t end.

Definition len (s : jsstring) : Z := Z.of_nat (List.length s).

(** [s.slice(start, end)] (ECMAScript 22.1.3.22). *)
Definition clamp_index (n i : Z) : Z :=
  if i <? 0 then Z.max (n + i) 0 else Z.min i n.

Definition slice (s : jsstring) (start stop : Z) : jsstring :=
  let n := len s in
  let from := clamp_index n start in
  let to := clamp_index n stop in
  firstn (Z.to_nat (Z.max (to - from) 0)) (skipn (Z.to_nat from) s).

(** [s.slice(start)]: the end defaults to the length. *)
Definition slice_from (s : jsstring) (start : Z) : jsstring :=
  slice s start (len s).

Fixpoint starts_with (pat s : jsstring) : bool :=
  match pat, s with
  | [], _ => true
  | _ :: _, [] => false
  | p :: pat', c :: s' => (p =? c) && starts_with pat' s'
  end.

(** [s.indexOf(pat)]: the least index at which [pat] occurs, or -1. *)
Fixpoint indexOf_from (s pat : jsstring) (i : Z) : Z :=
  if starts_with pat s then i
  else match s with
       | [] => -1
       | _ :: s' => indexOf_from s' pat (i + 1)
       end.

Definition indexOf (s pat : jsstring) : Z := indexOf_from s pat 0.

(** The number of positions of [s] at which [pat] occurs. *)
Fixpoint occurrences (s pat : jsstring) : nat :=
  ((if starts_with pat s then 1 else 0) +
   match s with
   | [] => 0
   | _ :: s' => occurrences s' pat
   end)%nat.

(** WhiteSpace and LineTerminator code points (ECMAScript 12.2, 12.3). *)
Definition is_white_space (c : Z) : bool :=
  (c =? 9) || (c =? 10) || (c =? 11) || (c =? 12) || (c =? 13) ||
  (c =? 32) || (c =? 160) || (c =? 5760) ||
  ((8192 <=? c) && (c <=? 8202)) ||
  (c =? 8232) || (c =? 8233) || (c =? 8239) || (c =? 8287) ||
  (c =? 12288) || (c =? 65279).

Definition all_white (s : jsstring) : Prop :=
  Forall (fun c => is_white_space c = true) s.

Fixpoint trim_start (s : jsstring) : jsstring :=
  match s with
  | [] => []
  | c :: s' => if is_white_space c then trim_start s' else s
  end.

Definition trim_end (s : jsstring) : jsstring := rev (trim_start (rev s)).

(** [s.trim()] *)
Definition trim (s : jsstring) : jsstring := trim_end (trim_start s).

(** [s.replace(/c/g, d)] for single characters [c] and [d]. *)
Definition replace_all (c d : Z) (s : jsstring) : jsstring :=
  map (fun x => if x =? c then d else x) s.

End JS.

(** ** Text encoding: UTF-16, UTF-8, base64 *)

Module Encoding.
Import JS.

Definition is_lead_surrogate (c : Z) : bool := (55296 <=? c) && (c <=? 56319).
Definition is_trail_surrogate (c : Z) : bool := (56320 <=? c) && (c <=? 57343).

(** Conversion of a string to scalar values (WebIDL USVString): a surrogate
    pair is one code point, an unpaired surrogate becomes U+FFFD. *)
Fixpoint to_code_points (s : jsstring) : list Z :=
  match s with
  | [] => []
  | c :: rest =>
      if is_lead_surrogate c then
        match rest with
        | d :: rest' =>
            if is_trail_surrogate d
            then (65536 + Z.shiftl (c - 55296) 10 + (d - 56320))
                   :: to_code_points rest'
            else 65533 :: to_code_points rest
        | [] => [65533]
        end
      else if is_trail_surrogate c then 65533 :: to_code_points rest
      else c :: to_code_points rest
  end.

(** A code point as UTF-16 code units. *)
Definition utf16_units (cp : Z) : jsstring :=
  if cp <? 65536 then [cp]
  else [55296 + Z.shiftr (cp - 65536) 10; 56320 + Z.land (cp - 65536) 1023].

Definition of_code_points (cps : list Z) : jsstring := flat_map utf16_units cps.

(** The UTF-8 encoder (WHATWG Encoding 8.1.2), one code point. *)
Definition continuation (cp : Z) (k : Z) : Z :=
  Z.lor 128 (Z.land (Z.shiftr cp (6 * k)) 63).

Definition utf8_encode_cp (cp : Z) : list Z :=
  if cp <=? 127 then [cp]
  else if cp <=? 2047 then
    [Z.shiftr cp 6 + 192; continuation cp 0]
  else if cp <=? 65535 then
    [Z.shiftr cp 12 + 224; continuation cp 1; continuation cp 0]
  else
    [Z.shiftr cp 18 + 240; continuation cp 2; continuation cp 1;
     continuation cp 0].

Definition utf8_encode (cps : list Z) : list Z := flat_map utf8_encode_cp cps.

(** The UTF-8 decoder (WHATWG Encoding 8.1.1), error mode replacement. *)
Record utf8_state : Type := {
  code_point : Z;
  bytes_seen : Z;
  bytes_needed : Z;
  lower_boundary : Z;
  upper_boundary : Z
}.

Definition utf8_init : utf8_state :=
  {| code_point := 0; bytes_seen := 0; bytes_needed := 0;
     lower_boundary := 128; upper_boundary := 191 |}.

Definition between (lo hi b : Z) : bool := (lo <=? b) && (b <=? hi).

(** The handler when no bytes are needed. *)
Definition utf8_lead (b : Z) : list Z * utf8_state :=
  if between 0 127 b then ([b], utf8_init)
  else if between 194 223 b then
    ([], {| code_point := Z.land b 31; bytes_seen := 0; bytes_needed := 1;
            lower_boundary := 128; upper_boundary := 191 |})
  else if between 224 239 b then
    ([], {| code_point := Z.land b 15; bytes_seen := 0; bytes_needed := 2;
            lower_boundary := if b =? 224 then 160 else 128;
            upper_boundary := if b =? 237 then 159 else 191 |})
  else if between 240 244 b then
    ([], {| code_point := Z.land b 7; bytes_seen := 0; bytes_needed := 3;
            lower_boundary := if b =? 240 then 144 else 128;
            upper_boundary := if b =? 244 then 143 else 191 |})
  else ([65533], utf8_init).

(** One byte: the code points emitted and the next state.  A byte outside
    the boundaries ends the sequence with U+FFFD and is handled again from
    the initial state. *)
Definition utf8_handler (st : utf8_state) (b : Z) : list Z * utf8_state :=
  if bytes_needed st =? 0 then utf8_lead b
  else if negb (between (lower_boundary st) (upper_boundary st) b) then
    let (out, st') := utf8_lead b in (65533 :: out, st')
  else
    let cp := Z.lor (Z.shiftl (code_point st) 6) (Z.land b 63) in
    if bytes_seen st + 1 =? bytes_needed st then ([cp], utf8_init)
    else ([], {| code_point := cp; bytes_seen := bytes_seen st + 1;
                 bytes_needed := bytes_needed st;
                 lower_boundary := 128; upper_boundary := 191 |}).

Fixpoint utf8_decode_from (st : utf8_state) (bytes : list Z) : list Z :=
  match bytes with
  | [] => if bytes_needed st =? 0 then [] else [65533]
  | b :: rest =>
      let (out, st') := utf8_handler st b in
      out ++ utf8_decode_from st' rest
  end.

Definition utf8_decode (bytes : list Z) : list Z :=
  utf8_decode_from utf8_init bytes.

(** Uint8Array elements. *)
Definition byte_to_Z (b : byte) : Z := Z.of_N (Byte.to_N b).

(** Storing a number in a Uint8Array keeps it modulo 256. *)
Definition byte_of_Z (z : Z) : byte :=
  match Byte.of_N (Z.to_N (z mod 256)) with
  | Some b => b
  | None => x00
  end.

(** [new TextEncoder().encode(s)] *)
Definition TextEncoder_encode (s : jsstring) : list byte :=
  map byte_of_Z (utf8_encode (to_code_points s)).

(** [new TextDecoder().decode(bytes)]: UTF-8, replacement, and a leading
    U+FEFF is dropped ([ignoreBOM] is false). *)
Definition strip_bom (cps : list Z) : list Z :=
  match cps with
  | c :: rest => if c =? 65279 then rest else cps
  | [] => []
  end.

Definition TextDecoder_decode (bytes : list byte) : jsstring :=
  of_code_points (strip_bom (utf8_decode (map byte_to_Z bytes))).

(** Unicode scalar values: code points that are not surrogates. *)
Definition is_scalar (cp : Z) : Prop :=
  0 <= cp < 55296 \/ 57344 <= cp <= 1114111.

Definition is_byte (b : Z) : Prop := 0 <= b <= 255.

(** No unpaired surrogate: every lead surrogate is followed by a trail
    surrogate, and no trail surrogate stands alone. *)
Fixpoint well_paired (s : jsstring) : bool :=
  match s with
  | [] => true
  | c :: rest =>
      if is_lead_surrogate c then
        match rest with
        | d :: rest' => is_trail_surrogate d && well_paired rest'
        | [] => false
        end
      else negb (is_trail_surrogate c) && well_paired rest
  end.

(** Byte sequences that are the UTF-8 encoding of some scalar values. *)
Definition utf8_valid (bytes : list Z) : Prop :=
  exists cps, Forall is_scalar cps /\ utf8_encode cps = bytes.

End Encoding.

(** ** base64: [btoa] and [atob] *)

Module Base64.
Import JS.

(** The base64 alphabet (RFC 4648, section 4). *)
Definition enc_char (i : Z) : Z :=
  if i <? 26 then 65 + i
  else if i <? 52 then 97 + (i - 26)
  else if i <? 62 then 48 + (i - 52)
  else if i =? 62 then 43
  else 47.

Definition dec_char (c : Z) : option Z :=
  if (65 <=? c) && (c <=? 90) then Some (c - 65)
  else if (97 <=? c) && (c <=? 122) then Some (c - 97 + 26)
  else if (48 <=? c) && (c <=? 57) then Some (c - 48 + 52)
  else if c =? 43 then Some 62
  else if c =? 47 then Some 63
  else None.

Definition pad : Z := 61.

Definition is_sextet (v : Z) : Prop := 0 <= v < 64.

(** Groups of three bytes become four characters; a last group of one or
    two bytes is filled with zero bits and padded with [=]. *)
Fixpoint base64_encode (bytes : list Z) : jsstring :=
  match bytes with
  | [] => []
  | [a] =>
      let n := a * 16 in
      [enc_char (n / 64); enc_char (n mod 64); pad; pad]
  | [a; b] =>
      let n := (a * 256 + b) * 4 in
      [enc_char (n / 4096); enc_char (n / 64 mod 64); enc_char (n mod 64); pad]
  | a :: b :: c :: rest =>
      let n := a * 65536 + b * 256 + c in
      enc_char (n / 262144) :: enc_char (n / 4096 mod 64)
        :: enc_char (n / 64 mod 64) :: enc_char (n mod 64)
        :: base64_encode rest
  end.

(** The sextets of the encoding, and its padding, taken apart. *)
Fixpoint base64_sextets (bytes : list Z) : list Z :=
  match bytes with
  | [] => []
  | [a] =>
      let n := a * 16 in
      [n / 64; n mod 64]
  | [a; b] =>
      let n := (a * 256 + b) * 4 in
      [n / 4096; n / 64 mod 64; n mod 64]
  | a :: b :: c :: rest =>
      let n := a * 65536 + b * 256 + c in
      n / 262144 :: n / 4096 mod 64 :: n / 64 mod 64 :: n mod 64
        :: base64_sextets rest
  end.

Fixpoint base64_padding (bytes : list Z) : jsstring :=
  match bytes with
  | [] => []
  | [_] => [pad; pad]
  | [_; _] => [pad]
  | _ :: _ :: _ :: rest => base64_padding rest
  end.

(** [btoa(data)] (HTML 8.3): throws when a character is above U+00FF. *)
Definition btoa (data : jsstring) : result jsstring :=
  if forallb (fun c => (0 <=? c) && (c <=? 255)) data
  then Ok (base64_encode data)
  else Throw InvalidCharacterError.

(** Forgiving-base64 decode (WHATWG Infra). *)
Definition is_ascii_whitespace (c : Z) : bool :=
  (c =? 9) || (c =? 10) || (c =? 12) || (c =? 13) || (c =? 32).

Definition remove_whitespace (data : jsstring) : jsstring :=
  filter (fun c => negb (is_ascii_whitespace c)) data.

(** "If data ends with one or two U+003D (=) code points, then remove them",
    when the length is a multiple of four. *)
Definition strip_padding (data : jsstring) : jsstring :=
  if len data mod 4 =? 0 then
    match rev data with
    | c1 :: c2 :: r =>
        if c1 =? pad then if c2 =? pad then rev r else rev (c2 :: r)
        else data
    | [c1] => if c1 =? pad then [] else data
    | [] => data
    end
  else data.

Fixpoint sextets (data : jsstring) : option (list Z) :=
  match data with
  | [] => Some []
  | c :: rest =>
      match dec_char c, sextets rest with
      | Some v, Some vs => Some (v :: vs)
      | _, _ => None
      end
  end.

(** Four sextets are three bytes; of twelve left-over bits the last four are
    dropped, of eighteen the last two. *)
Fixpoint decode_groups (vs : list Z) : list Z :=
  match vs with
  | v1 :: v2 :: v3 :: v4 :: rest =>
      let n := ((v1 * 64 + v2) * 64 + v3) * 64 + v4 in
      n / 65536 :: n / 256 mod 256 :: n mod 256 :: decode_groups rest
  | [v1; v2; v3] =>
      let n := ((v1 * 64 + v2) * 64 + v3) / 4 in
      [n / 256; n mod 256]
  | [v1; v2] =>
      let n := (v1 * 64 + v2) / 16 in
      [n]
  | _ => []
  end.

Definition forgiving_base64_decode (data : jsstring) : option (list Z) :=
  let data := strip_padding (remove_whitespace data) in
  if len data mod 4 =? 1 then None
  else option_map decode_groups (sextets data).

(** [atob(data)] *)
Definition atob (data : jsstring) : result jsstring :=
  match forgiving_base64_decode data with
  | Some bytes => Ok bytes
  | None => Throw InvalidCharacterError
  end.

End Base64.

(** ** [src/CustomShaderExtension.ts] *)

Module CustomShaderExtension.
Import JS.
Local Open Scope string_scope.

Definition LF : string := String (ascii_of_nat 10) EmptyString.

(** The lines of a template literal, each ended by a line feed. *)
Fixpoint unlines (ls : list string) : string :=
  match ls with
  | [] => EmptyString
  | l :: rest => String.append l (String.append LF (unlines rest))
  end.

Definition apply_transparent_color : string := unlines [
    "vec4 apply_transparent_color(vec3 color, vec3 transparentColor, bool useTransparentColor, float opacity){";
    "  return vec4(color, (color == transparentColor && useTransparentColor) ? 0. : opacity);";
    "}"
  ].

Definition fs_text : string :=
  String.append (unlines [
    "uniform vec3 transparentColor;";
    "uniform bool useTransparentColor;";
    "uniform float opacity;";
    "";
    "uniform vec3 colors[6];";
    ""
  ]) (String.append apply_transparent_color (unlines [
    "";
    "";
    "// linearize ";
    "";
    "void mutate_color(inout vec3 rgb, float intensity0, float intensity1, float intensity2, float intensity3, float intensity4, float intensity5) { ";
    "  rgb += max(0.0, min(1.0, intensity0)) * vec3(colors[0]);";
    "  rgb += max(0.0, min(1.0, intensity1)) * vec3(colors[1]);";
    "  rgb += max(0.0, min(1.0, intensity2)) * vec3(colors[2]);";
    "  rgb += max(0.0, min(1.0, intensity3)) * vec3(colors[3]);";
    "  rgb += max(0.0, min(1.0, intensity4)) * vec3(colors[4]);";
    "  rgb += max(0.0, min(1.0, intensity5)) * vec3(colors[5]);";
    "}";
    "";
    "vec4 apply_opacity(vec3 rgb) {";
    "  return vec4(apply_transparent_color(rgb, transparentColor, useTransparentColor, opacity));";
    "}"
  ])).

Definition DECKGL_MUTATE_COLOR_text : string := unlines [
    "vec3 rgb = rgba.rgb;";
    "mutate_color(rgb, intensity0, intensity1, intensity2, intensity3, intensity4, intensity5);";
    "rgba = apply_opacity(rgb);"
  ].

Local Close Scope string_scope.

Definition fs : jsstring := of_string fs_text.
Definition DECKGL_MUTATE_COLOR : jsstring := of_string DECKGL_MUTATE_COLOR_text.

Definition defaultFragmentShader : jsstring := fs.
Definition defaultMutateColorCode : jsstring := DECKGL_MUTATE_COLOR.

(** [fs + '\n\n// Injection point:\n' + DECKGL_MUTATE_COLOR] *)
Definition fragmentShader : jsstring :=
  fs ++ of_string (String.append LF (String.append LF
          (String.append "// Injection point:"%string LF))) ++ DECKGL_MUTATE_COLOR.

(** The properties of a layer that the extension reads. *)
Definition rgb : Type := (Z * Z * Z)%type.

Record LayerProps : Type := {
  prop_fragmentShader : option jsstring;
  prop_mutateColorCode : option jsstring;
  prop_colors : option (list rgb);
  prop_channelsVisible : option (list bool);
  prop_selections : option nat          (* the number of selections *)
}.

(** [x || d] on [string | null | undefined]: the empty string is falsy. *)
Definition or_default (x : option jsstring) (d : jsstring) : jsstring :=
  match x with
  | Some (c :: s) => c :: s
  | _ => d
  end.

(** [ToInt32] *)
Definition to_int32 (z : Z) : Z := (z + 2147483648) mod 4294967296 - 2147483648.

Definition hashForCache_int (str : jsstring) : Z :=
  fold_left (fun h c => to_int32 (to_int32 (Z.shiftl h 5) - h + c)) str 0.

Record ShaderModule : Type := {
  module_key : Z;              (* Math.abs(h); the name is its base-36 form *)
  module_fs : jsstring;
  module_inject : jsstring     (* the slot fs:DECKGL_MUTATE_COLOR *)
}.

Definition getShaders (props : LayerProps) : ShaderModule :=
  let shaderCode := or_default (prop_fragmentShader props) fs in
  let mutateCode := or_default (prop_mutateColorCode props) DECKGL_MUTATE_COLOR in
  {| module_key := Z.abs (hashForCache_int (shaderCode ++ mutateCode));
     module_fs := shaderCode;
     module_inject := mutateCode |}.

Section Palette.

(** Modelled from the spec: [getDefaultPalette] and [padColors] are imported
    from [./utils], which is not among the sources.  The default palette is
    "a fixed ordered sequence of primary/secondary hues"; its entries are a
    parameter, indexed by position. *)
Variable default_palette : nat -> rgb.

Definition black : rgb := (0, 0, 0).
Definition MAX_CHANNELS : nat := 6.

(** Modelled from the spec: the first [n] entries of the default palette. *)
Definition getDefaultPalette (n : nat) : list rgb :=
  map default_palette (seq 0 n).

(** Modelled from the spec: [padColors] walks the six positions; a visible
    position takes the supplied color of that position, or the palette entry
    of its index when none is supplied; every other position is black. *)
Fixpoint pad_from (i n : nat) (channelsVisible : list bool) (colors : list rgb)
  : list rgb :=
  match n with
  | O => []
  | S n' =>
      (match channelsVisible with
       | true :: _ =>
           match colors with
           | c :: _ => c
           | [] => default_palette i
           end
       | _ => black
       end) :: pad_from (S i) n' (tl channelsVisible) (tl colors)
  end.

(** Modelled from the spec: [padColors] returns exactly six triples. *)
Definition padColors (channelsVisible : list bool) (colors : list rgb)
  : list rgb :=
  pad_from 0 MAX_CHANNELS channelsVisible colors.

(** The [colors] uniform computed by [draw]. *)
Definition draw_colors (props : LayerProps) : list rgb :=
  let channelsVisible :=
    match prop_channelsVisible props with
    | Some m => m
    | None =>
        match prop_selections props with
        | Some n => repeat true n          (* selections.map(() => true) *)
        | None => []
        end
    end in
  let colors :=
    match prop_colors props with
    | Some cs => cs
    | None =>
        getDefaultPalette
          (match prop_selections props with
           | Some (S n) => S n
           | _ => 1%nat                    (* selections?.length || 1 *)
           end)
    end in
  padColors channelsVisible colors.

End Palette.

End CustomShaderExtension.

(** ** The browser: location, navigation, clipboard *)

Module Browser.
Import JS.

(** [window.location], by the parts the sources read. *)
Record Location : Type := {
  origin : jsstring;
  pathname : jsstring;
  search : jsstring;
  fragment : jsstring
}.

Definition HASH : Z := 35.

(** [location.hash]: empty for an empty fragment, else [#] and the fragment. *)
Definition hash (l : Location) : jsstring :=
  match fragment l with
  | [] => []
  | f => HASH :: f
  end.

Definition with_fragment (l : Location) (f : jsstring) : Location :=
  {| origin := origin l; pathname := pathname l; search := search l;
     fragment := f |}.

(** [location.hash = v]: a leading [#] is dropped.  No new document is
    loaded.  (The percent-encoding of the fragment state leaves letters,
    digits, [-], [_] and [=] as they are.) *)
Definition set_hash (l : Location) (v : jsstring) : Location :=
  with_fragment l (match v with
                   | c :: r => if c =? HASH then r else v
                   | [] => []
                   end).

Definition href_without_fragment (l : Location) : jsstring :=
  origin l ++ pathname l ++ search l.

(** A URL string up to its first [#], and what follows it. *)
Fixpoint split_fragment (url : jsstring) : jsstring * option jsstring :=
  match url with
  | [] => ([], None)
  | c :: r =>
      if c =? HASH then ([], Some r)
      else let (base, f) := split_fragment r in (c :: base, f)
  end.

(** The outcome of a navigation (HTML 7.4.2.2): a URL that equals the
    current one up to the fragment, and has a fragment, is a navigation to
    a fragment inside the same document; no script runs again. *)
Inductive navigation : Type :=
| ToFragment (l : Location)
| ToDocument (url : jsstring).

(** [location.replace(url)] *)
Definition location_replace (l : Location) (url : jsstring) : navigation :=
  match split_fragment url with
  | (base, Some f) =>
      if eqb_string base (href_without_fragment l)
      then ToFragment (with_fragment l f)
      else ToDocument url
  | (_, None) => ToDocument url
  end.

(** A page address used in examples. *)
Definition example_location : Location :=
  {| origin := of_string "https://example.org";
     pathname := of_string "/pseudotoy/";
     search := [];
     fragment := [] |}.

End Browser.

(** ** [src/App.tsx] and [src/main.tsx] *)

Module App.
Import JS Encoding Base64 Browser.
Module CSE := CustomShaderExtension.

Definition INJECTION_MARKER : jsstring := of_string "// Injection point:".

Definition PLUS : Z := 43.
Definition SLASH : Z := 47.
Definition MINUS : Z := 45.
Definition UNDERSCORE : Z := 95.

(** [String.fromCharCode(n)] *)
Definition fromCharCode (n : Z) : code_unit := n mod 65536.

(** Decode shader from URL hash (base64url).  Returns null if invalid or
    empty. *)
Definition getShaderFromUrl (l : Location) : option jsstring :=
  let hash := slice_from (hash l) 1 in
  if falsy hash then None
  else
    try_catch
      (let base64 := replace_all UNDERSCORE SLASH (replace_all MINUS PLUS hash) in
       bind (atob base64) (fun binary =>
       (* bytes[i] = binary.charCodeAt(i), for every i *)
       let bytes := map byte_of_Z binary in
       Ok (Some (TextDecoder_decode bytes))))
      (fun _ => None).

(** Encode shader for URL hash (base64url, no compression). *)
Definition encodeShaderForUrl (shader : jsstring) : result jsstring :=
  let bytes := TextEncoder_encode shader in
  let binary :=
    fold_left (fun binary b => binary ++ [fromCharCode (byte_to_Z b)]) bytes [] in
  bind (btoa binary) (fun b64 =>
  Ok (replace_all SLASH UNDERSCORE (replace_all PLUS MINUS b64))).

Record ShaderProgram : Type := {
  fragmentShader : jsstring;
  mutateColorCode : jsstring
}.

Definition parseShader (text : jsstring) : ShaderProgram :=
  let idx := indexOf text INJECTION_MARKER in
  if idx =? -1 then
    {| fragmentShader := trim text;
       mutateColorCode := CSE.defaultMutateColorCode |}
  else
    {| fragmentShader := trim (slice text 0 idx);
       mutateColorCode := trim (slice_from text (idx + len INJECTION_MARKER)) |}.

(** The single-buffer form of a program: template, marker and injection
    with the delimiters of the default content
    ([fs + '\n\n// Injection point:\n' + DECKGL_MUTATE_COLOR]). *)
Definition LF : Z := 10.

Definition join (p : ShaderProgram) : jsstring :=
  fragmentShader p ++ [LF; LF] ++ INJECTION_MARKER ++ [LF] ++ mutateColorCode p.

(** The alphabet of base64url (RFC 4648, section 5). *)
Definition is_base64url_char (c : Z) : bool :=
  ((65 <=? c) && (c <=? 90)) || ((97 <=? c) && (c <=? 122)) ||
  ((48 <=? c) && (c <=? 57)) || (c =? MINUS) || (c =? UNDERSCORE).

(** A base64url token: characters of the alphabet, then at most two [=]. *)
Fixpoint well_formed_base64url (s : jsstring) : bool :=
  match s with
  | [] => true
  | c :: rest =>
      if is_base64url_char c then well_formed_base64url rest
      else forallb (fun x => x =? pad) s && (len s <=? 2)
  end.

(** The characters the decoder lets pass: both alphabets, the padding and
    ASCII whitespace. *)
Definition accepted_char (c : Z) : bool :=
  match dec_char c with
  | Some _ => true
  | None => (c =? MINUS) || (c =? UNDERSCORE) || (c =? pad)
            || is_ascii_whitespace c
  end.

End App.

(** [src/main.tsx] has its own copy of the encoder. *)
Module Main.
Import JS Encoding Base64.

Definition encodeShaderForUrl (shader : jsstring) : result jsstring :=
  let bytes := TextEncoder_encode shader in
  let binary :=
    fold_left (fun binary b => binary ++ [App.fromCharCode (byte_to_Z b)]) bytes [] in
  bind (btoa binary) (fun b64 =>
  Ok (replace_all App.SLASH App.UNDERSCORE (replace_all App.PLUS App.MINUS b64))).

End Main.

(** ** The page: start-up, the component state, the handlers *)

Module Page.
Import JS Browser.
Module CSE := CustomShaderExtension.

Set Implicit Arguments.

Section WithParser.

(** [parse(fs, { stage: 'fragment', ... })] of [@shaderfrog/glsl-parser]:
    returns, or throws. *)
Variable parse : jsstring -> result unit.

(** The view state (pan target and zoom) is passed through unchanged. *)
Variable view : Type.
Variable initial_view : view.

(** The two decks created by the render effect. *)
Record Panes : Type := {
  baseline : CSE.LayerProps;
  custom : CSE.LayerProps;
  pane_view : view
}.

Record AppState : Type := {
  shaderText : jsstring;
  appliedShader : jsstring;
  compileError : option jsstring;
  data : bool;                      (* the image has been loaded *)
  viewState : view;
  panes : option Panes
}.

Inductive Document : Type :=
| Loading                    (* the scripts of the page are about to run *)
| Blank                      (* a script ended by an uncaught exception *)
| Placeholder                (* App returned the "Loading..." element *)
| Running (app : AppState)
| Left (url : jsstring).     (* a navigation to another document *)

Record Browser : Type := {
  location : Location;
  clipboard : option jsstring;
  document : Document;
  reloads : nat                     (* automatic reloads so far *)
}.

Definition visit (l : Location) : Browser :=
  {| location := l; clipboard := None; document := Loading; reloads := 0 |}.

Definition set_document (b : Browser) (d : Document) : Browser :=
  {| location := location b; clipboard := clipboard b; document := d;
     reloads := reloads b |}.

Definition set_location (b : Browser) (l : Location) : Browser :=
  {| location := l; clipboard := clipboard b; document := document b;
     reloads := reloads b |}.

(** [window.location.reload()] *)
Definition reload (b : Browser) : Browser :=
  {| location := location b; clipboard := clipboard b; document := Loading;
     reloads := S (reloads b) |}.

(** The template string
    [`${origin}${pathname}${search}#${encoded}`]. *)
Definition page_url (l : Location) (encoded : jsstring) : jsstring :=
  origin l ++ pathname l ++ search l ++ [HASH] ++ encoded.

Definition mount (s : jsstring) : AppState :=
  {| shaderText := s; appliedShader := s; compileError := None;
     data := false; viewState := initial_view; panes := None |}.

(** The first render of [App]. *)
Definition render_App (b : Browser) : Browser :=
  let s := App.getShaderFromUrl (location b) in
  if falsy_opt s then
    (* Invalid/corrupt hash -> redirect to default *)
    match App.encodeShaderForUrl CSE.fragmentShader with
    | Ok encoded =>
        match location_replace (location b) (page_url (location b) encoded) with
        | ToFragment l' => set_document (set_location b l') Placeholder
        | ToDocument url => set_document b (Left url)
        end
    | Throw _ => set_document b Blank
    end
  else
    match s with
    | Some text => set_document b (Running (mount text))
    | None => set_document b Placeholder
    end.

(** The module body of [main.tsx]. *)
Definition main (b : Browser) : Browser :=
  if falsy (hash (location b)) then
    match Main.encodeShaderForUrl CSE.fragmentShader with
    | Ok encoded => reload (set_location b (set_hash (location b) encoded))
    | Throw _ => set_document b Blank
    end
  else render_App b.

(** [e instanceof Error ? e.message : String(e)] *)
Definition message_of (e : thrown) : jsstring :=
  match e with
  | ErrorObject m => m
  | DOMException _ m => m
  | OtherValue shown => shown
  end.

Definition set_compileError (a : AppState) (e : option jsstring) : AppState :=
  {| shaderText := shaderText a; appliedShader := appliedShader a;
     compileError := e; data := data a; viewState := viewState a;
     panes := panes a |}.

Definition handleCompile (b : Browser) (a : AppState) : Browser :=
  let a := set_compileError a None in
  let fs := App.fragmentShader (App.parseShader (shaderText a)) in
  try_catch
    (bind (parse fs) (fun _ =>
     bind (App.encodeShaderForUrl (shaderText a)) (fun encoded =>
     Ok (reload (set_location b (set_hash (location b) encoded))))))
    (fun e => set_document b (Running (set_compileError a (Some (message_of e))))).

Definition handleCopyLink (b : Browser) (a : AppState) : Browser :=
  match App.encodeShaderForUrl (shaderText a) with
  | Ok encoded =>
      {| location := location b;
         clipboard := Some (page_url (location b) encoded);
         document := document b; reloads := reloads b |}
  | Throw _ => b
  end.

Definition baselineLayer : CSE.LayerProps :=
  {| CSE.prop_fragmentShader := None; CSE.prop_mutateColorCode := None;
     CSE.prop_colors := None; CSE.prop_channelsVisible := Some [true];
     CSE.prop_selections := Some 1%nat |}.

Definition customLayer (applied : jsstring) : CSE.LayerProps :=
  let p := App.parseShader applied in
  {| CSE.prop_fragmentShader := Some (App.fragmentShader p);
     CSE.prop_mutateColorCode := Some (App.mutateColorCode p);
     CSE.prop_colors := None; CSE.prop_channelsVisible := Some [true];
     CSE.prop_selections := Some 1%nat |}.

(** The render effect, with dependencies [data] and [appliedShader]: it
    returns at once without data, else it replaces both decks. *)
Definition render_effect (a : AppState) : AppState :=
  if data a then
    {| shaderText := shaderText a; appliedShader := appliedShader a;
       compileError := compileError a; data := data a;
       viewState := viewState a;
       panes := Some {| baseline := baselineLayer;
                        custom := customLayer (appliedShader a);
                        pane_view := viewState a |} |}
  else a.

(** [setShaderText]: the editor's [onChange]. *)
Definition setShaderText (a : AppState) (t : jsstring) : AppState :=
  {| shaderText := t; appliedShader := appliedShader a;
     compileError := compileError a; data := data a;
     viewState := viewState a; panes := panes a |}.

(** [setData], followed by the render effect. *)
Definition setData (a : AppState) : AppState :=
  render_effect
    {| shaderText := shaderText a; appliedShader := appliedShader a;
       compileError := compileError a; data := true;
       viewState := viewState a; panes := panes a |}.

(** [setViewState], followed by the effect that pushes the view state to
    both decks. *)
Definition setViewState (a : AppState) (v : view) : AppState :=
  {| shaderText := shaderText a; appliedShader := appliedShader a;
     compileError := compileError a; data := data a; viewState := v;
     panes := match panes a with
              | Some p => Some {| baseline := baseline p; custom := custom p;
                                  pane_view := v |}
              | None => None
              end |}.

(** The events that the scripts of the page handle. *)
Inductive Event : Type :=
| PageLoad                      (* the scripts of a loading page run *)
| Edit (t : jsstring)           (* typing in the editor *)
| ClickCompile
| ClickCopyLink
| DataLoaded                    (* loadOmeTiff resolved *)
| ViewStateChange (v : view).

(** One event.  The user interface exists only on a running page; the
    scripts run only on a loading one. *)
Definition step (b : Browser) (e : Event) : Browser :=
  match document b, e with
  | Loading, PageLoad => main b
  | Running a, Edit t => set_document b (Running (setShaderText a t))
  | Running a, ClickCompile => handleCompile b a
  | Running a, ClickCopyLink => handleCopyLink b a
  | Running a, DataLoaded => set_document b (Running (setData a))
  | Running a, ViewStateChange v => set_document b (Running (setViewState a v))
  | _, _ => b
  end.

Definition run (b : Browser) (es : list Event) : Browser := fold_left step es b.

(** What can happen to a page.  Besides the events that its scripts
    handle, the fragment of the address can change under a document (the
    user edits it in the address bar, follows a link to the same page, or
    goes back after a compile): a navigation to a fragment loads nothing,
    and no script of the page listens to [hashchange] (the hash is read
    once, in [useMemo(..., [])]), so only [window.location] changes. *)
Inductive Action : Type :=
| Handled (e : Event)
| FragmentNavigation (f : jsstring).

Definition act (b : Browser) (x : Action) : Browser :=
  match x with
  | Handled e => step b e
  | FragmentNavigation f =>
      match document b with
      | Left _ => b
      | _ => set_location b (with_fragment (location b) f)
      end
  end.

Definition run_actions (b : Browser) (xs : list Action) : Browser :=
  fold_left act xs b.

(** The page runs its scripts until it no longer reloads. *)
Fixpoint settle (fuel : nat) (b : Browser) : option Browser :=
  match document b with
  | Loading =>
      match fuel with
      | O => None
      | S fuel' => settle fuel' (step b PageLoad)
      end
  | _ => Some b
  end.

(** The decks, when they exist, show the default program on the baseline
    side and the program of [appliedShader] on the custom side. *)
Definition pane_invariant (b : Browser) : Prop :=
  match document b with
  | Running a =>
      match panes a with
      | Some p =>
          baseline p = baselineLayer /\
          custom p = customLayer (appliedShader a)
      | None => True
      end
  | _ => True
  end.

End WithParser.

Unset Implicit Arguments.

Arguments Loading {view}.
Arguments Blank {view}.
Arguments Placeholder {view}.
Arguments Left {view} url.
Arguments PageLoad {view}.
Arguments Edit {view} t.
Arguments ClickCompile {view}.
Arguments ClickCopyLink {view}.
Arguments DataLoaded {view}.
Arguments FragmentNavigation {view} f.

(** The token of the default document, [encodeShaderForUrl(fragmentShader)]. *)
Definition default_token : jsstring :=
  Eval vm_compute in
    match App.encodeShaderForUrl CSE.fragmentShader with
    | Ok token => token
    | Throw _ => []
    end.

(** A stand-in for the parser in examples: it wants a semicolon. *)
Definition sample_parse (s : jsstring) : result unit :=
  if existsb (Z.eqb 59) s then Ok tt
  else Throw (ErrorObject (of_string "SyntaxError: Expected ;")).

End Page.

(** ** Notions used to state further properties *)

Module Derived.
Import JS Encoding Base64.
Module CSE := CustomShaderExtension.

(** The substitution of the encoder, [.replace(/\+/g, '-').replace(/\//g, '_')]. *)
Definition to_url_safe (s : jsstring) : jsstring :=
  replace_all App.SLASH App.UNDERSCORE (replace_all App.PLUS App.MINUS s).

(** The substitution of the decoder, [.replace(/-/g, '+').replace(/_/g, '/')]. *)
Definition to_base64 (s : jsstring) : jsstring :=
  replace_all App.UNDERSCORE App.SLASH (replace_all App.MINUS App.PLUS s).

(** A character that may stand in a token of the encoder. *)
Definition is_token_char (c : Z) : bool :=
  App.is_base64url_char c || (c =? pad).

Fixpoint drop_pad (s : jsstring) : jsstring :=
  match s with
  | [] => []
  | c :: s' => if c =? pad then drop_pad s' else s
  end.

(** A token without the [=] at its end. *)
Definition unpad (token : jsstring) : jsstring := rev (drop_pad (rev token)).

(** What the UTF-8 decoder holds between two bytes: either nothing, or the
    bits read so far of a sequence of two, three or four bytes, within the
    limits that the lead byte and the boundaries allow. *)
Definition utf8_pending (st : utf8_state) : Prop :=
  let c := code_point st in
  let lo := lower_boundary st in
  let hi := upper_boundary st in
  bytes_needed st = 0 \/
  (bytes_needed st = 1 /\ bytes_seen st = 0 /\ 2 <= c <= 31 /\
     lo = 128 /\ hi = 191) \/
  (bytes_needed st = 2 /\ bytes_seen st = 0 /\ 0 <= c <= 15 /\
     128 <= lo /\ hi <= 191 /\ (c = 0 -> 160 <= lo) /\ (c = 13 -> hi <= 159)) \/
  (bytes_needed st = 2 /\ bytes_seen st = 1 /\ lo = 128 /\ hi = 191 /\
     (32 <= c <= 863 \/ 896 <= c <= 1023)) \/
  (bytes_needed st = 3 /\ bytes_seen st = 0 /\ 0 <= c <= 4 /\
     128 <= lo /\ hi <= 191 /\ (c = 0 -> 144 <= lo) /\ (c = 4 -> hi <= 143)) \/
  (bytes_needed st = 3 /\ bytes_seen st = 1 /\ lo = 128 /\ hi = 191 /\
     16 <= c <= 271) \/
  (bytes_needed st = 3 /\ bytes_seen st = 2 /\ lo = 128 /\ hi = 191 /\
     1024 <= c <= 17407).

(** The polynomial in 31 over the code units, without wrap-around. *)
Definition poly31 (str : jsstring) : Z :=
  fold_left (fun h c => 31 * h + c) str 0.

(** Layer properties with a template and an injection of their own. *)
Definition shader_props (fs mc : jsstring) : CSE.LayerProps :=
  {| CSE.prop_fragmentShader := Some fs; CSE.prop_mutateColorCode := Some mc;
     CSE.prop_colors := None; CSE.prop_channelsVisible := Some [true];
     CSE.prop_selections := Some 1%nat |}.

(** A proper border of a string: a non-empty proper prefix that is also a
    suffix, given by its distance [k] from the start of the suffix. *)
Definition has_border_at (s : jsstring) (k : nat) : bool :=
  eqb_string (skipn k s) (firstn (List.length s - k) s).

(** A text without white space at its ends (the empty text is one). *)
Definition no_white_ends (r : jsstring) : Prop :=
  is_white_space (hd 0 r) = false /\ is_white_space (last r 0) = false.

(** [r] is [s] with the white space at both ends taken off. *)
Definition trimmed_of (s r : jsstring) : Prop :=
  no_white_ends r /\
  exists w1 w2, all_white w1 /\ all_white w2 /\ s = w1 ++ r ++ w2.

(** What holds of a page in every state that a visit reaches: no script
    has ended by an exception; a running page has a non-empty applied
    shader, which is a text that the decoder returns; its decks exist
    exactly when the image is loaded, and they show the view state of the
    component. *)
Definition page_ok {view : Type} (b : Page.Browser view) : Prop :=
  match Page.document b with
  | Page.Blank => False
  | Page.Running a =>
      (exists l0, App.getShaderFromUrl l0 = Some (Page.appliedShader a)) /\
      Page.appliedShader a <> [] /\
      match Page.panes a with
      | Some p => Page.data a = true /\ Page.pane_view p = Page.viewState a
      | None => Page.data a = false
      end
  | _ => True
  end.

End Derived.

(** * Properties *)

(** ** Bit operations as arithmetic *)

Module Bits.

Lemma land_low (x : Z) (n : Z) :
  0 <= n -> Z.land x (Z.ones n) = x mod 2 ^ n.
Proof. intros Hn. apply Z.land_ones; exact Hn. Qed.

Lemma land_63 x : Z.land x 63 = x mod 64.
Proof. exact (land_low x 6 ltac:(lia)). Qed.

Lemma land_31 x : Z.land x 31 = x mod 32.
Proof. exact (land_low x 5 ltac:(lia)). Qed.

Lemma land_15 x : Z.land x 15 = x mod 16.
Proof. exact (land_low x 4 ltac:(lia)). Qed.

Lemma land_7 x : Z.land x 7 = x mod 8.
Proof. exact (land_low x 3 ltac:(lia)). Qed.

Lemma land_1023 x : Z.land x 1023 = x mod 1024.
Proof. exact (land_low x 10 ltac:(lia)). Qed.

(** Six low bits joined to a multiple of 64. *)
Lemma lor_low6 (x y : Z) : 0 <= y < 64 -> Z.lor (x * 64) y = x * 64 + y.
Proof.
  intros Hy.
  assert (Hdisj : Z.land (x * 64) y = 0).
  { assert (Hy' : y = Z.land 63 y).
    { rewrite Z.land_comm, land_63. symmetry. apply Z.mod_small. lia. }
    rewrite Hy', Z.land_assoc, land_63, Z.mod_mul by lia.
    apply Z.land_0_l. }
  pose proof (Z.add_lor_land (x * 64) y) as Hsum.
  rewrite Hdisj in Hsum. lia.
Qed.

Lemma shiftl_6 x : Z.shiftl x 6 = x * 64.
Proof. rewrite Z.shiftl_mul_pow2 by lia. reflexivity. Qed.

Lemma shiftl_10 x : Z.shiftl x 10 = x * 1024.
Proof. rewrite Z.shiftl_mul_pow2 by lia. reflexivity. Qed.

Lemma shiftr_const x n : 0 <= n -> Z.shiftr x n = x / 2 ^ n.
Proof. intros Hn. apply Z.shiftr_div_pow2; exact Hn. Qed.

End Bits.

(** ** UTF-8: decoding an encoded code point *)

Module Utf8Facts.
Import JS Encoding Bits.

Lemma continuation_0 cp : continuation cp 0 = 128 + cp mod 64.
Proof.
  unfold continuation. change (6 * 0) with 0.
  rewrite Z.shiftr_0_r, land_63.
  change 128 with (2 * 64). apply lor_low6.
  apply Z.mod_pos_bound. lia.
Qed.

Lemma continuation_1 cp : continuation cp 1 = 128 + cp / 64 mod 64.
Proof.
  unfold continuation. change (6 * 1) with 6.
  rewrite (shiftr_const cp 6) by lia. change (2 ^ 6) with 64.
  rewrite land_63. change 128 with (2 * 64). apply lor_low6.
  apply Z.mod_pos_bound. lia.
Qed.

Lemma continuation_2 cp : continuation cp 2 = 128 + cp / 4096 mod 64.
Proof.
  unfold continuation. change (6 * 2) with 12.
  rewrite (shiftr_const cp 12) by lia. change (2 ^ 12) with 4096.
  rewrite land_63. change 128 with (2 * 64). apply lor_low6.
  apply Z.mod_pos_bound. lia.
Qed.

(** The encoder in arithmetic form. *)
Lemma utf8_encode_cp_arith cp :
  utf8_encode_cp cp =
    if cp <=? 127 then [cp]
    else if cp <=? 2047 then [cp / 64 + 192; 128 + cp mod 64]
    else if cp <=? 65535 then
      [cp / 4096 + 224; 128 + cp / 64 mod 64; 128 + cp mod 64]
    else [cp / 262144 + 240; 128 + cp / 4096 mod 64; 128 + cp / 64 mod 64;
          128 + cp mod 64].
Proof.
  unfold utf8_encode_cp.
  rewrite continuation_0, continuation_1, continuation_2.
  rewrite (shiftr_const cp 6), (shiftr_const cp 12),
    (shiftr_const cp 18) by lia.
  reflexivity.
Qed.

Lemma utf8_encode_cp_bytes cp :
  is_scalar cp -> Forall is_byte (utf8_encode_cp cp).
Proof.
  intros Hs. rewrite utf8_encode_cp_arith. unfold is_scalar in Hs.
  destruct (Z.leb_spec cp 127); [|destruct (Z.leb_spec cp 2047);
    [|destruct (Z.leb_spec cp 65535)]];
  repeat apply Forall_cons; try apply Forall_nil; unfold is_byte; lia.
Qed.

Lemma utf8_encode_cp_nonempty cp : utf8_encode_cp cp <> [].
Proof.
  unfold utf8_encode_cp.
  destruct (cp <=? 127); [|destruct (cp <=? 2047); [|destruct (cp <=? 65535)]];
  discriminate.
Qed.

Lemma utf8_decode_cons st b rest :
  utf8_decode_from st (b :: rest) =
    fst (utf8_handler st b) ++ utf8_decode_from (snd (utf8_handler st b)) rest.
Proof. cbn [utf8_decode_from]. destruct (utf8_handler st b). reflexivity. Qed.

Lemma between_true lo hi b : lo <= b <= hi -> between lo hi b = true.
Proof. intros H. unfold between. apply andb_true_intro. split; apply Z.leb_le; lia. Qed.

Lemma between_false lo hi b : b < lo \/ hi < b -> between lo hi b = false.
Proof.
  intros H. unfold between. apply andb_false_iff.
  destruct H; [left | right]; apply Z.leb_gt; lia.
Qed.

Lemma lead_1 b : 0 <= b <= 127 -> utf8_lead b = ([b], utf8_init).
Proof. intros H. unfold utf8_lead. rewrite between_true by lia. reflexivity. Qed.

Lemma lead_2 b :
  194 <= b <= 223 ->
  utf8_lead b =
    ([], {| code_point := b mod 32; bytes_seen := 0; bytes_needed := 1;
            lower_boundary := 128; upper_boundary := 191 |}).
Proof.
  intros H. unfold utf8_lead.
  rewrite between_false by lia. rewrite between_true by lia.
  rewrite land_31. reflexivity.
Qed.

Lemma lead_3 b :
  224 <= b <= 239 ->
  utf8_lead b =
    ([], {| code_point := b mod 16; bytes_seen := 0; bytes_needed := 2;
            lower_boundary := if b =? 224 then 160 else 128;
            upper_boundary := if b =? 237 then 159 else 191 |}).
Proof.
  intros H. unfold utf8_lead.
  rewrite between_false by lia. rewrite between_false by lia.
  rewrite between_true by lia. rewrite land_15. reflexivity.
Qed.

Lemma lead_4 b :
  240 <= b <= 244 ->
  utf8_lead b =
    ([], {| code_point := b mod 8; bytes_seen := 0; bytes_needed := 3;
            lower_boundary := if b =? 240 then 144 else 128;
            upper_boundary := if b =? 244 then 143 else 191 |}).
Proof.
  intros H. unfold utf8_lead.
  rewrite between_false by lia. rewrite between_false by lia.
  rewrite between_false by lia. rewrite between_true by lia.
  rewrite land_7. reflexivity.
Qed.

Lemma handler_init b : utf8_handler utf8_init b = utf8_lead b.
Proof. reflexivity. Qed.

(** A continuation byte inside the boundaries that completes the sequence. *)
Lemma handler_last c s n lo hi b :
  n = s + 1 -> n <> 0 -> lo <= b <= hi ->
  utf8_handler {| code_point := c; bytes_seen := s; bytes_needed := n;
                  lower_boundary := lo; upper_boundary := hi |} b =
    ([c * 64 + b mod 64], utf8_init).
Proof.
  intros Hn Hn0 Hb. unfold utf8_handler. cbn [bytes_needed bytes_seen
    lower_boundary upper_boundary code_point].
  destruct (Z.eqb_spec n 0) as [|_]; [contradiction|].
  rewrite between_true by lia. cbn [negb].
  destruct (Z.eqb_spec (s + 1) n) as [_|]; [|lia].
  rewrite shiftl_6, land_63, lor_low6 by (apply Z.mod_pos_bound; lia).
  reflexivity.
Qed.

(** A continuation byte inside the boundaries, with more to come. *)
Lemma handler_more c s n lo hi b :
  n <> s + 1 -> n <> 0 -> lo <= b <= hi ->
  utf8_handler {| code_point := c; bytes_seen := s; bytes_needed := n;
                  lower_boundary := lo; upper_boundary := hi |} b =
    ([], {| code_point := c * 64 + b mod 64; bytes_seen := s + 1;
            bytes_needed := n; lower_boundary := 128;
            upper_boundary := 191 |}).
Proof.
  intros Hn Hn0 Hb. unfold utf8_handler. cbn [bytes_needed bytes_seen
    lower_boundary upper_boundary code_point].
  destruct (Z.eqb_spec n 0) as [|_]; [contradiction|].
  rewrite between_true by lia. cbn [negb].
  destruct (Z.eqb_spec (s + 1) n) as [|_]; [lia|].
  rewrite shiftl_6, land_63, lor_low6 by (apply Z.mod_pos_bound; lia).
  reflexivity.
Qed.

(** Decoding the encoding of a scalar value gives it back and leaves the
    decoder in its initial state. *)
Lemma decode_encode_cp cp rest :
  is_scalar cp ->
  utf8_decode_from utf8_init (utf8_encode_cp cp ++ rest) =
    cp :: utf8_decode_from utf8_init rest.
Proof.
  intros Hs. unfold is_scalar in Hs. rewrite utf8_encode_cp_arith.
  destruct (Z.leb_spec cp 127) as [H1|H1];
    [|destruct (Z.leb_spec cp 2047) as [H2|H2];
      [|destruct (Z.leb_spec cp 65535) as [H3|H3]]];
  cbn [app].
  - rewrite utf8_decode_cons, handler_init, lead_1 by lia. reflexivity.
  - rewrite utf8_decode_cons, handler_init, lead_2 by lia. cbn [fst snd app].
    rewrite utf8_decode_cons, handler_last by lia. cbn [fst snd app].
    f_equal. lia.
  - rewrite utf8_decode_cons, handler_init, lead_3 by lia. cbn [fst snd app].
    rewrite utf8_decode_cons, handler_more.
    + cbn [fst snd app].
      rewrite utf8_decode_cons, handler_last by lia. cbn [fst snd app].
      f_equal. lia.
    + lia.
    + lia.
    + destruct (Z.eqb_spec (cp / 4096 + 224) 224);
      destruct (Z.eqb_spec (cp / 4096 + 224) 237); lia.
  - rewrite utf8_decode_cons, handler_init, lead_4 by lia. cbn [fst snd app].
    rewrite utf8_decode_cons, handler_more.
    + cbn [fst snd app].
      rewrite utf8_decode_cons, handler_more by lia. cbn [fst snd app].
      rewrite utf8_decode_cons, handler_last by lia. cbn [fst snd app].
      f_equal. lia.
    + lia.
    + lia.
    + destruct (Z.eqb_spec (cp / 262144 + 240) 240);
      destruct (Z.eqb_spec (cp / 262144 + 240) 244); lia.
Qed.

Lemma decode_encode_scalars cps :
  Forall is_scalar cps -> utf8_decode (utf8_encode cps) = cps.
Proof.
  unfold utf8_decode, utf8_encode.
  induction 1 as [|cp cps Hcp _ IH]; [reflexivity|].
  cbn [flat_map]. rewrite decode_encode_cp by assumption.
  f_equal. exact IH.
Qed.

Lemma utf8_encode_bytes cps :
  Forall is_scalar cps -> Forall is_byte (utf8_encode cps).
Proof.
  unfold utf8_encode. induction 1 as [|cp cps Hcp _ IH]; cbn [flat_map].
  - constructor.
  - apply Forall_app. split; [apply utf8_encode_cp_bytes; assumption | exact IH].
Qed.

End Utf8Facts.

(** ** UTF-16: strings and code points *)

Module Utf16Facts.
Import JS Encoding Bits.

Lemma surrogate_cases c :
  (is_lead_surrogate c = true /\ 55296 <= c <= 56319) \/
  (is_lead_surrogate c = false /\ is_trail_surrogate c = true /\
     56320 <= c <= 57343) \/
  (is_lead_surrogate c = false /\ is_trail_surrogate c = false /\
     (c < 55296 \/ 57343 < c)).
Proof.
  unfold is_lead_surrogate, is_trail_surrogate.
  destruct (Z.leb_spec 55296 c), (Z.leb_spec c 56319),
    (Z.leb_spec 56320 c), (Z.leb_spec c 57343); cbn; lia.
Qed.

Lemma pair_code_point c d :
  55296 <= c <= 56319 -> 56320 <= d <= 57343 ->
  let cp := 65536 + Z.shiftl (c - 55296) 10 + (d - 56320) in
  is_scalar cp /\ utf16_units cp = [c; d].
Proof.
  intros Hc Hd cp. subst cp. rewrite shiftl_10. split.
  - unfold is_scalar. lia.
  - unfold utf16_units.
    destruct (Z.ltb_spec (65536 + (c - 55296) * 1024 + (d - 56320)) 65536);
      [lia|].
    rewrite (shiftr_const _ 10) by lia. change (2 ^ 10) with 1024.
    rewrite land_1023. f_equal; [lia|]. f_equal. lia.
Qed.

Lemma unit_code_point c :
  0 <= c < 65536 -> utf16_units c = [c].
Proof.
  intros H. unfold utf16_units. destruct (Z.ltb_spec c 65536); [reflexivity|lia].
Qed.

(** Every string of code units has scalar values as its code points. *)
Lemma to_code_points_scalar s :
  wf_string s -> Forall is_scalar (to_code_points s).
Proof.
  remember (List.length s) as n eqn:Hn.
  revert s Hn. induction n as [n IH] using lt_wf_ind. intros s Hn Hwf.
  destruct s as [|c rest]; [constructor|].
  inversion Hwf as [|? ? Hc Hrest]; subst. unfold is_code_unit in Hc.
  cbn [to_code_points].
  destruct (surrogate_cases c) as [[-> Hr]|[[-> [-> Hr]]|[-> [-> Hr]]]].
  - destruct rest as [|d rest']; [repeat constructor; unfold is_scalar; lia|].
    inversion Hrest as [|? ? Hd Hrest']; subst.
    destruct (surrogate_cases d) as [[Hl Hdr]|[[Hl [Ht Hdr]]|[Hl [Ht Hdr]]]].
    + assert (is_trail_surrogate d = false) as ->.
      { unfold is_trail_surrogate. destruct (Z.leb_spec 56320 d); [lia|reflexivity]. }
      constructor; [unfold is_scalar; lia|].
      apply (IH (List.length (d :: rest'))); cbn [List.length]; auto; lia.
    + rewrite Ht. constructor.
      * apply (pair_code_point c d Hr Hdr).
      * apply (IH (List.length rest')); cbn [List.length]; auto; lia.
    + rewrite Ht. constructor; [unfold is_scalar; lia|].
      apply (IH (List.length (d :: rest'))); cbn [List.length]; auto; lia.
  - constructor; [unfold is_scalar; lia|].
    apply (IH (List.length rest)); cbn [List.length]; auto; lia.
  - constructor; [unfold is_scalar; lia|].
    apply (IH (List.length rest)); cbn [List.length]; auto; lia.
Qed.

(** Without unpaired surrogates the code points give the string back. *)
Lemma of_to_code_points s :
  wf_string s -> well_paired s = true ->
  of_code_points (to_code_points s) = s.
Proof.
  remember (List.length s) as n eqn:Hn.
  revert s Hn. induction n as [n IH] using lt_wf_ind. intros s Hn Hwf Hp.
  destruct s as [|c rest]; [reflexivity|].
  inversion Hwf as [|? ? Hc Hrest]; subst. unfold is_code_unit in Hc.
  cbn [to_code_points well_paired] in *.
  destruct (surrogate_cases c) as [[Hl Hr]|[[Hl [Ht Hr]]|[Hl [Ht Hr]]]];
    rewrite Hl in *; try rewrite Ht in *.
  - destruct rest as [|d rest']; [discriminate|].
    apply andb_prop in Hp. destruct Hp as [Hd Hp]. rewrite Hd.
    inversion Hrest as [|? ? Hdu Hrest']; subst.
    assert (Hdr : 56320 <= d <= 57343).
    { unfold is_trail_surrogate in Hd. apply andb_prop in Hd.
      destruct Hd as [H1 H2]. apply Z.leb_le in H1, H2. lia. }
    unfold of_code_points. cbn [flat_map].
    rewrite (proj2 (pair_code_point c d Hr Hdr)). cbn [app]. do 2 f_equal.
    apply (IH (List.length rest')); cbn [List.length]; auto; lia.
  - discriminate.
  - cbn [negb andb] in Hp. unfold of_code_points. cbn [flat_map].
    rewrite unit_code_point by lia. cbn [app]. f_equal.
    apply (IH (List.length rest)); cbn [List.length]; auto; lia.
Qed.

Lemma to_code_points_nonempty s : s <> [] -> to_code_points s <> [].
Proof.
  destruct s as [|c rest]; [congruence|]. intros _. cbn [to_code_points].
  destruct (is_lead_surrogate c).
  - destruct rest as [|d rest']; [discriminate|].
    destruct (is_trail_surrogate d); discriminate.
  - destruct (is_trail_surrogate c); discriminate.
Qed.

End Utf16Facts.

(** ** base64: decoding an encoding *)

Module Base64Facts.
Import JS Encoding Base64.

(** Induction on a list three elements at a time. *)
Lemma list_ind3 (A : Type) (P : list A -> Prop) :
  P [] -> (forall a, P [a]) -> (forall a b, P [a; b]) ->
  (forall a b c rest, P rest -> P (a :: b :: c :: rest)) ->
  forall l, P l.
Proof.
  intros P0 P1 P2 P3. fix IH 1.
  intros [|a [|b [|c rest]]].
  - exact P0.
  - apply P1.
  - apply P2.
  - apply P3. apply IH.
Qed.

Lemma dec_enc_char v : is_sextet v -> dec_char (enc_char v) = Some v.
Proof.
  unfold is_sextet, enc_char, dec_char. intros Hv.
  destruct (Z.ltb_spec v 26); [|destruct (Z.ltb_spec v 52);
    [|destruct (Z.ltb_spec v 62); [|destruct (Z.eqb_spec v 62)]]];
  repeat match goal with
  | |- context [Z.leb ?a ?b] => destruct (Z.leb_spec a b); try lia
  | |- context [Z.eqb ?a ?b] => destruct (Z.eqb_spec a b); try lia
  end; cbn [andb]; try (f_equal; lia); try lia.
Qed.

(** What the characters of the alphabet are not. *)
Lemma enc_char_plain v :
  is_sextet v ->
  enc_char v <> pad /\ is_ascii_whitespace (enc_char v) = false /\
  enc_char v <> 45 /\ enc_char v <> 95 /\ 0 <= enc_char v <= 255.
Proof.
  unfold is_sextet, enc_char, pad, is_ascii_whitespace. intros Hv.
  destruct (Z.ltb_spec v 26); [|destruct (Z.ltb_spec v 52);
    [|destruct (Z.ltb_spec v 62); [|destruct (Z.eqb_spec v 62)]]];
  (repeat split; try lia;
   repeat match goal with
   | |- context [Z.eqb ?a ?b] => destruct (Z.eqb_spec a b); try lia
   end; reflexivity).
Qed.

Lemma encode_split bytes :
  base64_encode bytes = map enc_char (base64_sextets bytes) ++ base64_padding bytes.
Proof.
  induction bytes as [| a | a b | a b c rest IH] using list_ind3;
    try reflexivity.
  cbn [base64_encode base64_sextets base64_padding map app].
  rewrite IH. reflexivity.
Qed.

Lemma sextets_range bytes :
  Forall is_byte bytes -> Forall is_sextet (base64_sextets bytes).
Proof.
  unfold is_byte, is_sextet.
  induction bytes as [| a | a b | a b c rest IH] using list_ind3; intros H.
  - constructor.
  - inversion H; subst. cbn [base64_sextets].
    repeat apply Forall_cons; try apply Forall_nil; lia.
  - inversion H as [|? ? Ha H']; subst. inversion H'; subst.
    cbn [base64_sextets].
    repeat apply Forall_cons; try apply Forall_nil; lia.
  - inversion H as [|? ? Ha H']; subst. inversion H' as [|? ? Hb H'']; subst.
    inversion H'' as [|? ? Hc Hrest]; subst.
    cbn [base64_sextets].
    repeat (apply Forall_cons; [lia|]). apply IH. exact Hrest.
Qed.

Lemma decode_groups_sextets bytes :
  Forall is_byte bytes -> decode_groups (base64_sextets bytes) = bytes.
Proof.
  unfold is_byte.
  induction bytes as [| a | a b | a b c rest IH] using list_ind3; intros H.
  - reflexivity.
  - inversion H; subst. cbn [base64_sextets decode_groups]. f_equal. lia.
  - inversion H as [|? ? Ha H']; subst. inversion H'; subst.
    cbn [base64_sextets decode_groups]. f_equal; [lia|]. f_equal. lia.
  - inversion H as [|? ? Ha H']; subst. inversion H' as [|? ? Hb H'']; subst.
    inversion H'' as [|? ? Hc Hrest]; subst.
    cbn [base64_sextets decode_groups].
    rewrite (IH Hrest). f_equal; [lia|]. f_equal; [lia|]. f_equal. lia.
Qed.

Lemma sextets_of_alphabet vs :
  Forall is_sextet vs -> sextets (map enc_char vs) = Some vs.
Proof.
  induction 1 as [|v vs Hv _ IH]; [reflexivity|].
  cbn [map sextets]. rewrite (dec_enc_char v Hv), IH. reflexivity.
Qed.

(** The padding goes with the number of sextets. *)
Lemma padding_cases bytes :
  (base64_padding bytes = [] /\
     len (base64_sextets bytes) mod 4 = 0) \/
  (base64_padding bytes = [pad; pad] /\
     len (base64_sextets bytes) mod 4 = 2) \/
  (base64_padding bytes = [pad] /\
     len (base64_sextets bytes) mod 4 = 3).
Proof.
  unfold len.
  induction bytes as [| a | a b | a b c rest IH] using list_ind3.
  - left. split; reflexivity.
  - right; left. split; reflexivity.
  - right; right. split; reflexivity.
  - cbn [base64_padding base64_sextets List.length].
    destruct IH as [[-> H]|[[-> H]|[-> H]]]; [left|right; left|right; right];
      (split; [reflexivity|lia]).
Qed.

Lemma filter_all (A : Type) (f : A -> bool) (l : list A) :
  Forall (fun x => f x = true) l -> filter f l = l.
Proof.
  induction 1 as [|x l Hx _ IH]; [reflexivity|].
  cbn [filter]. rewrite Hx, IH. reflexivity.
Qed.

Lemma body_plain vs c :
  Forall is_sextet vs -> In c (map enc_char vs) ->
  c <> pad /\ is_ascii_whitespace c = false /\ c <> 45 /\ c <> 95 /\
  0 <= c <= 255.
Proof.
  intros Hvs Hin. apply in_map_iff in Hin. destruct Hin as [v [<- Hv]].
  apply enc_char_plain. rewrite Forall_forall in Hvs. apply Hvs. exact Hv.
Qed.

Lemma encode_plain bytes c :
  Forall is_byte bytes -> In c (base64_encode bytes) ->
  is_ascii_whitespace c = false /\ c <> 45 /\ c <> 95 /\ 0 <= c <= 255.
Proof.
  intros Hb Hin. rewrite encode_split in Hin. apply in_app_or in Hin.
  destruct Hin as [Hin|Hin].
  - pose proof (body_plain _ c (sextets_range _ Hb) Hin). tauto.
  - assert (c = pad) as ->.
    { destruct (padding_cases bytes) as [[E _]|[[E _]|[E _]]];
        rewrite E in Hin; cbn [In] in Hin; intuition congruence. }
    unfold pad. repeat split; try lia; reflexivity.
Qed.

Lemma rev_head_in (A : Type) (l : list A) (c : A) (r : list A) :
  rev l = c :: r -> In c l.
Proof. intros E. apply in_rev. rewrite E. left. reflexivity. Qed.

Lemma len_app (a b : jsstring) : len (a ++ b) = len a + len b.
Proof. unfold len. rewrite length_app. lia. Qed.

(** Removing the padding leaves the characters of the sextets. *)
Lemma strip_padding_encode bytes :
  Forall is_byte bytes ->
  strip_padding (base64_encode bytes) = map enc_char (base64_sextets bytes).
Proof.
  intros Hb. rewrite encode_split.
  pose proof (sextets_range _ Hb) as Hs.
  set (body := map enc_char (base64_sextets bytes)).
  assert (Hlen : len body = len (base64_sextets bytes)).
  { unfold len, body. rewrite length_map. reflexivity. }
  assert (Hlast : forall c, In c body -> c <> pad).
  { intros c Hin. apply (body_plain _ c Hs). exact Hin. }
  clearbody body. unfold strip_padding. rewrite len_app.
  destruct (padding_cases bytes) as [[-> Hm]|[[-> Hm]|[-> Hm]]].
  - rewrite app_nil_r. change (len []) with 0.
    replace ((len body + 0) mod 4 =? 0) with true
      by (symmetry; apply Z.eqb_eq; lia).
    match goal with
    | |- context [@rev ?T body] => destruct (@rev T body) as [|c1 r] eqn:E
    end; [reflexivity|].
    pose proof (Hlast _ (rev_head_in _ _ _ _ E)) as Hc1.
    destruct (Z.eqb_spec c1 pad); [contradiction|].
    destruct r; reflexivity.
  - change (len [pad; pad]) with 2.
    replace ((len body + 2) mod 4 =? 0) with true
      by (symmetry; apply Z.eqb_eq; lia).
    rewrite rev_app_distr. cbn [rev app].
    rewrite Z.eqb_refl. apply rev_involutive.
  - change (len [pad]) with 1.
    replace ((len body + 1) mod 4 =? 0) with true
      by (symmetry; apply Z.eqb_eq; lia).
    rewrite rev_app_distr. cbn [rev app].
    match goal with
    | |- context [@rev ?T body] => destruct (@rev T body) as [|c2 r] eqn:E
    end.
    + assert (body = []) as Hnil.
      { rewrite <- (rev_involutive body), E. reflexivity. }
      rewrite Hnil in Hlen. change (len []) with 0 in Hlen. lia.
    + rewrite Z.eqb_refl.
      pose proof (Hlast _ (rev_head_in _ _ _ _ E)) as Hc2.
      destruct (Z.eqb_spec c2 pad); [contradiction|].
      apply (f_equal (@rev _)) in E. rewrite rev_involutive in E.
      symmetry. exact E.
Qed.

(** Forgiving-base64 decode is a left inverse of the encoder on bytes. *)
Lemma decode_encode_bytes bytes :
  Forall is_byte bytes ->
  forgiving_base64_decode (base64_encode bytes) = Some bytes.
Proof.
  intros Hb. unfold forgiving_base64_decode.
  assert (Hw : remove_whitespace (base64_encode bytes) = base64_encode bytes).
  { unfold remove_whitespace. apply filter_all. apply Forall_forall.
    intros c Hin. destruct (encode_plain _ c Hb Hin) as [-> _]. reflexivity. }
  rewrite Hw, strip_padding_encode by assumption.
  assert (Hlen : len (map enc_char (base64_sextets bytes))
                 = len (base64_sextets bytes)).
  { unfold len. rewrite length_map. reflexivity. }
  rewrite Hlen.
  destruct (Z.eqb_spec (len (base64_sextets bytes) mod 4) 1) as [E|_].
  { destruct (padding_cases bytes) as [[_ H]|[[_ H]|[_ H]]]; lia. }
  rewrite (sextets_of_alphabet _ (sextets_range _ Hb)). cbn [option_map].
  rewrite (decode_groups_sextets _ Hb). reflexivity.
Qed.

Lemma btoa_bytes binary :
  Forall is_byte binary -> btoa binary = Ok (base64_encode binary).
Proof.
  intros Hb. unfold btoa.
  replace (forallb (fun c => (0 <=? c) && (c <=? 255)) binary) with true;
    [reflexivity|].
  symmetry. apply forallb_forall. intros c Hin.
  rewrite Forall_forall in Hb. specialize (Hb c Hin). unfold is_byte in Hb.
  apply andb_true_intro. split; apply Z.leb_le; lia.
Qed.

Lemma atob_btoa binary :
  Forall is_byte binary -> atob (base64_encode binary) = Ok binary.
Proof.
  intros Hb. unfold atob. rewrite (decode_encode_bytes _ Hb). reflexivity.
Qed.

Lemma base64_encode_nonempty bytes : bytes <> [] -> base64_encode bytes <> [].
Proof.
  destruct bytes as [|a [|b [|c rest]]]; [congruence| | |]; intros _;
    cbn [base64_encode]; discriminate.
Qed.

End Base64Facts.

(** ** The URL-state codec *)

Module CodecFacts.
Import JS Encoding Base64 Browser Utf8Facts Utf16Facts Base64Facts.

Lemma byte_to_Z_range b : is_byte (byte_to_Z b).
Proof.
  unfold is_byte, byte_to_Z. pose proof (Byte.to_N_bounded b). lia.
Qed.

Lemma byte_of_to_Z b : byte_of_Z (byte_to_Z b) = b.
Proof.
  pose proof (byte_to_Z_range b) as Hr. unfold is_byte in Hr.
  unfold byte_of_Z. rewrite Z.mod_small by lia.
  unfold byte_to_Z. rewrite N2Z.id, Byte.of_to_N. reflexivity.
Qed.

Lemma byte_to_of_Z z : is_byte z -> byte_to_Z (byte_of_Z z) = z.
Proof.
  unfold is_byte. intros Hz. unfold byte_of_Z. rewrite Z.mod_small by lia.
  destruct (Byte.of_N (Z.to_N z)) as [b|] eqn:E.
  - apply Byte.to_of_N in E. unfold byte_to_Z. rewrite E. lia.
  - apply Byte.of_N_None_iff in E. lia.
Qed.

Lemma bytes_to_of_Z l : Forall is_byte l -> map byte_to_Z (map byte_of_Z l) = l.
Proof.
  induction 1 as [|z l Hz _ IH]; [reflexivity|].
  cbn [map]. rewrite byte_to_of_Z, IH by assumption. reflexivity.
Qed.

Lemma bytes_of_to_Z bs : map byte_of_Z (map byte_to_Z bs) = bs.
Proof.
  induction bs as [|b bs IH]; [reflexivity|].
  cbn [map]. rewrite byte_of_to_Z, IH. reflexivity.
Qed.

Lemma bytes_range bs : Forall is_byte (map byte_to_Z bs).
Proof.
  induction bs as [|b bs IH]; constructor; [apply byte_to_Z_range | exact IH].
Qed.

(** The loop that builds the binary string. *)
Lemma binary_loop bytes acc :
  fold_left (fun binary b => binary ++ [App.fromCharCode (byte_to_Z b)]) bytes acc
  = acc ++ map byte_to_Z bytes.
Proof.
  revert acc. induction bytes as [|b bs IH]; intros acc; cbn [fold_left map].
  - rewrite app_nil_r. reflexivity.
  - rewrite IH, <- app_assoc. cbn [app]. do 2 f_equal.
    pose proof (byte_to_Z_range b) as Hr. unfold is_byte in Hr.
    unfold App.fromCharCode. apply Z.mod_small. lia.
Qed.

(** The encoder never throws: the binary string holds bytes only. *)
Lemma encodeShaderForUrl_eq shader :
  App.encodeShaderForUrl shader =
    Ok (replace_all App.SLASH App.UNDERSCORE
          (replace_all App.PLUS App.MINUS
             (base64_encode (map byte_to_Z (TextEncoder_encode shader))))).
Proof.
  unfold App.encodeShaderForUrl. rewrite binary_loop. cbn [app].
  rewrite btoa_bytes by apply bytes_range. reflexivity.
Qed.

Lemma encodeShaderForUrl_total shader :
  exists token, App.encodeShaderForUrl shader = Ok token.
Proof. eexists. apply encodeShaderForUrl_eq. Qed.

(** Both copies of the encoder are the same function. *)
Lemma main_encoder_same shader :
  Main.encodeShaderForUrl shader = App.encodeShaderForUrl shader.
Proof. reflexivity. Qed.

(** The substitution of the decoder undoes that of the encoder on strings
    without [-] and [_]. *)
Lemma substitution_inverse s :
  Forall (fun c => c <> App.MINUS /\ c <> App.UNDERSCORE) s ->
  replace_all App.UNDERSCORE App.SLASH
    (replace_all App.MINUS App.PLUS
       (replace_all App.SLASH App.UNDERSCORE
          (replace_all App.PLUS App.MINUS s))) = s.
Proof.
  unfold replace_all, App.MINUS, App.UNDERSCORE, App.PLUS, App.SLASH.
  induction 1 as [|c s [Hm Hu] _ IH]; [reflexivity|].
  cbn [map]. rewrite IH. f_equal.
  destruct (Z.eqb_spec c 43) as [->|H43]; [reflexivity|].
  destruct (Z.eqb_spec c 47) as [->|H47]; [reflexivity|].
  destruct (Z.eqb_spec c 45) as [|_]; [contradiction|].
  destruct (Z.eqb_spec c 95) as [|_]; [contradiction|reflexivity].
Qed.

Lemma replace_all_nonempty c d s : s <> [] -> replace_all c d s <> [].
Proof. destruct s; [congruence|]. intros _. discriminate. Qed.

Lemma slice_from_1 c (s : jsstring) : slice_from (c :: s) 1 = s.
Proof.
  unfold slice_from, slice, clamp_index, len. cbn [List.length].
  change (1 <? 0) with false. cbv iota.
  destruct (Z.ltb_spec (Z.of_nat (S (List.length s))) 0); [lia|].
  replace (Z.min 1 (Z.of_nat (S (List.length s)))) with 1 by lia.
  change (Z.to_nat 1) with 1%nat. cbn [skipn].
  replace (Z.to_nat _) with (List.length s) by lia.
  apply firstn_all.
Qed.

(** The token read back from the location. *)
Lemma hash_token l token :
  slice_from (hash (with_fragment l token)) 1 = token.
Proof.
  unfold hash, with_fragment. cbn [fragment].
  destruct token as [|c t]; [reflexivity|]. apply slice_from_1.
Qed.

(** What the decoder of the location makes of a non-empty token. *)
Lemma getShaderFromUrl_token l c token :
  App.getShaderFromUrl (with_fragment l (c :: token)) =
    match atob (replace_all App.UNDERSCORE App.SLASH
                  (replace_all App.MINUS App.PLUS (c :: token))) with
    | Ok binary => Some (TextDecoder_decode (map byte_of_Z binary))
    | Throw _ => None
    end.
Proof.
  unfold App.getShaderFromUrl. rewrite hash_token. cbn [falsy].
  destruct (atob _); reflexivity.
Qed.

Lemma TextDecoder_TextEncoder t :
  wf_string t ->
  TextDecoder_decode (TextEncoder_encode t) =
    of_code_points (strip_bom (to_code_points t)).
Proof.
  intros Hwf. unfold TextDecoder_decode, TextEncoder_encode.
  pose proof (to_code_points_scalar t Hwf) as Hs.
  rewrite bytes_to_of_Z by (apply utf8_encode_bytes; exact Hs).
  rewrite decode_encode_scalars by exact Hs. reflexivity.
Qed.

Lemma TextEncoder_nonempty t : t <> [] -> TextEncoder_encode t <> [].
Proof.
  intros Ht. apply to_code_points_nonempty in Ht.
  unfold TextEncoder_encode, utf8_encode.
  destruct (to_code_points t) as [|cp cps]; [congruence|].
  cbn [flat_map]. pose proof (utf8_encode_cp_nonempty cp).
  destruct (utf8_encode_cp cp); [congruence|]. discriminate.
Qed.

(** Decoding the token of a non-empty text: the text with every unpaired
    surrogate replaced by U+FFFD and without a leading U+FEFF. *)
Lemma decode_encode_general l t :
  wf_string t -> t <> [] ->
  exists token,
    App.encodeShaderForUrl t = Ok token /\
    App.getShaderFromUrl (with_fragment l token) =
      Some (of_code_points (strip_bom (to_code_points t))).
Proof.
  intros Hwf Ht. eexists. split; [apply encodeShaderForUrl_eq|].
  set (bytes := TextEncoder_encode t).
  assert (Hne : map byte_to_Z bytes <> []).
  { pose proof (TextEncoder_nonempty t Ht) as H. fold bytes in H.
    destruct bytes; [congruence|discriminate]. }
  pose proof (bytes_range bytes) as Hr.
  pose proof (base64_encode_nonempty _ Hne) as Hb.
  destruct (replace_all App.SLASH App.UNDERSCORE
              (replace_all App.PLUS App.MINUS
                 (base64_encode (map byte_to_Z bytes)))) as [|c token] eqn:E.
  { exfalso. revert E. apply replace_all_nonempty, replace_all_nonempty.
    exact Hb. }
  rewrite getShaderFromUrl_token, <- E, substitution_inverse.
  - rewrite atob_btoa by exact Hr. rewrite bytes_of_to_Z.
    unfold bytes. rewrite TextDecoder_TextEncoder by exact Hwf. reflexivity.
  - apply Forall_forall. intros x Hin.
    destruct (encode_plain _ x Hr Hin) as [_ [H45 [H95 _]]].
    split; assumption.
Qed.

Lemma strip_bom_no_bom t :
  hd 0 t <> 65279 -> strip_bom (to_code_points t) = to_code_points t.
Proof.
  destruct t as [|c rest]; [reflexivity|]. cbn [hd]. intros Hc.
  cbn [to_code_points].
  destruct (surrogate_cases c) as [[-> Hr]|[[-> [-> Hr]]|[-> [-> Hr]]]].
  - destruct rest as [|d rest']; [reflexivity|].
    destruct (surrogate_cases d) as [[Hl Hdr]|[[Hl [Ht Hdr]]|[Hl [Ht Hdr]]]].
    + assert (is_trail_surrogate d = false) as ->; [|reflexivity].
      unfold is_trail_surrogate. destruct (Z.leb_spec 56320 d); [lia|reflexivity].
    + rewrite Ht. cbn [strip_bom]. rewrite Bits.shiftl_10.
      destruct (Z.eqb_spec (65536 + (c - 55296) * 1024 + (d - 56320)) 65279);
        [lia|reflexivity].
    + rewrite Ht. reflexivity.
  - reflexivity.
  - cbn [strip_bom]. destruct (Z.eqb_spec c 65279); [contradiction|reflexivity].
Qed.

(** C1 (amended): for every non-empty text without unpaired surrogates that
    does not begin with U+FEFF, the encoder yields a token, and decoding the
    location that carries this token returns the text. *)
Theorem decode_encode_text l t :
  wf_string t -> well_paired t = true -> t <> [] -> hd 0 t <> 65279 ->
  exists token,
    App.encodeShaderForUrl t = Ok token /\
    App.getShaderFromUrl (with_fragment l token) = Some t.
Proof.
  intros Hwf Hp Ht Hbom.
  destruct (decode_encode_general l t Hwf Ht) as [token [He Hd]].
  exists token. split; [exact He|].
  rewrite Hd, strip_bom_no_bom, of_to_code_points by assumption. reflexivity.
Qed.

(** A boolean check of the code-unit range. *)
Lemma wf_string_check s :
  forallb (fun c => (0 <=? c) && (c <? 65536)) s = true -> wf_string s.
Proof.
  intros H. apply Forall_forall. intros c Hin.
  rewrite forallb_forall in H. specialize (H c Hin).
  apply andb_prop in H. destruct H as [H1 H2].
  apply Z.leb_le in H1. apply Z.ltb_lt in H2. unfold is_code_unit. lia.
Qed.

Lemma decode_encode_text_witness :
  let t := of_string "void main() { rgba = vec4(1.0); }" ++ [233; 55357; 56832] in
  wf_string t /\ well_paired t = true /\ t <> [] /\ hd 0 t <> 65279 /\
  exists token,
    App.encodeShaderForUrl t = Ok token /\
    App.getShaderFromUrl (with_fragment example_location token) = Some t.
Proof.
  intros t.
  assert (Hwf : wf_string t) by (apply wf_string_check; reflexivity).
  assert (Hp : well_paired t = true) by reflexivity.
  assert (Hne : t <> []) by discriminate.
  assert (Hbom : hd 0 t <> 65279) by discriminate.
  repeat split; try assumption.
  exact (decode_encode_text example_location t Hwf Hp Hne Hbom).
Defined.

(** C1 as stated fails at three texts: the empty text decodes to null, a
    leading U+FEFF is lost, an unpaired surrogate comes back as U+FFFD. *)
Lemma decode_encode_counterexample :
  (App.encodeShaderForUrl [] = Ok [] /\
   App.getShaderFromUrl (with_fragment example_location []) = None) /\
  (App.encodeShaderForUrl [65279; 97] = Ok (of_string "77u_YQ==") /\
   App.getShaderFromUrl (with_fragment example_location (of_string "77u_YQ=="))
     = Some [97]) /\
  (App.encodeShaderForUrl [55296] = Ok (of_string "77-9") /\
   App.getShaderFromUrl (with_fragment example_location (of_string "77-9"))
     = Some [65533]) /\
  ~ (forall t, wf_string t ->
       exists token,
         App.encodeShaderForUrl t = Ok token /\
         App.getShaderFromUrl (with_fragment example_location token) = Some t).
Proof.
  split; [|split; [|split]]; try (split; vm_compute; reflexivity).
  intros H. destruct (H [] (Forall_nil _)) as [token [He Hd]].
  vm_compute in He. injection He as <-. vm_compute in Hd. discriminate.
Qed.

(** The decoder looks at the fragment only. *)
Lemma getShaderFromUrl_fragment l :
  App.getShaderFromUrl l =
    match fragment l with
    | [] => None
    | token =>
        match atob (replace_all App.UNDERSCORE App.SLASH
                      (replace_all App.MINUS App.PLUS token)) with
        | Ok binary => Some (TextDecoder_decode (map byte_of_Z binary))
        | Throw _ => None
        end
    end.
Proof.
  destruct l as [o p q f]. destruct f as [|c token]; [reflexivity|].
  apply (getShaderFromUrl_token
           {| origin := o; pathname := p; search := q; fragment := [] |}).
Qed.

Lemma sextets_bad data c :
  In c data -> dec_char c = None -> sextets data = None.
Proof.
  induction data as [|x data IH]; intros Hin Hc; [contradiction|].
  cbn [sextets]. destruct Hin as [->|Hin].
  - rewrite Hc. reflexivity.
  - rewrite (IH Hin Hc). destruct (dec_char x); reflexivity.
Qed.

Lemma strip_padding_keeps (data : jsstring) c :
  In c data -> c <> pad -> In c (strip_padding data).
Proof.
  intros Hin Hc. unfold strip_padding.
  destruct (len data mod 4 =? 0); [|exact Hin].
  assert (Hrev : In c (rev data)) by (apply in_rev; rewrite rev_involutive; exact Hin).
  destruct (rev data) as [|c1 [|c2 r]] eqn:E; [exact Hin| |].
  - destruct (Z.eqb_spec c1 pad); [|exact Hin].
    destruct Hrev as [->|[]]. contradiction.
  - destruct (Z.eqb_spec c1 pad) as [->|]; [|exact Hin].
    destruct Hrev as [<-|Hrev]; [contradiction|].
    destruct (Z.eqb_spec c2 pad) as [->|].
    + destruct Hrev as [<-|Hrev]; [contradiction|].
      apply in_rev. rewrite rev_involutive. exact Hrev.
    + apply in_rev. rewrite rev_involutive. exact Hrev.
Qed.

(** One character outside the accepted ones makes [atob] throw. *)
Lemma atob_bad_char token c :
  In c token -> App.accepted_char c = false ->
  atob (replace_all App.UNDERSCORE App.SLASH
          (replace_all App.MINUS App.PLUS token)) = Throw InvalidCharacterError.
Proof.
  intros Hin Hc. unfold App.accepted_char in Hc.
  destruct (dec_char c) eqn:Hd; [discriminate|].
  apply orb_false_elim in Hc. destruct Hc as [Hc Hws].
  apply orb_false_elim in Hc. destruct Hc as [Hc Hpad].
  apply orb_false_elim in Hc. destruct Hc as [Hm Hu].
  apply Z.eqb_neq in Hm, Hu, Hpad.
  assert (Hin' : In c (replace_all App.UNDERSCORE App.SLASH
                         (replace_all App.MINUS App.PLUS token))).
  { unfold replace_all. rewrite map_map. apply in_map_iff. exists c.
    split; [|exact Hin].
    destruct (Z.eqb_spec c App.MINUS); [contradiction|].
    destruct (Z.eqb_spec c App.UNDERSCORE); [contradiction|reflexivity]. }
  unfold atob, forgiving_base64_decode.
  set (data := strip_padding _).
  assert (Hdata : In c data).
  { apply strip_padding_keeps; [|exact Hpad].
    unfold remove_whitespace. apply filter_In. split; [exact Hin'|].
    rewrite Hws. reflexivity. }
  destruct (len data mod 4 =? 1); [reflexivity|].
  rewrite (sextets_bad data c Hdata Hd). reflexivity.
Qed.

(** C5 (amended): the decoder yields null for an empty fragment, for a
    fragment with a character outside both base64 alphabets, the padding
    and ASCII whitespace, and whenever [atob] throws; the exception is
    caught.  (A token over the standard alphabet is accepted.) *)
Theorem decode_malformed l :
  fragment l = [] \/
  (exists c, In c (fragment l) /\ App.accepted_char c = false) \/
  (exists e, atob (replace_all App.UNDERSCORE App.SLASH
                     (replace_all App.MINUS App.PLUS (fragment l))) = Throw e) ->
  App.getShaderFromUrl l = None.
Proof.
  intros H. rewrite getShaderFromUrl_fragment.
  destruct (fragment l) as [|c0 token] eqn:Ef; [reflexivity|].
  destruct H as [H|[[c [Hin Hc]]|[e He]]]; [discriminate| |].
  - rewrite (atob_bad_char _ c Hin Hc). reflexivity.
  - rewrite He. reflexivity.
Qed.

Lemma decode_malformed_witness :
  let l := with_fragment example_location (of_string "not base64!") in
  (fragment l = [] \/
   (exists c, In c (fragment l) /\ App.accepted_char c = false) \/
   (exists e, atob (replace_all App.UNDERSCORE App.SLASH
                      (replace_all App.MINUS App.PLUS (fragment l))) = Throw e)) /\
  App.getShaderFromUrl l = None.
Proof.
  intros l.
  assert (H : fragment l = [] \/
     (exists c, In c (fragment l) /\ App.accepted_char c = false) \/
     (exists e, atob (replace_all App.UNDERSCORE App.SLASH
                        (replace_all App.MINUS App.PLUS (fragment l))) = Throw e)).
  { right. left. exists 33. split; [|reflexivity].
    cbn. repeat (try (left; reflexivity); right). }
  split; [exact H|]. exact (decode_malformed l H).
Defined.

(** C5 as stated fails: a token with [/], which is not in the base64url
    alphabet, decodes to a text. *)
Lemma decode_malformed_counterexample :
  App.well_formed_base64url (of_string "Pz8/") = false /\
  App.getShaderFromUrl (with_fragment example_location (of_string "Pz8/"))
    = Some (of_string "???") /\
  ~ (forall l, App.well_formed_base64url (fragment l) = false ->
       App.getShaderFromUrl l = None).
Proof.
  split; [vm_compute; reflexivity|]. split; [vm_compute; reflexivity|].
  intros H.
  specialize (H (with_fragment example_location (of_string "Pz8/")) eq_refl).
  vm_compute in H. discriminate.
Qed.

Lemma not_utf8_255 : ~ utf8_valid [255].
Proof.
  intros [cps [Hs He]]. destruct Hs as [|cp cps Hcp _]; [discriminate|].
  unfold utf8_encode in He. cbn [flat_map] in He.
  rewrite utf8_encode_cp_arith in He. unfold is_scalar in Hcp.
  destruct (Z.leb_spec cp 127); [|destruct (Z.leb_spec cp 2047);
    [|destruct (Z.leb_spec cp 65535)]];
  cbn [app] in He; injection He as He _; lia.
Qed.

(** C10: a non-empty token that is well-formed base64 after the
    substitution and whose bytes are not UTF-8 decodes to a text, with
    U+FFFD in place of the ill-formed sequence; and the decoder yields null
    exactly when the fragment is empty or [atob] throws. *)
Theorem decode_replaces_ill_formed :
  (exists token binary,
     token <> [] /\
     atob (replace_all App.UNDERSCORE App.SLASH
             (replace_all App.MINUS App.PLUS token)) = Ok binary /\
     ~ utf8_valid binary /\
     App.getShaderFromUrl (with_fragment example_location token)
       = Some [65533]) /\
  (forall l,
     App.getShaderFromUrl l = None <->
     (fragment l = [] \/
      exists e, atob (replace_all App.UNDERSCORE App.SLASH
                        (replace_all App.MINUS App.PLUS (fragment l))) = Throw e)).
Proof.
  split.
  - exists (of_string "_w=="), [255].
    split; [discriminate|]. split; [reflexivity|].
    split; [exact not_utf8_255|]. vm_compute. reflexivity.
  - intros l. rewrite getShaderFromUrl_fragment.
    destruct (fragment l) as [|c token]; [split; auto|].
    destruct (atob _) as [binary|e].
    + split; [discriminate|]. intros [H|[e H]]; discriminate.
    + split; [|reflexivity]. intros _. right. exists e. reflexivity.
Qed.

End CodecFacts.

(** ** JavaScript strings: searching, slicing, trimming *)

Module StringFacts.
Import JS.

Lemma starts_with_app pat r : starts_with pat (pat ++ r) = true.
Proof.
  induction pat as [|p pat IH]; [reflexivity|].
  cbn [app starts_with]. rewrite Z.eqb_refl, IH. reflexivity.
Qed.

Lemma starts_with_split pat s :
  starts_with pat s = true -> exists r, s = pat ++ r.
Proof.
  revert s. induction pat as [|p pat IH]; intros s H.
  - exists s. reflexivity.
  - destruct s as [|c s]; [discriminate|]. cbn [starts_with] in H.
    apply andb_prop in H. destruct H as [Hp Hs]. apply Z.eqb_eq in Hp.
    destruct (IH s Hs) as [r ->]. exists r. subst c. reflexivity.
Qed.

Lemma starts_with_ext pat a b :
  starts_with pat a = true -> starts_with pat (a ++ b) = true.
Proof.
  intros H. destruct (starts_with_split pat a H) as [r ->].
  rewrite <- app_assoc. apply starts_with_app.
Qed.

(** A match that runs over a character the pattern does not have. *)
Lemma starts_with_cut pat a x b :
  starts_with pat (a ++ x :: b) = true ->
  starts_with pat a = true \/ In x pat.
Proof.
  revert a. induction pat as [|p pat IH]; intros a H; [left; reflexivity|].
  destruct a as [|c a]; cbn [app starts_with] in H;
    apply andb_prop in H; destruct H as [Hp Hs]; apply Z.eqb_eq in Hp.
  - right. left. exact Hp.
  - destruct (IH a Hs) as [Ha|Hin].
    + left. cbn [starts_with]. rewrite Ha. subst c. rewrite Z.eqb_refl. reflexivity.
    + right. right. exact Hin.
Qed.

Lemma occurrences_app_ge a pat b : (1 <= occurrences (a ++ pat ++ b) pat)%nat.
Proof.
  induction a as [|c a IH].
  - cbn [app]. destruct pat as [|p pat]; [destruct b; cbn; lia|].
    cbn [app occurrences].
    change (p :: pat ++ b) with ((p :: pat) ++ b). rewrite starts_with_app. lia.
  - cbn [app occurrences]. lia.
Qed.

Lemma occurrences_suffix a b pat :
  (occurrences b pat <= occurrences (a ++ b) pat)%nat.
Proof.
  induction a as [|c a IH]; [cbn [app]; lia|]. cbn [app occurrences]. lia.
Qed.

Lemma occurrences_prefix b c pat :
  occurrences (b ++ c) pat = 0%nat -> occurrences b pat = 0%nat.
Proof.
  induction b as [|x b IH]; intros H.
  - cbn [occurrences]. destruct (starts_with pat []) eqn:E; [|reflexivity].
    apply starts_with_ext with (b := c) in E. cbn [app] in E, H.
    destruct c; cbn [occurrences] in H; rewrite E in H; lia.
  - cbn [app occurrences] in *.
    destruct (starts_with pat (x :: b ++ c)) eqn:E; [lia|].
    destruct (starts_with pat (x :: b)) eqn:E'.
    + apply starts_with_ext with (b := c) in E'. cbn [app] in E'. congruence.
    + apply IH. lia.
Qed.

Lemma occurrences_middle a b c pat :
  occurrences (a ++ b ++ c) pat = 0%nat -> occurrences b pat = 0%nat.
Proof.
  intros H. apply occurrences_prefix with (c := c).
  pose proof (occurrences_suffix a (b ++ c) pat). lia.
Qed.

Lemma occurrences_zero_head s pat :
  occurrences s pat = 0%nat -> starts_with pat s = false.
Proof.
  destruct s; cbn [occurrences]; destruct (starts_with pat _); lia || reflexivity.
Qed.

(** [indexOf] without an occurrence. *)
Lemma indexOf_none s pat i :
  occurrences s pat = 0%nat -> indexOf_from s pat i = -1.
Proof.
  revert i. induction s as [|c s IH]; intros i H;
    pose proof (occurrences_zero_head _ _ H) as Hh;
    cbn [indexOf_from]; rewrite Hh; [reflexivity|].
  apply IH. cbn [occurrences] in H. lia.
Qed.

(** [indexOf] with a single occurrence. *)
Lemma indexOf_single before pat after i :
  occurrences (before ++ pat ++ after) pat = 1%nat ->
  indexOf_from (before ++ pat ++ after) pat i = i + len before.
Proof.
  revert i. induction before as [|c before IH]; intros i H.
  - cbn [app]. change (len []) with 0.
    destruct (pat ++ after) eqn:E; cbn [indexOf_from]; rewrite <- E;
      rewrite starts_with_app; lia.
  - cbn [app] in *. cbn [indexOf_from occurrences] in *.
    pose proof (occurrences_app_ge before pat after) as Hge.
    destruct (starts_with pat (c :: before ++ pat ++ after)); [lia|].
    rewrite IH by lia. unfold len. cbn [List.length]. lia.
Qed.

(** The first occurrence, when there is one. *)
Lemma indexOf_first s pat i :
  indexOf_from s pat i <> -1 -> 0 <= i -> pat <> [] ->
  exists before after,
    s = before ++ pat ++ after /\
    indexOf_from s pat i = i + len before /\
    occurrences before pat = 0%nat.
Proof.
  intros H Hi Hpat. revert i Hi H.
  induction s as [|c s IH]; intros i Hi H; cbn [indexOf_from] in *.
  - destruct (starts_with pat []) eqn:E; [|congruence].
    destruct pat; [congruence|discriminate].
  - destruct (starts_with pat (c :: s)) eqn:E.
    + destruct (starts_with_split _ _ E) as [r Hr].
      exists [], r. split; [exact Hr|]. split; [change (len []) with 0; lia|].
      destruct pat; [congruence|reflexivity].
    + destruct (IH (i + 1) ltac:(lia) H) as [before [after [Hs [Hidx Hocc]]]].
      exists (c :: before), after. split; [rewrite Hs; reflexivity|].
      split; [rewrite Hidx; unfold len; cbn [List.length]; lia|].
      cbn [occurrences]. rewrite Hocc.
      destruct (starts_with pat (c :: before)) eqn:E'; [|reflexivity].
      apply starts_with_ext with (b := pat ++ after) in E'.
      cbn [app] in E'. rewrite <- Hs in E'. congruence.
Qed.

(** [indexOf] behind a text without occurrence and two characters that the
    pattern does not have. *)
Lemma indexOf_after_delimiter s pat x rest i :
  occurrences s pat = 0%nat -> ~ In x pat -> pat <> [] ->
  indexOf_from (s ++ [x; x] ++ pat ++ rest) pat i = i + len s + 2.
Proof.
  intros Hocc Hx Hpat. revert i.
  induction s as [|c s IH]; intros i.
  - change (len []) with 0. cbn [app indexOf_from].
    destruct (starts_with pat (x :: x :: pat ++ rest)) eqn:E1.
    { apply (starts_with_cut pat [] x) in E1. destruct E1 as [E1|E1];
        [destruct pat; [congruence|discriminate]|contradiction]. }
    destruct (starts_with pat (x :: pat ++ rest)) eqn:E2.
    { apply (starts_with_cut pat [] x) in E2. destruct E2 as [E2|E2];
        [destruct pat; [congruence|discriminate]|contradiction]. }
    destruct (pat ++ rest) eqn:E; cbn [indexOf_from]; rewrite <- E;
      rewrite starts_with_app; lia.
  - cbn [app indexOf_from].
    destruct (starts_with pat (c :: s ++ x :: x :: pat ++ rest)) eqn:E.
    { apply (starts_with_cut pat (c :: s) x) in E. destruct E as [E|E];
        [|contradiction].
      cbn [occurrences] in Hocc. rewrite E in Hocc. lia. }
    cbn [app] in IH. rewrite IH.
    + unfold len. cbn [List.length]. lia.
    + cbn [occurrences] in Hocc. lia.
Qed.

Lemma firstn_length_app (A : Type) (a b : list A) :
  firstn (List.length a) (a ++ b) = a.
Proof. induction a as [|x a IH]; [reflexivity|]. cbn. rewrite IH. reflexivity. Qed.

Lemma skipn_length_app (A : Type) (a b : list A) :
  skipn (List.length a) (a ++ b) = b.
Proof. induction a as [|x a IH]; [reflexivity|]. cbn. exact IH. Qed.

Lemma len_nonneg (s : jsstring) : 0 <= len s.
Proof. unfold len. lia. Qed.

Lemma len_append (a b : jsstring) : len (a ++ b) = len a + len b.
Proof. unfold len. rewrite length_app. lia. Qed.

(** [s.slice(0, idx)] is what stands before [idx]. *)
Lemma slice_prefix (a b : jsstring) : slice (a ++ b) 0 (len a) = a.
Proof.
  unfold slice, clamp_index. rewrite len_append.
  pose proof (len_nonneg a). pose proof (len_nonneg b).
  change (0 <? 0) with false. cbv iota.
  destruct (Z.ltb_spec (len a) 0); [lia|].
  replace (Z.min 0 (len a + len b)) with 0 by lia.
  replace (Z.min (len a) (len a + len b)) with (len a) by lia.
  change (Z.to_nat 0) with 0%nat. cbn [skipn].
  replace (Z.to_nat (Z.max (len a - 0) 0)) with (List.length a)
    by (unfold len; lia).
  apply firstn_length_app.
Qed.

(** [s.slice(idx)] is what stands from [idx] on. *)
Lemma slice_from_suffix (a b : jsstring) : slice_from (a ++ b) (len a) = b.
Proof.
  unfold slice_from, slice, clamp_index. rewrite len_append.
  pose proof (len_nonneg a). pose proof (len_nonneg b).
  destruct (Z.ltb_spec (len a) 0); [lia|].
  destruct (Z.ltb_spec (len a + len b) 0); [lia|].
  replace (Z.min (len a) (len a + len b)) with (len a) by lia.
  replace (Z.min (len a + len b) (len a + len b)) with (len a + len b) by lia.
  replace (Z.to_nat (len a)) with (List.length a) by (unfold len; lia).
  rewrite skipn_length_app.
  replace (Z.to_nat (Z.max (len a + len b - len a) 0)) with (List.length b)
    by (unfold len; lia).
  apply firstn_all.
Qed.

Lemma trim_start_white w s : all_white w -> trim_start (w ++ s) = trim_start s.
Proof.
  induction 1 as [|c w Hc _ IH]; [reflexivity|].
  cbn [app trim_start]. rewrite Hc. exact IH.
Qed.

Lemma trim_start_split s : exists w, all_white w /\ s = w ++ trim_start s.
Proof.
  induction s as [|c s [w [Hw Hs]]].
  - exists []. split; [constructor|reflexivity].
  - cbn [trim_start]. destruct (is_white_space c) eqn:E.
    + exists (c :: w). split; [constructor; assumption|].
      cbn [app]. f_equal. exact Hs.
    + exists []. split; [constructor|reflexivity].
Qed.

Lemma trim_start_head s :
  trim_start s = [] \/
  exists c r, trim_start s = c :: r /\ is_white_space c = false.
Proof.
  induction s as [|c s IH]; [left; reflexivity|].
  cbn [trim_start]. destruct (is_white_space c) eqn:E; [exact IH|].
  right. exists c, s. split; [reflexivity|exact E].
Qed.

Lemma trim_start_keep c r : is_white_space c = false -> trim_start (c :: r) = c :: r.
Proof. intros H. cbn [trim_start]. rewrite H. reflexivity. Qed.

Lemma trim_start_idem s : trim_start (trim_start s) = trim_start s.
Proof.
  destruct (trim_start_head s) as [->|[c [r [-> Hc]]]]; [reflexivity|].
  apply trim_start_keep. exact Hc.
Qed.

Lemma trim_start_app s b :
  trim_start s <> [] -> trim_start (s ++ b) = trim_start s ++ b.
Proof.
  induction s as [|c s IH]; [cbn; congruence|].
  cbn [app trim_start]. destruct (is_white_space c); [exact IH|reflexivity].
Qed.

Lemma trim_start_nil s : trim_start s = [] -> all_white s.
Proof.
  induction s as [|c s IH]; [constructor|].
  cbn [trim_start]. destruct (is_white_space c) eqn:E; [|discriminate].
  intros H. constructor; [exact E|apply IH; exact H].
Qed.

Lemma trim_start_all_white w : all_white w -> trim_start w = [].
Proof.
  intros H. rewrite <- (app_nil_r w). rewrite trim_start_white by exact H.
  reflexivity.
Qed.

Lemma all_white_rev w : all_white w -> all_white (rev w).
Proof. unfold all_white. apply Forall_rev. Qed.

Lemma all_white_app a b : all_white a -> all_white b -> all_white (a ++ b).
Proof. unfold all_white. intros. apply Forall_app. split; assumption. Qed.

Lemma trim_end_white s w : all_white w -> trim_end (s ++ w) = trim_end s.
Proof.
  intros H. unfold trim_end. rewrite rev_app_distr.
  rewrite trim_start_white by (apply all_white_rev; exact H). reflexivity.
Qed.

Lemma trim_end_split s : exists w, all_white w /\ s = trim_end s ++ w.
Proof.
  destruct (trim_start_split (rev s)) as [w [Hw Hs]].
  exists (rev w). split; [apply all_white_rev; exact Hw|].
  unfold trim_end. rewrite <- rev_app_distr, <- Hs, rev_involutive. reflexivity.
Qed.

Lemma trim_end_idem s : trim_end (trim_end s) = trim_end s.
Proof. unfold trim_end. rewrite rev_involutive, trim_start_idem. reflexivity. Qed.

Lemma trim_start_snoc y c :
  is_white_space c = false -> trim_start (y ++ [c]) = trim_start y ++ [c].
Proof.
  intros Hc. induction y as [|d y IH]; cbn [app trim_start].
  - rewrite Hc. reflexivity.
  - destruct (is_white_space d); [exact IH|reflexivity].
Qed.

(** Trimming the end keeps a first character that is not white space. *)
Lemma trim_start_trim_end s :
  trim_start (trim_end (trim_start s)) = trim_end (trim_start s).
Proof.
  destruct (trim_start_head s) as [->|[c [r [-> Hc]]]]; [reflexivity|].
  unfold trim_end. cbn [rev]. rewrite trim_start_snoc by exact Hc.
  rewrite rev_app_distr. cbn [rev app]. apply trim_start_keep. exact Hc.
Qed.

Lemma trim_idem s : trim (trim s) = trim s.
Proof. unfold trim. rewrite trim_start_trim_end. apply trim_end_idem. Qed.

Lemma trim_white_l w s : all_white w -> trim (w ++ s) = trim s.
Proof. intros H. unfold trim. rewrite trim_start_white by exact H. reflexivity. Qed.

Lemma trim_white_r s w : all_white w -> trim (s ++ w) = trim s.
Proof.
  intros H. unfold trim. destruct (trim_start s) as [|c r] eqn:E.
  - rewrite trim_start_all_white; [reflexivity|].
    apply all_white_app; [apply trim_start_nil; exact E|exact H].
  - rewrite trim_start_app by congruence. rewrite E.
    apply trim_end_white. exact H.
Qed.

(** A text is its trimmed form between white space. *)
Lemma trim_split s :
  exists w1 w2, all_white w1 /\ all_white w2 /\ s = w1 ++ trim s ++ w2.
Proof.
  destruct (trim_start_split s) as [w1 [H1 Hs]].
  destruct (trim_end_split (trim_start s)) as [w2 [H2 Ht]].
  exists w1, w2. split; [exact H1|]. split; [exact H2|].
  unfold trim. rewrite <- Ht. exact Hs.
Qed.

Lemma last_hd_rev (r : jsstring) d : last r d = hd d (rev r).
Proof.
  induction r as [|x r _] using rev_ind; [reflexivity|].
  rewrite last_last, rev_app_distr. reflexivity.
Qed.

Lemma trim_start_fixed_head x :
  trim_start x = x -> is_white_space (hd 0 x) = false.
Proof.
  intros H. destruct (trim_start_head x) as [E|[c [r [E Hc]]]];
    rewrite H in E; subst x; [reflexivity|exact Hc].
Qed.

(** What [trim] returns has no white space at its ends. *)
Lemma trim_no_white_ends s : Derived.no_white_ends (trim s).
Proof.
  split.
  - apply trim_start_fixed_head. unfold trim. apply trim_start_trim_end.
  - rewrite last_hd_rev. apply trim_start_fixed_head.
    pose proof (trim_end_idem (trim_start s)) as H. fold (trim s) in H.
    unfold trim_end in H at 1. apply (f_equal (@rev Z)) in H.
    rewrite rev_involutive in H. exact H.
Qed.

(** [trim] takes white space off both ends, and nothing else. *)
Lemma trim_spec s : Derived.trimmed_of s (trim s).
Proof.
  split; [apply trim_no_white_ends|].
  destruct (trim_split s) as [w1 [w2 [H1 [H2 Hs]]]]. exists w1, w2. auto.
Qed.

Lemma trim_start_keep_head x :
  is_white_space (hd 0 x) = false -> trim_start x = x.
Proof.
  destruct x as [|c r]; [reflexivity|]. cbn [hd]. apply trim_start_keep.
Qed.

(** The characterisation has one solution only. *)
Lemma trimmed_of_unique s r : Derived.trimmed_of s r -> r = trim s.
Proof.
  intros [[Hh Hl] [w1 [w2 [H1 [H2 ->]]]]].
  rewrite trim_white_l by exact H1. rewrite trim_white_r by exact H2.
  unfold trim, trim_end. rewrite (trim_start_keep_head r Hh).
  rewrite trim_start_keep_head by (rewrite <- last_hd_rev; exact Hl).
  symmetry. apply rev_involutive.
Qed.

Lemma occurrences_trim s pat :
  occurrences s pat = 0%nat -> occurrences (trim s) pat = 0%nat.
Proof.
  intros H. destruct (trim_split s) as [w1 [w2 [_ [_ Hs]]]].
  rewrite Hs in H. exact (occurrences_middle _ _ _ _ H).
Qed.

End StringFacts.

(** ** The shader splitter *)

Module SplitterFacts.
Import JS StringFacts.
Module CSE := CustomShaderExtension.

Lemma marker_nonempty : App.INJECTION_MARKER <> [].
Proof. discriminate. Qed.

Lemma marker_one_line : ~ In App.LF App.INJECTION_MARKER.
Proof.
  intros H.
  assert (E : existsb (Z.eqb App.LF) App.INJECTION_MARKER = true).
  { apply existsb_exists. exists App.LF. split; [exact H|apply Z.eqb_refl]. }
  vm_compute in E. discriminate.
Qed.

Lemma indexOf_lower s pat i :
  indexOf_from s pat i = -1 \/ i <= indexOf_from s pat i.
Proof.
  revert i. induction s as [|c s IH]; intros i; cbn [indexOf_from];
    destruct (starts_with pat _); try (right; lia); [left; reflexivity|].
  destruct (IH (i + 1)) as [H|H]; [left; exact H|right; lia].
Qed.

Lemma indexOf_absent s pat i :
  indexOf_from s pat i = -1 -> 0 <= i -> occurrences s pat = 0%nat.
Proof.
  revert i. induction s as [|c s IH]; intros i H Hi;
    cbn [indexOf_from occurrences] in *;
    destruct (starts_with pat _); try lia.
  rewrite (IH (i + 1) H ltac:(lia)). reflexivity.
Qed.

(** The split at a position that [indexOf] returns. *)
Lemma parseShader_at t before after :
  t = before ++ App.INJECTION_MARKER ++ after ->
  indexOf t App.INJECTION_MARKER = len before ->
  App.parseShader t =
    {| App.fragmentShader := trim before; App.mutateColorCode := trim after |}.
Proof.
  intros Ht Hidx. unfold App.parseShader. rewrite Hidx.
  pose proof (len_nonneg before).
  destruct (Z.eqb_spec (len before) (-1)); [lia|].
  f_equal.
  - rewrite Ht, slice_prefix. reflexivity.
  - rewrite Ht, app_assoc, <- len_append, slice_from_suffix. reflexivity.
Qed.

Lemma parseShader_absent t :
  occurrences t App.INJECTION_MARKER = 0%nat ->
  App.parseShader t =
    {| App.fragmentShader := trim t;
       App.mutateColorCode := CSE.defaultMutateColorCode |}.
Proof.
  intros H. unfold App.parseShader, indexOf.
  rewrite (indexOf_none _ _ 0 H). reflexivity.
Qed.

(** C2: with exactly one marker, the parts are the texts before and after
    it with the white space at their ends taken off (nothing else is
    removed, and no white space is left at an end); without a marker, the
    template is the whole text trimmed in this way and the injection is
    the default snippet.  ([parseShader] is a total function.) *)
Theorem parseShader_spec t before after :
  (t = before ++ App.INJECTION_MARKER ++ after ->
   occurrences t App.INJECTION_MARKER = 1%nat ->
   App.parseShader t =
     {| App.fragmentShader := trim before;
        App.mutateColorCode := trim after |} /\
   Derived.trimmed_of before (App.fragmentShader (App.parseShader t)) /\
   Derived.trimmed_of after (App.mutateColorCode (App.parseShader t))) /\
  (occurrences t App.INJECTION_MARKER = 0%nat ->
   App.parseShader t =
     {| App.fragmentShader := trim t;
        App.mutateColorCode := CSE.defaultMutateColorCode |} /\
   Derived.trimmed_of t (App.fragmentShader (App.parseShader t)) /\
   App.mutateColorCode (App.parseShader t) = CSE.DECKGL_MUTATE_COLOR).
Proof.
  split.
  - intros Ht Hocc.
    assert (E : App.parseShader t =
                {| App.fragmentShader := trim before;
                   App.mutateColorCode := trim after |}).
    { apply parseShader_at; [exact Ht|].
      unfold indexOf. rewrite Ht in Hocc |- *.
      rewrite (indexOf_single _ _ _ 0 Hocc). lia. }
    rewrite E. cbn [App.fragmentShader App.mutateColorCode].
    split; [reflexivity|]. split; apply trim_spec.
  - intros Hocc. rewrite (parseShader_absent t Hocc).
    cbn [App.fragmentShader App.mutateColorCode].
    split; [reflexivity|]. split; [apply trim_spec|reflexivity].
Qed.

Lemma parseShader_spec_witness :
  let before := of_string "  uniform vec3 x; void mutate_color(){}  " in
  let after := of_string " rgba = vec4(1.0); " in
  let t := before ++ App.INJECTION_MARKER ++ after in
  let u := of_string " void main() {} " in
  (t = before ++ App.INJECTION_MARKER ++ after /\
   occurrences t App.INJECTION_MARKER = 1%nat /\
   (App.parseShader t =
      {| App.fragmentShader := trim before;
         App.mutateColorCode := trim after |} /\
    Derived.trimmed_of before (App.fragmentShader (App.parseShader t)) /\
    Derived.trimmed_of after (App.mutateColorCode (App.parseShader t))) /\
   App.parseShader t =
     {| App.fragmentShader := of_string "uniform vec3 x; void mutate_color(){}";
        App.mutateColorCode := of_string "rgba = vec4(1.0);" |}) /\
  (occurrences u App.INJECTION_MARKER = 0%nat /\
   (App.parseShader u =
      {| App.fragmentShader := trim u;
         App.mutateColorCode := CSE.defaultMutateColorCode |} /\
    Derived.trimmed_of u (App.fragmentShader (App.parseShader u)) /\
    App.mutateColorCode (App.parseShader u) = CSE.DECKGL_MUTATE_COLOR) /\
   App.fragmentShader (App.parseShader u) = of_string "void main() {}").
Proof.
  intros before after t u.
  assert (H1 : occurrences t App.INJECTION_MARKER = 1%nat) by reflexivity.
  assert (H0 : occurrences u App.INJECTION_MARKER = 0%nat) by reflexivity.
  split.
  - split; [reflexivity|]. split; [exact H1|].
    split; [exact (proj1 (parseShader_spec t before after) eq_refl H1)|].
    vm_compute. reflexivity.
  - split; [exact H0|].
    split; [exact (proj2 (parseShader_spec u [] []) H0)|].
    vm_compute. reflexivity.
Defined.

Lemma indexOf_present s pat i :
  occurrences s pat <> 0%nat -> 0 <= i -> indexOf_from s pat i <> -1.
Proof.
  intros Hocc Hi H. apply Hocc. exact (indexOf_absent s pat i H Hi).
Qed.

(** What [parseShader] returns: a trimmed template without marker; and a
    trimmed injection when the text has a marker. *)
Lemma parseShader_parts t :
  let p := App.parseShader t in
  occurrences (App.fragmentShader p) App.INJECTION_MARKER = 0%nat /\
  trim (App.fragmentShader p) = App.fragmentShader p /\
  (occurrences t App.INJECTION_MARKER <> 0%nat ->
   trim (App.mutateColorCode p) = App.mutateColorCode p).
Proof.
  intros p. subst p.
  destruct (Z.eq_dec (indexOf t App.INJECTION_MARKER) (-1)) as [E|E].
  - pose proof (indexOf_absent _ _ 0 E ltac:(lia)) as Hocc.
    rewrite (parseShader_absent t Hocc). cbn [App.fragmentShader App.mutateColorCode].
    split; [apply occurrences_trim; exact Hocc|].
    split; [apply trim_idem|]. intros H. contradiction.
  - destruct (indexOf_first _ _ 0 E ltac:(lia) marker_nonempty)
      as [before [after [Ht [Hidx Hocc]]]].
    rewrite (parseShader_at t before after Ht) by (unfold indexOf; lia).
    cbn [App.fragmentShader App.mutateColorCode].
    split; [apply occurrences_trim; exact Hocc|].
    split; [apply trim_idem|]. intros _. apply trim_idem.
Qed.

Lemma white_LF : is_white_space App.LF = true.
Proof. reflexivity. Qed.

(** Splitting a joined program: the template comes back, the injection
    comes back trimmed. *)
Lemma parseShader_join_parts fs mc :
  occurrences fs App.INJECTION_MARKER = 0%nat ->
  App.parseShader (App.join {| App.fragmentShader := fs;
                               App.mutateColorCode := mc |}) =
    {| App.fragmentShader := trim fs; App.mutateColorCode := trim mc |}.
Proof.
  intros Hocc. unfold App.join. cbn [App.fragmentShader App.mutateColorCode].
  rewrite (parseShader_at _ (fs ++ [App.LF; App.LF]) ([App.LF] ++ mc)).
  - rewrite (trim_white_r fs [App.LF; App.LF]) by (repeat constructor).
    reflexivity.
  - rewrite <- app_assoc. reflexivity.
  - unfold indexOf.
    rewrite (indexOf_after_delimiter fs App.INJECTION_MARKER App.LF
               ([App.LF] ++ mc) 0 Hocc marker_one_line marker_nonempty).
    rewrite len_append. change (len [App.LF; App.LF]) with 2. lia.
Qed.

Lemma parseShader_join t :
  App.parseShader (App.join (App.parseShader t)) =
    {| App.fragmentShader := App.fragmentShader (App.parseShader t);
       App.mutateColorCode := trim (App.mutateColorCode (App.parseShader t)) |}.
Proof.
  destruct (parseShader_parts t) as [Hocc [Htrim _]].
  destruct (App.parseShader t) as [fs mc].
  cbn [App.fragmentShader App.mutateColorCode] in *.
  rewrite (parseShader_join_parts fs mc Hocc), Htrim. reflexivity.
Qed.

(** C3 (amended): for a program split from a text with a marker,
    splitting its joined form returns the program; for a program split
    from a text without marker, the template part comes back and the
    injection part is the default snippet trimmed. *)
Theorem split_join t :
  (occurrences t App.INJECTION_MARKER <> 0%nat ->
   App.parseShader (App.join (App.parseShader t)) = App.parseShader t) /\
  (occurrences t App.INJECTION_MARKER = 0%nat ->
   App.parseShader (App.join (App.parseShader t)) =
     {| App.fragmentShader := App.fragmentShader (App.parseShader t);
        App.mutateColorCode := trim CSE.defaultMutateColorCode |}).
Proof.
  rewrite parseShader_join. split; intros H.
  - destruct (parseShader_parts t) as [_ [_ Hmc]]. rewrite (Hmc H).
    destruct (App.parseShader t). reflexivity.
  - rewrite (parseShader_absent t H). reflexivity.
Qed.

Lemma split_join_witness :
  let t := of_string "uniform vec3 x; // Injection point: rgba = vec4(1.0);" in
  let u := of_string "void main() {}" in
  (occurrences t App.INJECTION_MARKER <> 0%nat /\
   App.parseShader (App.join (App.parseShader t)) = App.parseShader t) /\
  (occurrences u App.INJECTION_MARKER = 0%nat /\
   App.parseShader (App.join (App.parseShader u)) =
     {| App.fragmentShader := App.fragmentShader (App.parseShader u);
        App.mutateColorCode := trim CSE.defaultMutateColorCode |}).
Proof.
  intros t u.
  assert (H1 : occurrences t App.INJECTION_MARKER <> 0%nat) by discriminate.
  assert (H0 : occurrences u App.INJECTION_MARKER = 0%nat) by reflexivity.
  split.
  - split; [exact H1|]. exact (proj1 (split_join t) H1).
  - split; [exact H0|]. exact (proj2 (split_join u) H0).
Defined.

(** C3 as stated fails for a text without marker: the default injection
    snippet ends with a line feed, which the second split trims away. *)
Lemma split_join_counterexample :
  let p := App.parseShader (of_string "void main() {}") in
  App.parseShader (App.join p) <> p /\
  App.mutateColorCode p = CSE.DECKGL_MUTATE_COLOR /\
  App.mutateColorCode (App.parseShader (App.join p))
    = removelast CSE.DECKGL_MUTATE_COLOR /\
  ~ (forall t, App.parseShader (App.join (App.parseShader t))
               = App.parseShader t).
Proof.
  intros p.
  assert (Hne : App.parseShader (App.join p) <> p).
  { intros H. apply (f_equal App.mutateColorCode) in H.
    apply (f_equal (@List.length Z)) in H. vm_compute in H. discriminate. }
  split; [exact Hne|]. split; [reflexivity|]. split; [vm_compute; reflexivity|].
  intros H. apply Hne. apply H.
Qed.

(** The default document is the joined form of the default program. *)
Lemma default_document_joined :
  CSE.fragmentShader =
    App.join {| App.fragmentShader := CSE.fs;
                App.mutateColorCode := CSE.DECKGL_MUTATE_COLOR |}.
Proof. reflexivity. Qed.

End SplitterFacts.

(** ** The palette *)

Module PaletteFacts.
Module CSE := CustomShaderExtension.

Section WithPalette.
Variable default_palette : nat -> CSE.rgb.

Lemma pad_from_length i n mask colors :
  List.length (CSE.pad_from default_palette i n mask colors) = n.
Proof.
  revert i mask colors. induction n as [|n IH]; intros i mask colors;
    [reflexivity|].
  cbn [CSE.pad_from List.length]. rewrite IH. reflexivity.
Qed.

Lemma nth_tl (A : Type) (l : list A) (k : nat) (d : A) :
  nth k (tl l) d = nth (S k) l d.
Proof. destruct l; [destruct k; reflexivity|reflexivity]. Qed.

Lemma pad_from_nth n i mask colors k :
  (k < n)%nat ->
  nth k (CSE.pad_from default_palette i n mask colors) CSE.black =
    if nth k mask false then nth k colors (default_palette (i + k))
    else CSE.black.
Proof.
  revert i mask colors k. induction n as [|n IH]; intros i mask colors k Hk;
    [lia|].
  cbn [CSE.pad_from]. destruct k as [|k].
  - cbn [nth]. rewrite Nat.add_0_r.
    destruct mask as [|[|] mask]; [reflexivity| |reflexivity].
    destruct colors; reflexivity.
  - cbn [nth]. rewrite IH by lia. rewrite !nth_tl.
    replace (S i + k)%nat with (i + S k)%nat by lia.
    destruct (nth (S k) mask false); [|reflexivity].
    destruct colors as [|c colors]; [|reflexivity].
    destruct k; reflexivity.
Qed.

(** C4: for up to six supplied colors and any mask, [padColors] returns six
    triples; a visible position holds its supplied color, or the palette
    entry of its index when none is supplied; every other position is
    black. *)
Theorem padColors_spec mask colors :
  (List.length colors <= 6)%nat ->
  List.length (CSE.padColors default_palette mask colors) = 6%nat /\
  forall i, (i < 6)%nat ->
    nth i (CSE.padColors default_palette mask colors) CSE.black =
      if nth i mask false then nth i colors (default_palette i)
      else CSE.black.
Proof.
  intros _. unfold CSE.padColors, CSE.MAX_CHANNELS. split.
  - apply pad_from_length.
  - intros i Hi. rewrite pad_from_nth by exact Hi. reflexivity.
Qed.

(** [draw] always hands six triples to the shader. *)
Lemma draw_colors_length props :
  List.length (CSE.draw_colors default_palette props) = 6%nat.
Proof. unfold CSE.draw_colors, CSE.padColors. apply pad_from_length. Qed.

End WithPalette.

Lemma padColors_spec_witness :
  let palette := fun i => (Z.of_nat i, 255, 0) in
  let mask := [true; false; true] in
  let colors := [(10, 20, 30); (40, 50, 60)] in
  (List.length colors <= 6)%nat /\
  List.length (CSE.padColors palette mask colors) = 6%nat /\
  forall i, (i < 6)%nat ->
    nth i (CSE.padColors palette mask colors) CSE.black =
      if nth i mask false then nth i colors (palette i) else CSE.black.
Proof.
  intros palette mask colors.
  assert (H : (List.length colors <= 6)%nat) by (cbn; lia).
  split; [exact H|]. exact (padColors_spec palette mask colors H).
Defined.

(** Two colors for three visible channels: the third position takes the
    third palette entry, the rest is black. *)
Example padColors_two_of_three :
  CSE.padColors (fun i => (Z.of_nat i, 255, 0)) [true; true; true]
    [(10, 20, 30); (40, 50, 60)]
  = [(10, 20, 30); (40, 50, 60); (2, 255, 0); CSE.black; CSE.black; CSE.black].
Proof. reflexivity. Qed.

End PaletteFacts.

(** ** The page: compile, copy link, panes, start-up *)

Module PageFacts.
Import JS Browser Page.
Module CSE := CustomShaderExtension.

Section WithParser.
Variable parse : jsstring -> result unit.
Variable view : Type.
Variable initial_view : view.

Local Abbreviation Browser := (Page.Browser view).
Local Abbreviation AppState := (Page.AppState view).
Local Abbreviation step := (Page.step parse initial_view).
Local Abbreviation run := (Page.run parse initial_view).
Local Abbreviation act := (Page.act parse initial_view).
Local Abbreviation run_actions := (Page.run_actions parse initial_view).

(** The template part that [handleCompile] hands to the parser. *)
Local Abbreviation template a :=
  (App.fragmentShader (App.parseShader (shaderText a))).

Lemma handleCompile_rejected (b : Browser) (a : AppState) e :
  parse (template a) = Throw e ->
  handleCompile parse b a =
    set_document b (Running (set_compileError a (Some (message_of e)))).
Proof.
  intros H. unfold handleCompile. cbn [set_compileError shaderText].
  rewrite H. reflexivity.
Qed.

Lemma handleCompile_accepted (b : Browser) (a : AppState) u :
  parse (template a) = Ok u ->
  exists token,
    App.encodeShaderForUrl (shaderText a) = Ok token /\
    handleCompile parse b a =
      reload (set_location b (set_hash (location b) token)).
Proof.
  intros H. destruct (CodecFacts.encodeShaderForUrl_total (shaderText a))
    as [token Ht].
  exists token. split; [exact Ht|].
  unfold handleCompile. cbn [set_compileError shaderText].
  rewrite H. cbn [bind]. rewrite Ht. reflexivity.
Qed.

(** C6: when the template part fails the parse, the compile action puts the
    parser's message on display as it is (the [message] of a thrown
    [Error], the string form of any other thrown value) and leaves the
    location, the applied shader, the panes and the edit buffer as they
    are; and an event changes the location of a running page only if it is
    a compile action whose template part passes the parse. *)
Theorem compile_error_keeps_state (b : Browser) (a : AppState) :
  document b = Running a ->
  (forall e, parse (template a) = Throw e ->
     exists a',
       document (step b ClickCompile) = Running a' /\
       compileError a' = Some (message_of e) /\
       (forall m, e = ErrorObject m -> compileError a' = Some m) /\
       (forall name m, e = DOMException name m -> compileError a' = Some m) /\
       (forall shown, e = OtherValue shown -> compileError a' = Some shown) /\
       appliedShader a' = appliedShader a /\
       panes a' = panes a /\
       shaderText a' = shaderText a /\
       location (step b ClickCompile) = location b /\
       reloads (step b ClickCompile) = reloads b) /\
  (forall ev, location (step b ev) <> location b ->
     ev = ClickCompile /\ exists u, parse (template a) = Ok u).
Proof.
  intros Hdoc. split.
  - intros e He. unfold Page.step. rewrite Hdoc.
    rewrite (handleCompile_rejected b a e He).
    eexists. split; [reflexivity|]. cbn [compileError set_compileError].
    split; [reflexivity|].
    split; [intros m ->; reflexivity|].
    split; [intros name m ->; reflexivity|].
    split; [intros shown ->; reflexivity|].
    repeat split.
  - intros ev Hloc. unfold Page.step in Hloc. rewrite Hdoc in Hloc.
    destruct ev; cbn [set_document location] in Hloc; try congruence.
    + split; [reflexivity|].
      destruct (parse (template a)) as [u|e] eqn:E; [exists u; reflexivity|].
      rewrite (handleCompile_rejected b a e E) in Hloc.
      cbn [set_document location] in Hloc. congruence.
    + unfold handleCopyLink in Hloc.
      destruct (App.encodeShaderForUrl (shaderText a));
        cbn [location] in Hloc; congruence.
Qed.

(** C9, amended: on a running page, typing a text and then copying the
    link puts on the clipboard the address of the page (origin, path and
    query), a [#] and the token of the typed text; no compile action is
    involved, and neither the location nor the applied shader changes.
    When the typed text is not empty, has no unpaired surrogate and does
    not begin with U+FEFF, the fragment of the copied address decodes to
    it. *)
Theorem copy_link_encodes_edit (b : Browser) (a : AppState) t :
  document b = Running a ->
  exists token,
    App.encodeShaderForUrl t = Ok token /\
    clipboard (run b [Edit t; ClickCopyLink]) =
      Some (origin (location b) ++ pathname (location b)
              ++ search (location b) ++ [HASH] ++ token) /\
    location (run b [Edit t; ClickCopyLink]) = location b /\
    document (run b [Edit t; ClickCopyLink]) = Running (setShaderText a t) /\
    appliedShader (setShaderText a t) = appliedShader a /\
    (wf_string t -> Encoding.well_paired t = true -> t <> [] -> hd 0 t <> 65279 ->
     App.getShaderFromUrl (with_fragment (location b) token) = Some t).
Proof.
  intros Hdoc.
  destruct (CodecFacts.encodeShaderForUrl_total t) as [token Ht].
  exists token. split; [exact Ht|].
  assert (Hs : step b (Edit t) = set_document b (Running (setShaderText a t))).
  { unfold Page.step. rewrite Hdoc. reflexivity. }
  change (run b [Edit t; ClickCopyLink])
    with (step (step b (Edit t)) ClickCopyLink).
  rewrite Hs. unfold Page.step. cbn [set_document document].
  unfold handleCopyLink. cbn [setShaderText shaderText]. rewrite Ht.
  cbn [clipboard location document set_document].
  split; [reflexivity|]. split; [reflexivity|]. split; [reflexivity|].
  split; [reflexivity|].
  intros Hw Hp Hne Hbom.
  destruct (CodecFacts.decode_encode_general (location b) t Hw Hne)
    as [token' [He' Hd]].
  rewrite Ht in He'. injection He' as <-.
  rewrite Hd, CodecFacts.strip_bom_no_bom, Utf16Facts.of_to_code_points
    by assumption.
  reflexivity.
Qed.

(** Copying the link of the text that is in the editor. *)
Lemma copy_link_current (b : Browser) (a : AppState) :
  document b = Running a ->
  exists token,
    App.encodeShaderForUrl (shaderText a) = Ok token /\
    step b ClickCopyLink =
      {| location := location b;
         clipboard := Some (page_url (location b) token);
         document := document b; reloads := reloads b |}.
Proof.
  intros Hdoc.
  destruct (CodecFacts.encodeShaderForUrl_total (shaderText a)) as [token Ht].
  exists token. split; [exact Ht|].
  unfold Page.step. rewrite Hdoc. unfold handleCopyLink. rewrite Ht, Hdoc.
  reflexivity.
Qed.

Lemma step_preserves_invariant (b : Browser) ev :
  pane_invariant b -> pane_invariant (step b ev).
Proof.
  unfold pane_invariant, Page.step. intros Hinv.
  destruct (document b) as [| | |a|url] eqn:Hdoc;
    try (destruct ev; rewrite Hdoc; exact I).
  - (* a loading page *)
    destruct ev; try (rewrite Hdoc; exact I).
    unfold main. destruct (falsy (hash (location b))).
    + destruct (Main.encodeShaderForUrl CSE.fragmentShader); exact I.
    + unfold render_App.
      destruct (App.getShaderFromUrl (location b)) as [text|] eqn:Hs;
        cbn [falsy_opt].
      * destruct (falsy text).
        -- destruct (App.encodeShaderForUrl CSE.fragmentShader); [|exact I].
           destruct (location_replace _ _); exact I.
        -- cbn [set_document document mount panes]. exact I.
      * destruct (App.encodeShaderForUrl CSE.fragmentShader); [|exact I].
        destruct (location_replace _ _); exact I.
  - (* a running page *)
    destruct ev.
    + rewrite Hdoc. exact Hinv.
    + cbn [set_document document setShaderText appliedShader panes].
      exact Hinv.
    + unfold handleCompile.
      cbn [set_compileError shaderText].
      destruct (parse _) as [u|e]; cbn [bind try_catch].
      * destruct (App.encodeShaderForUrl (shaderText a)) as [token|e];
          cbn [bind try_catch reload document]; [exact I|].
        cbn [set_document document set_compileError appliedShader panes].
        exact Hinv.
      * cbn [set_document document set_compileError appliedShader panes].
        exact Hinv.
    + unfold handleCopyLink.
      destruct (App.encodeShaderForUrl (shaderText a)).
      * cbn [document]. rewrite Hdoc. exact Hinv.
      * rewrite Hdoc. exact Hinv.
    + cbn [set_document document]. unfold setData, render_effect.
      cbn [data appliedShader panes baseline custom].
      split; reflexivity.
    + cbn [set_document document setViewState appliedShader panes].
      destruct (panes a) as [p|]; [|exact I].
      cbn [baseline custom]. exact Hinv.
Qed.

(** A navigation to a fragment leaves the document as it is. *)
Lemma fragment_navigation_document (b : Browser) f :
  document (act b (FragmentNavigation f)) = document b.
Proof.
  cbn [Page.act]. destruct (document b) eqn:E; cbn [set_location document];
    congruence.
Qed.

Lemma act_preserves_invariant (b : Browser) x :
  pane_invariant b -> pane_invariant (act b x).
Proof.
  destruct x as [ev|f].
  - apply step_preserves_invariant.
  - unfold pane_invariant. rewrite fragment_navigation_document. tauto.
Qed.

Lemma run_actions_preserves_invariant actions (b : Browser) :
  pane_invariant b -> pane_invariant (run_actions b actions).
Proof.
  revert b. induction actions as [|x actions IH]; intros b H; [exact H|].
  unfold Page.run_actions. cbn [fold_left]. apply IH.
  apply act_preserves_invariant. exact H.
Qed.

Lemma run_actions_app (b : Browser) xs ys :
  run_actions b (xs ++ ys) = run_actions (run_actions b xs) ys.
Proof. unfold Page.run_actions. apply fold_left_app. Qed.

(** A run of handled events is a run of actions. *)
Lemma run_as_actions (b : Browser) events :
  run b events = run_actions b (map (@Handled view) events).
Proof.
  revert b. induction events as [|ev events IH]; intros b; [reflexivity|].
  cbn [map]. unfold Page.run, Page.run_actions. cbn [fold_left map Page.act].
  exact (IH (step b ev)).
Qed.

(** How a page comes to run after one action: it ran before and keeps its
    applied shader, or its scripts have just run and the applied shader
    is the text decoded from the address. *)
Lemma act_running (b : Browser) x (a' : AppState) :
  document (act b x) = Running a' ->
  (exists a, document b = Running a /\ appliedShader a' = appliedShader a) \/
  (document b = Loading /\ x = Handled PageLoad /\
   App.getShaderFromUrl (location b) = Some (appliedShader a')).
Proof.
  destruct x as [ev|f].
  - cbn [Page.act]. unfold Page.step.
    destruct (document b) as [| | |a|url] eqn:Hdoc.
    + (* a loading page *)
      destruct ev; try (rewrite Hdoc; discriminate).
      intros H. right. split; [reflexivity|]. split; [reflexivity|].
      revert H. unfold main. destruct (falsy (hash (location b))).
      * destruct (Main.encodeShaderForUrl CSE.fragmentShader); discriminate.
      * unfold render_App.
        destruct (App.getShaderFromUrl (location b)) as [text|] eqn:Hs;
          cbn [falsy_opt].
        -- destruct (falsy text).
           ++ destruct (App.encodeShaderForUrl CSE.fragmentShader);
                [|discriminate].
              destruct (location_replace _ _); discriminate.
           ++ cbn [set_document document]. intros H. injection H as <-.
              reflexivity.
        -- destruct (App.encodeShaderForUrl CSE.fragmentShader);
             [|discriminate].
           destruct (location_replace _ _); discriminate.
    + destruct ev; rewrite Hdoc; discriminate.
    + destruct ev; rewrite Hdoc; discriminate.
    + (* a running page *)
      intros H. left. exists a. split; [reflexivity|]. revert H.
      destruct ev.
      * rewrite Hdoc. intros H. injection H as <-. reflexivity.
      * cbn [set_document document]. intros H. injection H as <-. reflexivity.
      * unfold handleCompile. cbn [set_compileError shaderText].
        destruct (parse _) as [u|e]; cbn [bind try_catch].
        -- destruct (App.encodeShaderForUrl (shaderText a)) as [token|e];
             cbn [bind try_catch reload document]; [discriminate|].
           cbn [set_document document]. intros H. injection H as <-.
           reflexivity.
        -- cbn [set_document document]. intros H. injection H as <-.
           reflexivity.
      * unfold handleCopyLink.
        destruct (App.encodeShaderForUrl (shaderText a)).
        -- cbn [document]. rewrite Hdoc. intros H. injection H as <-.
           reflexivity.
        -- rewrite Hdoc. intros H. injection H as <-. reflexivity.
      * cbn [set_document document]. intros H. injection H as <-.
        reflexivity.
      * cbn [set_document document]. intros H. injection H as <-.
        reflexivity.
    + destruct ev; rewrite Hdoc; discriminate.
  - rewrite fragment_navigation_document. intros H. left. exists a'.
    split; [exact H|reflexivity].
Qed.

(** The applied shader of a running page is the text that was decoded
    from the address when the scripts of its document ran; since then
    the page has been running on it. *)
Lemma applied_since_load actions (b0 : Browser) (a : AppState) :
  document b0 = Loading ->
  document (run_actions b0 actions) = Running a ->
  exists pre post,
    actions = pre ++ Handled PageLoad :: post /\
    document (run_actions b0 pre) = Loading /\
    App.getShaderFromUrl (location (run_actions b0 pre))
      = Some (appliedShader a) /\
    forall post1 post2, post = post1 ++ post2 ->
      exists a1,
        document (run_actions b0 (pre ++ Handled PageLoad :: post1))
          = Running a1 /\
        appliedShader a1 = appliedShader a.
Proof.
  intros H0. revert a.
  induction actions as [|x actions IH] using rev_ind; intros a Ha.
  - cbn in Ha. congruence.
  - rewrite run_actions_app in Ha.
    change (run_actions (run_actions b0 actions) [x])
      with (act (run_actions b0 actions) x) in Ha.
    destruct (act_running _ _ _ Ha) as [[a0 [Hd0 Happ]]|[Hload [-> Hurl]]].
    + destruct (IH a0 Hd0) as [pre [post [-> [Hpre [Hurl Hpost]]]]].
      exists pre, (post ++ [x]). split.
      { rewrite <- app_assoc. reflexivity. }
      split; [exact Hpre|]. split; [rewrite Happ; exact Hurl|].
      intros post1 post2 E.
      destruct post2 as [|y post2 _] using rev_ind.
      * rewrite app_nil_r in E. subst post1. exists a. split; [|reflexivity].
        replace (pre ++ Handled PageLoad :: post ++ [x])
          with ((pre ++ Handled PageLoad :: post) ++ [x])
          by (rewrite <- app_assoc; reflexivity).
        rewrite run_actions_app. exact Ha.
      * rewrite app_assoc in E. apply app_inj_tail in E. destruct E as [E _].
        destruct (Hpost post1 post2 E) as [a1 [Hd1 H1]].
        exists a1. split; [exact Hd1|]. congruence.
    + exists actions, []. split; [reflexivity|]. split; [exact Hload|].
      split; [exact Hurl|].
      intros post1 post2 E. symmetry in E. apply app_eq_nil in E.
      destruct E as [-> _]. exists a. split; [|reflexivity].
      rewrite run_actions_app. exact Ha.
Qed.

(** The baseline layer carries no shader of its own: the extension gives
    it the default template and the default injection. *)
Lemma baseline_shaders :
  CSE.module_fs (CSE.getShaders baselineLayer) = CSE.fs /\
  CSE.module_inject (CSE.getShaders baselineLayer) = CSE.DECKGL_MUTATE_COLOR.
Proof. split; reflexivity. Qed.

(** The custom layer is drawn with the parts of the text it was made of,
    an empty part giving way to the default of the extension. *)
Lemma custom_shaders applied :
  CSE.module_fs (CSE.getShaders (customLayer applied)) =
    match App.fragmentShader (App.parseShader applied) with
    | [] => CSE.fs
    | c :: r => c :: r
    end /\
  CSE.module_inject (CSE.getShaders (customLayer applied)) =
    match App.mutateColorCode (App.parseShader applied) with
    | [] => CSE.DECKGL_MUTATE_COLOR
    | c :: r => c :: r
    end.
Proof.
  unfold customLayer, CSE.getShaders.
  cbn [CSE.prop_fragmentShader CSE.prop_mutateColorCode CSE.module_fs
       CSE.module_inject CSE.or_default].
  split.
  - destruct (App.fragmentShader (App.parseShader applied)); reflexivity.
  - destruct (App.mutateColorCode (App.parseShader applied)); reflexivity.
Qed.

(** C8, amended: in every state that a visit reaches, by the events of the
    page and by navigations to a fragment alike, the applied shader of a
    running page is the text that was decoded from the address when the
    scripts of its document ran (whether or not it was ever compiled),
    and nothing since has changed it; the decks, when they exist, draw
    the default program on the baseline side and, on the custom side, the
    two parts of the applied shader, an empty part replaced by its
    default; typing changes the edit buffer only. *)
Theorem panes_show_default_and_applied l actions (a : AppState) :
  document (run_actions (visit view l) actions) = Page.Running a ->
  (exists pre post,
     actions = pre ++ Handled PageLoad :: post /\
     document (run_actions (visit view l) pre) = Loading /\
     App.getShaderFromUrl (location (run_actions (visit view l) pre))
       = Some (appliedShader a) /\
     forall post1 post2, post = post1 ++ post2 ->
       exists a1,
         document (run_actions (visit view l)
                     (pre ++ Handled PageLoad :: post1)) = Page.Running a1 /\
         appliedShader a1 = appliedShader a) /\
  (forall p, panes a = Some p ->
     baseline p = baselineLayer /\
     CSE.module_fs (CSE.getShaders (baseline p)) = CSE.fs /\
     CSE.module_inject (CSE.getShaders (baseline p))
       = CSE.DECKGL_MUTATE_COLOR /\
     custom p = customLayer (appliedShader a) /\
     CSE.module_fs (CSE.getShaders (custom p)) =
       match App.fragmentShader (App.parseShader (appliedShader a)) with
       | [] => CSE.fs
       | c :: r => c :: r
       end /\
     CSE.module_inject (CSE.getShaders (custom p)) =
       match App.mutateColorCode (App.parseShader (appliedShader a)) with
       | [] => CSE.DECKGL_MUTATE_COLOR
       | c :: r => c :: r
       end) /\
  (forall t,
     exists a',
       document (act (run_actions (visit view l) actions) (Handled (Edit t)))
         = Page.Running a' /\
       shaderText a' = t /\
       appliedShader a' = appliedShader a /\
       panes a' = panes a).
Proof.
  intros Hdoc. split; [|split].
  - exact (applied_since_load actions (visit view l) a eq_refl Hdoc).
  - intros p Hp.
    assert (Hinv : pane_invariant (run_actions (visit view l) actions)).
    { apply run_actions_preserves_invariant. exact I. }
    unfold pane_invariant in Hinv. rewrite Hdoc, Hp in Hinv.
    destruct Hinv as [Hb Hc]. rewrite Hb, Hc.
    destruct (custom_shaders (appliedShader a)) as [Hfs Hinj].
    repeat split; assumption.
  - intros t. exists (setShaderText a t).
    cbn [Page.act]. unfold Page.step. rewrite Hdoc. repeat split.
Qed.

Lemma encode_default :
  App.encodeShaderForUrl CSE.fragmentShader = Ok default_token.
Proof. vm_compute. reflexivity. Qed.

Lemma decode_default l :
  App.getShaderFromUrl (with_fragment l default_token) = Some CSE.fragmentShader.
Proof.
  assert (Hwf : wf_string CSE.fragmentShader)
    by (apply CodecFacts.wf_string_check; vm_compute; reflexivity).
  destruct (CodecFacts.decode_encode_general l CSE.fragmentShader Hwf)
    as [token [He Hd]]; [discriminate|].
  rewrite encode_default in He. injection He as <-.
  rewrite Hd. vm_compute. reflexivity.
Qed.

Lemma split_fragment_url base f :
  ~ In HASH base -> split_fragment (base ++ [HASH] ++ f) = (base, Some f).
Proof.
  induction base as [|c base IH]; intros H.
  - reflexivity.
  - cbn [app split_fragment].
    destruct (Z.eqb_spec c HASH) as [->|_]; [exfalso; apply H; left; reflexivity|].
    cbn [app] in IH. rewrite IH; [reflexivity|].
    intros Hin. apply H. right. exact Hin.
Qed.

Lemma eqb_string_refl s : eqb_string s s = true.
Proof. unfold eqb_string. destruct (list_eq_dec Z.eq_dec s s); congruence. Qed.

(** [location.replace] with the address of the page and another fragment
    stays in the document. *)
Lemma replace_same_page l f :
  ~ In HASH (href_without_fragment l) ->
  location_replace l (page_url l f) = ToFragment (with_fragment l f).
Proof.
  intros H.
  assert (E : page_url l f = href_without_fragment l ++ [HASH] ++ f).
  { unfold page_url, href_without_fragment. rewrite <- !app_assoc. reflexivity. }
  unfold location_replace. rewrite E.
  rewrite (split_fragment_url _ f H), eqb_string_refl. reflexivity.
Qed.

Lemma load_empty_fragment l :
  fragment l = [] ->
  step (visit view l) PageLoad =
    {| location := with_fragment l default_token; clipboard := None;
       document := Loading; reloads := 1 |}.
Proof.
  intros Hf. unfold Page.step, visit. cbn [document]. unfold main.
  cbn [location]. unfold hash. rewrite Hf. cbn [falsy].
  rewrite CodecFacts.main_encoder_same, encode_default. reflexivity.
Qed.

Lemma load_default_token l c n :
  step {| location := with_fragment l default_token; clipboard := c;
          document := Loading; reloads := n |} PageLoad =
    {| location := with_fragment l default_token; clipboard := c;
       document := Page.Running (mount initial_view CSE.fragmentShader);
       reloads := n |}.
Proof.
  unfold Page.step. cbn [document]. unfold main. cbn [location].
  change (falsy (hash (with_fragment l default_token))) with false. cbv iota.
  unfold render_App. cbn [location]. rewrite decode_default. reflexivity.
Qed.

(** A visit with an empty fragment: one reload, then the page runs on the
    default document, whose token is in the address. *)
Lemma visit_empty_fragment l :
  fragment l = [] ->
  settle parse initial_view 2 (visit view l) =
    Some {| location := with_fragment l default_token;
            clipboard := None;
            document := Page.Running (mount initial_view CSE.fragmentShader);
            reloads := 1 |}.
Proof.
  intros Hf. unfold settle. unfold visit at 1. cbn [document].
  rewrite (load_empty_fragment l Hf). cbn [document].
  rewrite load_default_token. reflexivity.
Qed.

(** A visit with a non-empty fragment that does not decode to a text: the
    address gets the default token, nothing reloads, and the page shows
    the placeholder. *)
Lemma visit_undecodable l :
  fragment l <> [] ->
  falsy_opt (App.getShaderFromUrl l) = true ->
  ~ In HASH (href_without_fragment l) ->
  step (visit view l) PageLoad =
    {| location := with_fragment l default_token;
       clipboard := None; document := Placeholder; reloads := 0 |}.
Proof.
  intros Hf Hs Hh. unfold Page.step, visit. cbn [document]. unfold main.
  cbn [location]. unfold hash.
  destruct (fragment l) as [|c f] eqn:E; [congruence|]. cbn [falsy].
  unfold render_App. cbn [location]. rewrite Hs, encode_default.
  rewrite (replace_same_page l default_token Hh). reflexivity.
Qed.

(** Nothing happens on a page that shows the placeholder. *)
Lemma placeholder_stuck (b : Browser) events :
  document b = Placeholder -> run b events = b.
Proof.
  intros H. induction events as [|ev events IH]; [reflexivity|].
  unfold Page.run. cbn [fold_left].
  replace (step b ev) with b; [exact IH|].
  unfold Page.step. rewrite H. destruct ev; reflexivity.
Qed.

End WithParser.


(** *** Concrete runs *)

Lemma compile_error_keeps_state_witness :
  let a := setShaderText (mount tt (of_string "vec3 x;"))
             (of_string "void main() {}") in
  let b := {| location := with_fragment example_location (of_string "dmVjMyB4Ow==");
              clipboard := None; document := Running a; reloads := 0 |} in
  document b = Running a /\
  ((forall e, sample_parse (App.fragmentShader (App.parseShader (shaderText a)))
              = Throw e ->
      exists a',
        document (step sample_parse tt b ClickCompile) = Running a' /\
        compileError a' = Some (message_of e) /\
        (forall m, e = ErrorObject m -> compileError a' = Some m) /\
        (forall name m, e = DOMException name m -> compileError a' = Some m) /\
        (forall shown, e = OtherValue shown -> compileError a' = Some shown) /\
        appliedShader a' = appliedShader a /\
        panes a' = panes a /\
        shaderText a' = shaderText a /\
        location (step sample_parse tt b ClickCompile) = location b /\
        reloads (step sample_parse tt b ClickCompile) = reloads b) /\
   (forall ev, location (step sample_parse tt b ev) <> location b ->
      ev = ClickCompile /\
      exists u, sample_parse (App.fragmentShader (App.parseShader (shaderText a)))
                = Ok u)) /\
  sample_parse (App.fragmentShader (App.parseShader (shaderText a)))
    = Throw (ErrorObject (of_string "SyntaxError: Expected ;")) /\
  step sample_parse tt b ClickCompile =
    {| location := with_fragment example_location (of_string "dmVjMyB4Ow==");
       clipboard := None;
       document :=
         Running {| shaderText := of_string "void main() {}";
                    appliedShader := of_string "vec3 x;";
                    compileError := Some (of_string "SyntaxError: Expected ;");
                    data := false; viewState := tt; panes := None |};
       reloads := 0 |}.
Proof.
  intros a b.
  assert (Hdoc : document b = Running a) by reflexivity.
  split; [exact Hdoc|].
  split; [exact (compile_error_keeps_state sample_parse unit tt b a Hdoc)|].
  split; vm_compute; reflexivity.
Defined.

(** The same run, evaluated: the parser's message is on display, the
    address still holds the token of the applied text. *)
Example compile_rejected_run :
  let a := setShaderText (mount tt (of_string "vec3 x;"))
             (of_string "void main() {}") in
  let b := {| location := with_fragment example_location (of_string "dmVjMyB4Ow==");
              clipboard := None; document := Running a; reloads := 0 |} in
  step sample_parse tt b ClickCompile =
    {| location := with_fragment example_location (of_string "dmVjMyB4Ow==");
       clipboard := None;
       document := Running (set_compileError a
                     (Some (of_string "SyntaxError: Expected ;")));
       reloads := 0 |}.
Proof. vm_compute. reflexivity. Qed.

Lemma copy_link_encodes_edit_witness :
  let a := mount tt (of_string "vec3 x;") in
  let b := {| location := with_fragment example_location (of_string "dmVjMyB4Ow==");
              clipboard := None; document := Running a; reloads := 0 |} in
  let t := of_string "rgba = vec4(1.0);" in
  document b = Running a /\
  (exists token,
     App.encodeShaderForUrl t = Ok token /\
     clipboard (run sample_parse tt b [Edit t; ClickCopyLink]) =
       Some (origin (location b) ++ pathname (location b)
               ++ search (location b) ++ [HASH] ++ token) /\
     location (run sample_parse tt b [Edit t; ClickCopyLink]) = location b /\
     document (run sample_parse tt b [Edit t; ClickCopyLink])
       = Running (setShaderText a t) /\
     appliedShader (setShaderText a t) = appliedShader a /\
     (wf_string t -> Encoding.well_paired t = true -> t <> [] -> hd 0 t <> 65279 ->
      App.getShaderFromUrl (with_fragment (location b) token) = Some t)) /\
  clipboard (run sample_parse tt b [Edit t; ClickCopyLink]) =
    Some (of_string "https://example.org/pseudotoy/#cmdiYSA9IHZlYzQoMS4wKTs=") /\
  App.getShaderFromUrl
    (with_fragment example_location (of_string "cmdiYSA9IHZlYzQoMS4wKTs="))
    = Some t.
Proof.
  intros a b t.
  assert (Hdoc : document b = Running a) by reflexivity.
  split; [exact Hdoc|].
  split; [exact (copy_link_encodes_edit sample_parse unit tt b a t Hdoc)|].
  split; vm_compute; reflexivity.
Defined.

(** C9 as stated fails at the empty edit buffer: the copied address ends
    in [#], a fragment that holds no text, and a visit of it opens the
    default document.  It fails also at a text that begins with U+FEFF,
    whose link opens the text without it. *)
Lemma copy_link_counterexample :
  let a := mount tt (of_string "vec3 x;") in
  let b := {| location := with_fragment example_location (of_string "dmVjMyB4Ow==");
              clipboard := None; document := Running a; reloads := 0 |} in
  (clipboard (run sample_parse tt b [Edit []; ClickCopyLink]) =
     Some (of_string "https://example.org/pseudotoy/#") /\
   App.getShaderFromUrl (with_fragment example_location []) = None /\
   settle sample_parse tt 2 (visit unit (with_fragment example_location [])) =
     Some {| location := with_fragment example_location default_token;
             clipboard := None;
             document := Running (mount tt CSE.fragmentShader);
             reloads := 1 |}) /\
  (clipboard (run sample_parse tt b [Edit [65279; 97]; ClickCopyLink]) =
     Some (of_string "https://example.org/pseudotoy/#77u_YQ==") /\
   App.getShaderFromUrl (with_fragment example_location (of_string "77u_YQ=="))
     = Some [97]) /\
  ~ (forall t, wf_string t ->
       exists token,
         clipboard (run sample_parse tt b [Edit t; ClickCopyLink]) =
           Some (page_url (location b) token) /\
         App.getShaderFromUrl (with_fragment (location b) token) = Some t).
Proof.
  intros a b.
  split; [|split].
  - split; [vm_compute; reflexivity|]. split; [vm_compute; reflexivity|].
    apply visit_empty_fragment. reflexivity.
  - split; vm_compute; reflexivity.
  - intros H. destruct (H [] (Forall_nil _)) as [token [Hc Hd]].
    vm_compute in Hc. injection Hc as <-. vm_compute in Hd. discriminate.
Qed.

Example copy_link_run :
  let a := mount tt (of_string "vec3 x;") in
  let b := {| location := with_fragment example_location (of_string "dmVjMyB4Ow==");
              clipboard := None; document := Running a; reloads := 0 |} in
  clipboard (run sample_parse tt b
               [Edit (of_string "rgba = vec4(1.0);"); ClickCopyLink]) =
    Some (of_string
      "https://example.org/pseudotoy/#cmdiYSA9IHZlYzQoMS4wKTs=").
Proof. vm_compute. reflexivity. Qed.

Lemma panes_show_default_and_applied_witness :
  let l := with_fragment example_location default_token in
  let actions := [Handled PageLoad; Handled DataLoaded;
                  FragmentNavigation (of_string "dmVjMyB4Ow==");
                  Handled (Edit (of_string "void main() {}"))] in
  let a := setShaderText (setData (mount tt CSE.fragmentShader))
             (of_string "void main() {}") in
  document (run_actions sample_parse tt (visit unit l) actions) = Running a /\
  ((exists pre post,
      actions = pre ++ Handled PageLoad :: post /\
      document (run_actions sample_parse tt (visit unit l) pre) = Loading /\
      App.getShaderFromUrl
        (location (run_actions sample_parse tt (visit unit l) pre))
        = Some (appliedShader a) /\
      forall post1 post2, post = post1 ++ post2 ->
        exists a1,
          document (run_actions sample_parse tt (visit unit l)
                      (pre ++ Handled PageLoad :: post1)) = Running a1 /\
          appliedShader a1 = appliedShader a) /\
   (forall p, panes a = Some p ->
      baseline p = baselineLayer /\
      CSE.module_fs (CSE.getShaders (baseline p)) = CSE.fs /\
      CSE.module_inject (CSE.getShaders (baseline p))
        = CSE.DECKGL_MUTATE_COLOR /\
      custom p = customLayer (appliedShader a) /\
      CSE.module_fs (CSE.getShaders (custom p)) =
        match App.fragmentShader (App.parseShader (appliedShader a)) with
        | [] => CSE.fs
        | c :: r => c :: r
        end /\
      CSE.module_inject (CSE.getShaders (custom p)) =
        match App.mutateColorCode (App.parseShader (appliedShader a)) with
        | [] => CSE.DECKGL_MUTATE_COLOR
        | c :: r => c :: r
        end) /\
   (forall t,
      exists a',
        document (act sample_parse tt
                    (run_actions sample_parse tt (visit unit l) actions)
                    (Handled (Edit t))) = Running a' /\
        shaderText a' = t /\
        appliedShader a' = appliedShader a /\
        panes a' = panes a)) /\
  run_actions sample_parse tt (visit unit l) actions =
    {| location := with_fragment example_location (of_string "dmVjMyB4Ow==");
       clipboard := None;
       document :=
         Running {| shaderText := of_string "void main() {}";
                    appliedShader := CSE.fragmentShader;
                    compileError := None;
                    data := true;
                    viewState := tt;
                    panes := Some {| baseline := baselineLayer;
                                     custom := customLayer CSE.fragmentShader;
                                     pane_view := tt |} |};
       reloads := 0 |} /\
  CSE.module_fs (CSE.getShaders (customLayer CSE.fragmentShader))
    = trim CSE.fs /\
  CSE.module_inject (CSE.getShaders (customLayer CSE.fragmentShader))
    = trim CSE.DECKGL_MUTATE_COLOR.
Proof.
  intros l actions a.
  assert (Hdoc : document (run_actions sample_parse tt (visit unit l) actions)
                 = Running a)
    by (vm_compute; reflexivity).
  split; [exact Hdoc|].
  split; [exact (panes_show_default_and_applied sample_parse unit tt l actions
                   a Hdoc)|].
  split; [vm_compute; reflexivity|].
  split; vm_compute; reflexivity.
Defined.

(** C8 as stated fails on a visited link: the text of the fragment is
    applied and drawn on the custom side as it is, though no compile
    action took place and the parser rejects it.  And when the applied
    text has an empty template part, the custom side draws the default
    template. *)
Lemma panes_counterexample :
  let l := with_fragment example_location (of_string "bm90IGEgc2hhZGVy") in
  let actions := [Handled PageLoad; Handled DataLoaded] in
  let s := of_string "not a shader" in
  (App.getShaderFromUrl l = Some s /\
   sample_parse (App.fragmentShader (App.parseShader s))
     = Throw (ErrorObject (of_string "SyntaxError: Expected ;")) /\
   run_actions sample_parse tt (visit unit l) actions =
     {| location := l; clipboard := None;
        document :=
          Running {| shaderText := s; appliedShader := s;
                     compileError := None; data := true; viewState := tt;
                     panes := Some {| baseline := baselineLayer;
                                      custom := customLayer s;
                                      pane_view := tt |} |};
        reloads := 0 |} /\
   CSE.module_fs (CSE.getShaders (customLayer s)) = s) /\
  (App.getShaderFromUrl
     (with_fragment example_location
        (of_string "Ly8gSW5qZWN0aW9uIHBvaW50OiByZ2JhID0gdmVjNCgxLjApOw=="))
     = Some (of_string "// Injection point: rgba = vec4(1.0);") /\
   App.fragmentShader
     (App.parseShader (of_string "// Injection point: rgba = vec4(1.0);")) = [] /\
   CSE.module_fs
     (CSE.getShaders
        (customLayer (of_string "// Injection point: rgba = vec4(1.0);")))
     = CSE.fs) /\
  ~ (forall l actions (a : AppState unit) p,
       document (run_actions sample_parse tt (visit unit l) actions)
         = Running a ->
       panes a = Some p ->
       exists t u,
         sample_parse (App.fragmentShader (App.parseShader t)) = Ok u /\
         custom p = customLayer t).
Proof.
  intros l actions s.
  assert (Hrun : run_actions sample_parse tt (visit unit l) actions =
     {| location := l; clipboard := None;
        document :=
          Running {| shaderText := s; appliedShader := s;
                     compileError := None; data := true; viewState := tt;
                     panes := Some {| baseline := baselineLayer;
                                      custom := customLayer s;
                                      pane_view := tt |} |};
        reloads := 0 |}) by (vm_compute; reflexivity).
  split; [|split].
  - split; [vm_compute; reflexivity|]. split; [vm_compute; reflexivity|].
    split; [exact Hrun|]. vm_compute. reflexivity.
  - split; [vm_compute; reflexivity|]. split; vm_compute; reflexivity.
  - intros H.
    assert (Hdoc := f_equal (@document unit) Hrun). cbn [document] in Hdoc.
    destruct (H l actions _ _ Hdoc eq_refl) as [t [u [Hparse Hc]]].
    apply (f_equal CSE.prop_fragmentShader) in Hc.
    cbn [custom customLayer CSE.prop_fragmentShader] in Hc.
    injection Hc as Hc. rewrite <- Hc in Hparse.
    vm_compute in Hparse. discriminate.
Qed.

(** C7, at a fragment that does not decode: the address gets the token of
    the default document, but no reload follows and the scripts do not run
    again; the page stays on the placeholder whatever happens next. *)
Theorem undecodable_fragment_never_reloads :
  let l := with_fragment example_location (of_string "!") in
  let stuck := {| location := with_fragment example_location default_token;
                  clipboard := None; document := @Placeholder unit;
                  reloads := 0 |} in
  App.getShaderFromUrl l = None /\
  step sample_parse tt (visit unit l) PageLoad = stuck /\
  settle sample_parse tt 1 (visit unit l) = Some stuck /\
  forall events, run sample_parse tt stuck events = stuck.
Proof.
  intros l stuck.
  assert (Hstep : step sample_parse tt (visit unit l) PageLoad = stuck).
  { apply (visit_undecodable sample_parse unit tt l).
    - discriminate.
    - reflexivity.
    - intros H.
      assert (E : existsb (Z.eqb HASH) (href_without_fragment l) = true).
      { apply existsb_exists. exists HASH. split; [exact H|reflexivity]. }
      vm_compute in E. discriminate. }
  split; [reflexivity|]. split; [exact Hstep|]. split.
  - unfold settle. unfold visit at 1. cbn [document]. rewrite Hstep. reflexivity.
  - intros events. apply placeholder_stuck. reflexivity.
Qed.

(** The other half of C7, at the empty fragment: one reload, then the page
    runs on the default document. *)
Example empty_fragment_one_reload :
  settle sample_parse tt 2 (visit unit example_location) =
    Some {| location := with_fragment example_location default_token;
            clipboard := None;
            document := Running (mount tt CSE.fragmentShader);
            reloads := 1 |}.
Proof. apply visit_empty_fragment. reflexivity. Qed.

End PageFacts.

(** ** More on the URL-state codec *)

Module CodecMore.
Import JS Encoding Base64 Browser Derived.
Import Utf8Facts Utf16Facts Base64Facts CodecFacts.

Lemma to_url_safe_char x :
  x = pad \/ (exists v, is_sextet v /\ x = enc_char v) ->
  is_token_char
    (if (if x =? App.PLUS then App.MINUS else x) =? App.SLASH
     then App.UNDERSCORE
     else if x =? App.PLUS then App.MINUS else x) = true.
Proof.
  unfold is_token_char, App.is_base64url_char, App.PLUS, App.MINUS, App.SLASH,
    App.UNDERSCORE, pad.
  intros [->|[v [Hv ->]]]; [reflexivity|].
  unfold is_sextet, enc_char in *.
  destruct (Z.ltb_spec v 26); [|destruct (Z.ltb_spec v 52);
    [|destruct (Z.ltb_spec v 62); [|destruct (Z.eqb_spec v 62)]]];
  repeat match goal with
  | |- context [Z.eqb ?a ?b] => destruct (Z.eqb_spec a b); try lia
  | |- context [Z.leb ?a ?b] => destruct (Z.leb_spec a b); try lia
  end; reflexivity.
Qed.

Lemma encode_chars bytes x :
  Forall is_byte bytes -> In x (base64_encode bytes) ->
  x = pad \/ (exists v, is_sextet v /\ x = enc_char v).
Proof.
  intros Hb Hin. rewrite encode_split in Hin. apply in_app_or in Hin.
  destruct Hin as [Hin|Hin].
  - right. apply in_map_iff in Hin. destruct Hin as [v [<- Hv]].
    exists v. split; [|reflexivity].
    pose proof (sextets_range _ Hb) as Hs. rewrite Forall_forall in Hs.
    apply Hs. exact Hv.
  - left. destruct (padding_cases bytes) as [[E _]|[[E _]|[E _]]];
      rewrite E in Hin; cbn [In] in Hin; intuition congruence.
Qed.

Lemma encode_length bytes : len (base64_encode bytes) mod 4 = 0.
Proof.
  rewrite encode_split, len_app.
  assert (E : len (map enc_char (base64_sextets bytes))
              = len (base64_sextets bytes)).
  { unfold len. rewrite length_map. reflexivity. }
  rewrite E.
  destruct (padding_cases bytes) as [[-> H]|[[-> H]|[-> H]]];
    unfold len in *; cbn [List.length]; lia.
Qed.

Lemma to_url_safe_token bytes :
  Forall is_byte bytes ->
  Forall (fun c => is_token_char c = true) (to_url_safe (base64_encode bytes)).
Proof.
  intros Hb. unfold to_url_safe, replace_all. rewrite map_map.
  apply Forall_forall. intros c Hin. apply in_map_iff in Hin.
  destruct Hin as [x [<- Hx]]. apply to_url_safe_char.
  exact (encode_chars bytes x Hb Hx).
Qed.

Lemma encode_as_token shader :
  App.encodeShaderForUrl shader =
    Ok (to_url_safe (base64_encode (map byte_to_Z (TextEncoder_encode shader)))).
Proof. apply encodeShaderForUrl_eq. Qed.

(** X1: the encoder never throws, whatever the string, and its token is safe
    behind [#]: letters, digits, [-], [_] and [=] only, in groups of
    four; it is empty only for the empty string. *)
Theorem token_is_url_safe shader :
  exists token,
    App.encodeShaderForUrl shader = Ok token /\
    Forall (fun c => is_token_char c = true) token /\
    len token mod 4 = 0 /\
    (token = [] <-> shader = []).
Proof.
  eexists. split; [apply encode_as_token|].
  split; [apply to_url_safe_token, bytes_range|]. split.
  - unfold to_url_safe, replace_all, len. rewrite !length_map.
    apply encode_length.
  - split.
    + intros E. destruct shader as [|c s]; [reflexivity|]. exfalso.
      assert (Hne : c :: s <> []) by discriminate.
      apply TextEncoder_nonempty in Hne.
      assert (Hb : map byte_to_Z (TextEncoder_encode (c :: s)) <> [])
        by (destruct (TextEncoder_encode (c :: s)); [congruence|discriminate]).
      apply base64_encode_nonempty in Hb.
      revert E. unfold to_url_safe.
      apply replace_all_nonempty, replace_all_nonempty. exact Hb.
    + intros ->. reflexivity.
Qed.

Lemma map_byte_to_Z_inj a b : map byte_to_Z a = map byte_to_Z b -> a = b.
Proof.
  intros H. apply (f_equal (map byte_of_Z)) in H.
  rewrite !bytes_of_to_Z in H. exact H.
Qed.

Lemma base64_encode_inj a b :
  Forall is_byte a -> Forall is_byte b ->
  base64_encode a = base64_encode b -> a = b.
Proof.
  intros Ha Hb H. apply (f_equal forgiving_base64_decode) in H.
  rewrite !decode_encode_bytes in H by assumption. congruence.
Qed.

Lemma to_url_safe_inj a b :
  Forall is_byte a -> Forall is_byte b ->
  to_url_safe (base64_encode a) = to_url_safe (base64_encode b) ->
  base64_encode a = base64_encode b.
Proof.
  intros Ha Hb H.
  assert (Hp : forall x, Forall is_byte x ->
            Forall (fun c => c <> App.MINUS /\ c <> App.UNDERSCORE)
              (base64_encode x)).
  { intros x Hx. apply Forall_forall. intros c Hin.
    destruct (encode_plain _ c Hx Hin) as [_ [H45 [H95 _]]]. split; assumption. }
  rewrite <- (substitution_inverse _ (Hp a Ha)).
  rewrite <- (substitution_inverse _ (Hp b Hb)).
  unfold to_url_safe in H. rewrite H. reflexivity.
Qed.

(** X2: two texts without unpaired surrogates that have the same token are the
    same text. *)
Theorem encode_injective t1 t2 :
  wf_string t1 -> wf_string t2 ->
  well_paired t1 = true -> well_paired t2 = true ->
  App.encodeShaderForUrl t1 = App.encodeShaderForUrl t2 -> t1 = t2.
Proof.
  intros Hw1 Hw2 Hp1 Hp2 H. rewrite !encode_as_token in H.
  injection H as H.
  apply to_url_safe_inj in H; try apply bytes_range.
  apply base64_encode_inj in H; try apply bytes_range.
  apply map_byte_to_Z_inj in H. unfold TextEncoder_encode in H.
  pose proof (to_code_points_scalar t1 Hw1) as Hs1.
  pose proof (to_code_points_scalar t2 Hw2) as Hs2.
  apply (f_equal (map byte_to_Z)) in H.
  rewrite !bytes_to_of_Z in H by (apply utf8_encode_bytes; assumption).
  apply (f_equal utf8_decode) in H.
  rewrite !decode_encode_scalars in H by assumption.
  apply (f_equal of_code_points) in H.
  rewrite !of_to_code_points in H by assumption. exact H.
Qed.

Lemma encode_injective_witness :
  let t1 := of_string "rgba = vec4(1.0);" in
  let t2 := of_string "rgba = vec4(1.0);" in
  wf_string t1 /\ wf_string t2 /\
  well_paired t1 = true /\ well_paired t2 = true /\
  App.encodeShaderForUrl t1 = App.encodeShaderForUrl t2 /\ t1 = t2.
Proof.
  intros t1 t2.
  assert (Hw1 : wf_string t1) by (apply wf_string_check; reflexivity).
  assert (Hw2 : wf_string t2) by (apply wf_string_check; reflexivity).
  assert (Hp1 : well_paired t1 = true) by reflexivity.
  assert (Hp2 : well_paired t2 = true) by reflexivity.
  assert (He : App.encodeShaderForUrl t1 = App.encodeShaderForUrl t2)
    by reflexivity.
  repeat (split; [assumption|]).
  exact (encode_injective t1 t2 Hw1 Hw2 Hp1 Hp2 He).
Defined.

Lemma to_base64_url_safe s : to_base64 (to_url_safe s) = to_base64 s.
Proof.
  unfold to_base64, to_url_safe, replace_all. rewrite !map_map.
  apply map_ext. intros c.
  unfold App.PLUS, App.MINUS, App.SLASH, App.UNDERSCORE.
  destruct (Z.eqb_spec c 43) as [->|H1]; [reflexivity|]. cbv iota.
  destruct (Z.eqb_spec c 47) as [->|H2]; [reflexivity|]. cbv iota.
  destruct (Z.eqb_spec c 45) as [->|H3]; [reflexivity|]. cbv iota.
  destruct (Z.eqb_spec c 95) as [->|H4]; reflexivity.
Qed.

(** X3: a token written in the standard alphabet and its URL-safe form decode
    alike: the decoder accepts both. *)
Theorem decode_either_alphabet l token :
  App.getShaderFromUrl (with_fragment l (to_url_safe token)) =
  App.getShaderFromUrl (with_fragment l token).
Proof.
  rewrite !getShaderFromUrl_fragment. cbn [with_fragment fragment].
  destruct token as [|c token]; [reflexivity|].
  pose proof (to_base64_url_safe (c :: token)) as E. unfold to_base64 in E.
  destruct (to_url_safe (c :: token)) as [|c' token'] eqn:Et.
  - discriminate.
  - rewrite E. reflexivity.
Qed.

Lemma between_iff lo hi b : between lo hi b = true <-> lo <= b <= hi.
Proof.
  unfold between. rewrite andb_true_iff, !Z.leb_le. tauto.
Qed.

Lemma between_not lo hi b : between lo hi b = false -> b < lo \/ hi < b.
Proof.
  unfold between. intros H. apply andb_false_iff in H.
  destruct H as [H|H]; apply Z.leb_gt in H; lia.
Qed.

(** A lead byte: what it emits is a scalar value, what it leaves is a
    pending sequence within its limits. *)
Lemma lead_pending b :
  Forall is_scalar (fst (utf8_lead b)) /\ utf8_pending (snd (utf8_lead b)).
Proof.
  unfold utf8_lead.
  destruct (between 0 127 b) eqn:E1.
  { apply between_iff in E1. cbn [fst snd]. split.
    - apply Forall_cons; [unfold is_scalar; lia|apply Forall_nil].
    - left. reflexivity. }
  destruct (between 194 223 b) eqn:E2.
  { apply between_iff in E2. cbn [fst snd]. split; [constructor|].
    rewrite Bits.land_31. unfold utf8_pending.
    cbn [code_point bytes_seen bytes_needed lower_boundary upper_boundary].
    right. left. lia. }
  destruct (between 224 239 b) eqn:E3.
  { apply between_iff in E3. cbn [fst snd]. split; [constructor|].
    rewrite Bits.land_15. unfold utf8_pending.
    cbn [code_point bytes_seen bytes_needed lower_boundary upper_boundary].
    right. right. left.
    destruct (Z.eqb_spec b 224); destruct (Z.eqb_spec b 237); lia. }
  destruct (between 240 244 b) eqn:E4.
  { apply between_iff in E4. cbn [fst snd]. split; [constructor|].
    rewrite Bits.land_7. unfold utf8_pending.
    cbn [code_point bytes_seen bytes_needed lower_boundary upper_boundary].
    do 4 right. left.
    destruct (Z.eqb_spec b 240); destruct (Z.eqb_spec b 244); lia. }
  cbn [fst snd]. split.
  - apply Forall_cons; [unfold is_scalar; lia|apply Forall_nil].
  - left. reflexivity.
Qed.

(** Every step of the decoder emits scalar values only and keeps the
    pending sequence within its limits. *)
Lemma handler_pending st b :
  utf8_pending st ->
  Forall is_scalar (fst (utf8_handler st b)) /\
  utf8_pending (snd (utf8_handler st b)).
Proof.
  intros Hp. unfold utf8_handler.
  destruct (Z.eqb_spec (bytes_needed st) 0) as [E0|E0]; [apply lead_pending|].
  destruct (between (lower_boundary st) (upper_boundary st) b) eqn:Eb;
    cbn [negb].
  - apply between_iff in Eb.
    rewrite Bits.shiftl_6, Bits.land_63,
      Bits.lor_low6 by (apply Z.mod_pos_bound; lia).
    unfold utf8_pending in Hp. cbv zeta in Hp.
    destruct Hp as [H|[H|[H|[H|[H|[H|H]]]]]]; [contradiction|..];
      repeat match goal with H : _ /\ _ |- _ => destruct H end;
      (assert (Hm : b mod 64 = b - 128) by lia); rewrite Hm;
      (destruct (Z.eqb_spec (bytes_seen st + 1) (bytes_needed st)) as [E1|E1];
       [|try lia]); cbn [fst snd].
    all: (split;
          [first [apply Forall_nil
                 |apply Forall_cons; [unfold is_scalar; lia|apply Forall_nil]]|]).
    all: try (left; reflexivity).
    all: unfold utf8_pending;
      cbn [code_point bytes_seen bytes_needed lower_boundary upper_boundary].
    + do 3 right. left. lia.
    + do 5 right. left. lia.
    + do 6 right. lia.
  - pose proof (lead_pending b) as [Ho Hs].
    destruct (utf8_lead b) as [out st']. cbn [fst snd] in *.
    split; [|exact Hs]. constructor; [unfold is_scalar; lia|exact Ho].
Qed.

Lemma decode_from_scalar bytes st :
  utf8_pending st -> Forall is_scalar (utf8_decode_from st bytes).
Proof.
  revert st. induction bytes as [|b bytes IH]; intros st Hp.
  - cbn [utf8_decode_from]. destruct (bytes_needed st =? 0);
      [apply Forall_nil|].
    apply Forall_cons; [unfold is_scalar; lia|apply Forall_nil].
  - rewrite utf8_decode_cons. destruct (handler_pending st b Hp) as [Ho Hs].
    apply Forall_app. split; [exact Ho|]. apply IH. exact Hs.
Qed.

Lemma strip_bom_scalar cps : Forall is_scalar cps -> Forall is_scalar (strip_bom cps).
Proof.
  intros H. destruct H as [|c cps Hc Hcps]; [constructor|].
  cbn [strip_bom]. destruct (c =? 65279); [exact Hcps|].
  constructor; assumption.
Qed.

(** Scalar values written as code units have no unpaired surrogate. *)
Lemma of_code_points_well cps :
  Forall is_scalar cps ->
  wf_string (of_code_points cps) /\ well_paired (of_code_points cps) = true.
Proof.
  unfold of_code_points, wf_string.
  induction 1 as [|cp cps Hcp _ [IHw IHp]]; [split; [constructor|reflexivity]|].
  cbn [flat_map]. unfold utf16_units, is_scalar in *.
  destruct (Z.ltb_spec cp 65536) as [Hlt|Hge]; cbn [app].
  - split; [constructor; [unfold is_code_unit; lia|exact IHw]|].
    cbn [well_paired].
    destruct (surrogate_cases cp) as [[_ Hr]|[[_ [_ Hr]]|[-> [-> _]]]];
      [lia|lia|]. cbn [negb andb]. exact IHp.
  - rewrite (Bits.shiftr_const _ 10) by lia. change (2 ^ 10) with 1024.
    rewrite Bits.land_1023.
    split.
    + constructor; [unfold is_code_unit; lia|].
      constructor; [unfold is_code_unit; lia|exact IHw].
    + cbn [well_paired].
      destruct (surrogate_cases (55296 + (cp - 65536) / 1024))
        as [[-> _]|[[_ [_ Hr]]|[_ [_ Hr]]]]; [|lia|lia].
      destruct (surrogate_cases (56320 + (cp - 65536) mod 1024))
        as [[_ Hr]|[[_ [-> _]]|[_ [_ Hr]]]]; [lia| |lia].
      cbn [andb]. exact IHp.
Qed.

Lemma TextDecoder_well bytes :
  wf_string (TextDecoder_decode bytes) /\
  well_paired (TextDecoder_decode bytes) = true.
Proof.
  unfold TextDecoder_decode. apply of_code_points_well, strip_bom_scalar.
  apply decode_from_scalar. left. reflexivity.
Qed.

(** X4: whatever the fragment, a text that the decoder returns consists of
    code units and has no unpaired surrogate. *)
Theorem decoded_text_well_formed l s :
  App.getShaderFromUrl l = Some s ->
  wf_string s /\ well_paired s = true.
Proof.
  rewrite getShaderFromUrl_fragment. destruct (fragment l); [discriminate|].
  destruct (atob _) as [binary|e]; [|discriminate].
  intros H. injection H as <-. apply TextDecoder_well.
Qed.

Lemma decoded_text_well_formed_witness :
  let l := with_fragment example_location (of_string "_w==") in
  App.getShaderFromUrl l = Some [65533] /\
  wf_string [65533] /\ well_paired [65533] = true.
Proof.
  intros l.
  assert (H : App.getShaderFromUrl l = Some [65533]) by reflexivity.
  split; [exact H|]. exact (decoded_text_well_formed l [65533] H).
Defined.

(** X5: a decoded text is a fixed point of the codec: unless it is empty or
    begins with U+FEFF, encoding it and decoding the token gives it back. *)
Theorem decoded_text_round_trips l l' s :
  App.getShaderFromUrl l = Some s -> s <> [] -> hd 0 s <> 65279 ->
  exists token,
    App.encodeShaderForUrl s = Ok token /\
    App.getShaderFromUrl (with_fragment l' token) = Some s.
Proof.
  intros Hs Hne Hbom.
  assert (Hw : wf_string s /\ well_paired s = true).
  { revert Hs. rewrite getShaderFromUrl_fragment.
    destruct (fragment l); [discriminate|].
    destruct (atob _) as [binary|e]; [|discriminate].
    intros H. injection H as <-. apply TextDecoder_well. }
  destruct Hw as [Hw Hp].
  destruct (decode_encode_general l' s Hw Hne) as [token [He Hd]].
  exists token. split; [exact He|].
  rewrite Hd, strip_bom_no_bom, of_to_code_points by assumption. reflexivity.
Qed.

Lemma decoded_text_round_trips_witness :
  let l := with_fragment example_location (of_string "_w==") in
  let l' := example_location in
  App.getShaderFromUrl l = Some [65533] /\ [65533] <> [] /\
  hd 0 [65533] <> 65279 /\
  exists token,
    App.encodeShaderForUrl [65533] = Ok token /\
    App.getShaderFromUrl (with_fragment l' token) = Some [65533].
Proof.
  intros l l'.
  assert (H : App.getShaderFromUrl l = Some [65533]) by reflexivity.
  assert (Hne : [65533] <> @nil Z) by discriminate.
  assert (Hb : hd 0 [65533] <> 65279) by discriminate.
  repeat (split; [assumption|]).
  exact (decoded_text_round_trips l l' [65533] H Hne Hb).
Defined.

Lemma strip_padding_none (x : jsstring) :
  (forall c, In c x -> c <> pad) -> strip_padding x = x.
Proof.
  intros H. unfold strip_padding. destruct (len x mod 4 =? 0); [|reflexivity].
  destruct (rev x) as [|c1 r] eqn:E; [reflexivity|].
  pose proof (H c1 (rev_head_in _ _ _ _ E)) as Hc1.
  destruct (Z.eqb_spec c1 pad); [contradiction|]. destruct r; reflexivity.
Qed.

(** [atob] does not insist on the padding. *)
Lemma atob_unpadded bytes :
  Forall is_byte bytes ->
  atob (map enc_char (base64_sextets bytes)) = Ok bytes.
Proof.
  intros Hb. pose proof (sextets_range _ Hb) as Hs.
  unfold atob, forgiving_base64_decode.
  assert (Hw : remove_whitespace (map enc_char (base64_sextets bytes))
               = map enc_char (base64_sextets bytes)).
  { unfold remove_whitespace. apply filter_all. apply Forall_forall.
    intros c Hin. destruct (body_plain _ c Hs Hin) as [_ [-> _]]. reflexivity. }
  rewrite Hw, strip_padding_none
    by (intros c Hin; apply (body_plain _ c Hs Hin)).
  assert (Hlen : len (map enc_char (base64_sextets bytes))
                 = len (base64_sextets bytes)).
  { unfold len. rewrite length_map. reflexivity. }
  rewrite Hlen.
  destruct (Z.eqb_spec (len (base64_sextets bytes) mod 4) 1) as [E|_].
  { destruct (padding_cases bytes) as [[_ H]|[[_ H]|[_ H]]]; lia. }
  rewrite (sextets_of_alphabet _ Hs). cbn [option_map].
  rewrite (decode_groups_sextets _ Hb). reflexivity.
Qed.

Lemma drop_pad_pads p y :
  Forall (fun c => c = pad) p -> drop_pad (p ++ y) = drop_pad y.
Proof.
  induction 1 as [|c p Hc _ IH]; [reflexivity|].
  cbn [app drop_pad]. subst c. rewrite Z.eqb_refl. exact IH.
Qed.

Lemma drop_pad_none y : (forall c, In c y -> c <> pad) -> drop_pad y = y.
Proof.
  intros H. destruct y as [|c y]; [reflexivity|]. cbn [drop_pad].
  destruct (Z.eqb_spec c pad) as [E|_]; [|reflexivity].
  exfalso. apply (H c); [left; reflexivity|exact E].
Qed.

Lemma to_url_safe_app a b : to_url_safe (a ++ b) = to_url_safe a ++ to_url_safe b.
Proof. unfold to_url_safe, replace_all. rewrite !map_app. reflexivity. Qed.

Lemma to_url_safe_body_no_pad vs c :
  Forall is_sextet vs -> In c (to_url_safe (map enc_char vs)) -> c <> pad.
Proof.
  intros Hs Hin.
  assert (Ht : Forall (fun c => is_token_char c = true /\ c <> pad)
                 (to_url_safe (map enc_char vs))).
  { unfold to_url_safe, replace_all. rewrite !map_map.
    apply Forall_forall. intros x Hx. apply in_map_iff in Hx.
    destruct Hx as [v [<- Hv]]. rewrite Forall_forall in Hs.
    specialize (Hs v Hv). split.
    - apply to_url_safe_char. right. exists v. split; [exact Hs|reflexivity].
    - destruct (enc_char_plain v Hs) as [Hp [_ [H45 [H95 _]]]].
      cbv beta.
      unfold App.PLUS, App.MINUS, App.SLASH, App.UNDERSCORE, pad in *.
      destruct (Z.eqb_spec (enc_char v) 43) as [E|_]; cbv iota.
      + change (45 =? 47) with false. cbv iota. discriminate.
      + destruct (Z.eqb_spec (enc_char v) 47) as [E|_]; cbv iota;
          [discriminate|exact Hp]. }
  rewrite Forall_forall in Ht. apply (Ht c Hin).
Qed.

(** The token of the encoder without its padding. *)
Lemma unpad_token bytes :
  Forall is_byte bytes ->
  unpad (to_url_safe (base64_encode bytes)) =
    to_url_safe (map enc_char (base64_sextets bytes)).
Proof.
  intros Hb. pose proof (sextets_range _ Hb) as Hs.
  rewrite encode_split, to_url_safe_app. unfold unpad.
  rewrite rev_app_distr, drop_pad_pads.
  - rewrite drop_pad_none; [apply rev_involutive|].
    intros c Hin. apply in_rev in Hin.
    exact (to_url_safe_body_no_pad _ c Hs Hin).
  - apply Forall_rev.
    destruct (padding_cases bytes) as [[-> _]|[[-> _]|[-> _]]];
      repeat constructor.
Qed.

Lemma to_base64_plain s :
  Forall (fun c => c <> App.MINUS /\ c <> App.UNDERSCORE) s -> to_base64 s = s.
Proof.
  unfold to_base64, replace_all, App.MINUS, App.UNDERSCORE, App.PLUS, App.SLASH.
  induction 1 as [|c s [Hm Hu] _ IH]; [reflexivity|].
  cbn [map]. rewrite IH. f_equal.
  destruct (Z.eqb_spec c 45); [contradiction|].
  destruct (Z.eqb_spec c 95); [contradiction|reflexivity].
Qed.

(** X6: a link whose trailing [=] are cut off opens like the whole link. *)
Theorem decode_without_padding l shader token :
  App.encodeShaderForUrl shader = Ok token ->
  App.getShaderFromUrl (with_fragment l (unpad token)) =
  App.getShaderFromUrl (with_fragment l token).
Proof.
  rewrite encode_as_token. intros H. injection H as <-.
  set (bytes := map byte_to_Z (TextEncoder_encode shader)).
  assert (Hb : Forall is_byte bytes) by apply bytes_range.
  pose proof (sextets_range _ Hb) as Hs.
  rewrite unpad_token by exact Hb.
  rewrite !getShaderFromUrl_fragment. cbn [with_fragment fragment].
  assert (Hl : to_base64 (to_url_safe (map enc_char (base64_sextets bytes)))
               = map enc_char (base64_sextets bytes)).
  { rewrite to_base64_url_safe. apply to_base64_plain.
    apply Forall_forall. intros c Hin.
    destruct (body_plain _ c Hs Hin) as [_ [_ [H45 [H95 _]]]]. split; assumption. }
  assert (Hr : to_base64 (to_url_safe (base64_encode bytes))
               = base64_encode bytes).
  { rewrite to_base64_url_safe. apply to_base64_plain.
    apply Forall_forall. intros c Hin.
    destruct (encode_plain _ c Hb Hin) as [_ [H45 [H95 _]]]. split; assumption. }
  unfold to_base64 in Hl, Hr.
  destruct bytes as [|b0 bytes'] eqn:Eb; [reflexivity|]. rewrite <- Eb in *.
  destruct (to_url_safe (map enc_char (base64_sextets bytes))) as [|c1 r1] eqn:E1.
  { exfalso. rewrite Eb in E1. destruct bytes' as [|b1 [|b2 r]]; discriminate. }
  destruct (to_url_safe (base64_encode bytes)) as [|c2 r2] eqn:E2.
  { exfalso. rewrite Eb in E2. destruct bytes' as [|b1 [|b2 r]]; discriminate. }
  rewrite Hl, Hr, atob_unpadded, atob_btoa by exact Hb. reflexivity.
Qed.

Lemma decode_without_padding_witness :
  let shader := of_string "rgba = vec4(1.0);" in
  let token := of_string "cmdiYSA9IHZlYzQoMS4wKTs=" in
  App.encodeShaderForUrl shader = Ok token /\
  App.getShaderFromUrl (with_fragment example_location (unpad token)) =
  App.getShaderFromUrl (with_fragment example_location token).
Proof.
  intros shader token.
  assert (H : App.encodeShaderForUrl shader = Ok token) by reflexivity.
  split; [exact H|].
  exact (decode_without_padding example_location shader token H).
Defined.

Lemma base64url_char_cases c :
  App.is_base64url_char c = true ->
  65 <= c <= 90 \/ 97 <= c <= 122 \/ 48 <= c <= 57 \/ c = 45 \/ c = 95.
Proof.
  unfold App.is_base64url_char, App.MINUS, App.UNDERSCORE. intros H.
  destruct (Z.leb_spec 65 c), (Z.leb_spec c 90), (Z.leb_spec 97 c),
    (Z.leb_spec c 122), (Z.leb_spec 48 c), (Z.leb_spec c 57),
    (Z.eqb_spec c 45), (Z.eqb_spec c 95);
    cbn [andb orb] in H; try discriminate; lia.
Qed.

Lemma standard_char_decodes x :
  65 <= x <= 90 \/ 97 <= x <= 122 \/ 48 <= x <= 57 \/ x = 43 \/ x = 47 ->
  (exists v, dec_char x = Some v) /\ x <> pad /\ is_ascii_whitespace x = false.
Proof.
  unfold dec_char, pad, is_ascii_whitespace. intros H.
  split; [|split].
  - destruct (Z.leb_spec 65 x), (Z.leb_spec x 90), (Z.leb_spec 97 x),
      (Z.leb_spec x 122), (Z.leb_spec 48 x), (Z.leb_spec x 57),
      (Z.eqb_spec x 43), (Z.eqb_spec x 47);
      cbn [andb]; try (eexists; reflexivity); lia.
  - lia.
  - destruct (Z.eqb_spec x 9), (Z.eqb_spec x 10), (Z.eqb_spec x 12),
      (Z.eqb_spec x 13), (Z.eqb_spec x 32); cbn [orb]; try reflexivity; lia.
Qed.

Lemma base64url_char_decodes c :
  App.is_base64url_char c = true ->
  let x := if (if c =? App.MINUS then App.PLUS else c) =? App.UNDERSCORE
           then App.SLASH
           else if c =? App.MINUS then App.PLUS else c in
  (exists v, dec_char x = Some v) /\ x <> pad /\ is_ascii_whitespace x = false.
Proof.
  intros H x. apply standard_char_decodes.
  apply base64url_char_cases in H. subst x.
  unfold App.MINUS, App.PLUS, App.UNDERSCORE, App.SLASH.
  destruct (Z.eqb_spec c 45) as [E|E]; cbv iota.
  - change (43 =? 95) with false. cbv iota. lia.
  - destruct (Z.eqb_spec c 95) as [E'|E']; cbv iota; lia.
Qed.

Lemma sextets_all data :
  Forall (fun x => exists v, dec_char x = Some v) data ->
  exists vs, sextets data = Some vs.
Proof.
  induction 1 as [|x data [v Hv] _ [vs IH]]; [exists []; reflexivity|].
  exists (v :: vs). cbn [sextets]. rewrite Hv, IH. reflexivity.
Qed.

(** X7: over the base64url alphabet the length alone decides: a non-empty
    token of letters, digits, [-] and [_] is invalid exactly when its
    length leaves the remainder 1 on division by 4. *)
Theorem alphabet_token_valid_by_length l token :
  token <> [] ->
  Forall (fun c => App.is_base64url_char c = true) token ->
  (App.getShaderFromUrl (with_fragment l token) = None <-> len token mod 4 = 1).
Proof.
  intros Hne Ha. rewrite getShaderFromUrl_fragment. cbn [with_fragment fragment].
  destruct token as [|c0 t0] eqn:Et; [congruence|]. rewrite <- Et in *.
  clear Et Hne.
  set (data := replace_all App.UNDERSCORE App.SLASH
                 (replace_all App.MINUS App.PLUS token)).
  assert (Hd : Forall (fun x => (exists v, dec_char x = Some v) /\ x <> pad /\
                                is_ascii_whitespace x = false) data).
  { unfold data, replace_all. rewrite map_map. apply Forall_forall.
    intros x Hx. apply in_map_iff in Hx. destruct Hx as [c [<- Hc]].
    rewrite Forall_forall in Ha. apply (base64url_char_decodes c (Ha c Hc)). }
  assert (Hlen : len data = len token).
  { unfold data, replace_all, len. rewrite !length_map. reflexivity. }
  rewrite Forall_forall in Hd.
  unfold atob, forgiving_base64_decode.
  assert (Hw : remove_whitespace data = data).
  { unfold remove_whitespace. apply filter_all. apply Forall_forall.
    intros x Hx. destruct (Hd x Hx) as [_ [_ ->]]. reflexivity. }
  rewrite Hw, strip_padding_none by (intros x Hx; apply (Hd x Hx)).
  rewrite Hlen.
  destruct (Z.eqb_spec (len token mod 4) 1) as [E|E].
  - split; [intros _; exact E|reflexivity].
  - destruct (sextets_all data) as [vs Hvs].
    { apply Forall_forall. intros x Hx. apply (Hd x Hx). }
    rewrite Hvs. cbn [option_map]. split; [discriminate|contradiction].
Qed.

Lemma alphabet_token_valid_by_length_witness :
  let token := of_string "dmVjM" in
  token <> [] /\
  Forall (fun c => App.is_base64url_char c = true) token /\
  (App.getShaderFromUrl (with_fragment example_location token) = None
   <-> len token mod 4 = 1).
Proof.
  intros token.
  assert (Hne : token <> []) by discriminate.
  assert (Ha : Forall (fun c => App.is_base64url_char c = true) token)
    by (repeat constructor).
  split; [exact Hne|]. split; [exact Ha|].
  exact (alphabet_token_valid_by_length example_location token Hne Ha).
Defined.

End CodecMore.

(** ** More on the shader splitter *)

Module SplitterMore.
Import JS Derived StringFacts SplitterFacts.
Module CSE := CustomShaderExtension.

(** No end of the marker is also a beginning of it. *)
Lemma marker_unbordered k :
  (0 < k < List.length App.INJECTION_MARKER)%nat ->
  has_border_at App.INJECTION_MARKER k = false.
Proof.
  intros Hk.
  assert (H : forallb (fun k => negb (has_border_at App.INJECTION_MARKER k))
                (seq 1 18) = true) by (vm_compute; reflexivity).
  rewrite forallb_forall in H. specialize (H k).
  change (List.length App.INJECTION_MARKER) with 19%nat in Hk.
  apply negb_true_iff. apply H. apply in_seq. lia.
Qed.

(** Two occurrences of the marker do not overlap. *)
Lemma marker_no_overlap d y w :
  App.INJECTION_MARKER ++ y = d ++ App.INJECTION_MARKER ++ w ->
  (0 < List.length d < List.length App.INJECTION_MARKER)%nat -> False.
Proof.
  intros E Hd.
  apply (f_equal (firstn (List.length App.INJECTION_MARKER))) in E.
  rewrite firstn_length_app in E.
  rewrite firstn_app, (@firstn_all2 _ _ d) in E by lia.
  rewrite firstn_app in E.
  replace (List.length App.INJECTION_MARKER - List.length d
           - List.length App.INJECTION_MARKER)%nat with 0%nat in E by lia.
  cbn [firstn] in E. rewrite app_nil_r in E.
  pose proof (marker_unbordered (List.length d) Hd) as Hb.
  unfold has_border_at in Hb.
  rewrite E in Hb at 1. rewrite skipn_length_app in Hb.
  unfold eqb_string in Hb.
  destruct (list_eq_dec Z.eq_dec _ _); [discriminate|congruence].
Qed.

Lemma prefix_of_longer (d x y : jsstring) m :
  m ++ y = d ++ x -> (List.length m <= List.length d)%nat ->
  exists d', d = m ++ d'.
Proof.
  intros E Hl. apply app_eq_app in E. destruct E as [l [[E1 E2]|[E1 E2]]].
  - assert (l = []) as ->.
    { apply (f_equal (@List.length Z)) in E1. rewrite length_app in E1.
      destruct l; [reflexivity|cbn [List.length] in E1; lia]. }
    rewrite app_nil_r in E1. exists []. rewrite app_nil_r. symmetry. exact E1.
  - exists l. exact E1.
Qed.

(** In a text whose part before a marker has no marker, that marker is
    the first one. *)
Lemma indexOf_marker_free before after :
  occurrences before App.INJECTION_MARKER = 0%nat ->
  indexOf (before ++ App.INJECTION_MARKER ++ after) App.INJECTION_MARKER
    = len before.
Proof.
  intros Hocc. set (t := before ++ App.INJECTION_MARKER ++ after).
  assert (Hfound : indexOf t App.INJECTION_MARKER <> -1).
  { apply indexOf_present; [|lia].
    pose proof (occurrences_app_ge before App.INJECTION_MARKER after). fold t in H.
    lia. }
  destruct (indexOf_first t _ 0 Hfound ltac:(lia) marker_nonempty)
    as [b' [a' [Ht [Hidx Hocc']]]].
  unfold indexOf. rewrite Hidx. f_equal.
  unfold t in Ht. apply app_eq_app in Ht.
  destruct Ht as [d [[E1 E2]|[E1 E2]]].
  - (* the first occurrence would stand before the given one *)
    destruct d as [|x d]; [rewrite app_nil_r in E1; subst; lia|].
    exfalso.
    destruct (Nat.lt_ge_cases (List.length (x :: d))
                (List.length App.INJECTION_MARKER)) as [Hlt|Hge].
    + apply (marker_no_overlap (x :: d) a' after); [exact E2|].
      cbn [List.length] in *. lia.
    + destruct (prefix_of_longer _ _ _ _ E2 Hge) as [d' Ed].
      rewrite Ed in E1. rewrite E1 in Hocc.
      pose proof (occurrences_app_ge b' App.INJECTION_MARKER d'). lia.
  - (* the first occurrence would stand behind the given one *)
    destruct d as [|x d]; [rewrite app_nil_r in E1; subst; lia|].
    exfalso.
    destruct (Nat.lt_ge_cases (List.length (x :: d))
                (List.length App.INJECTION_MARKER)) as [Hlt|Hge].
    + apply (marker_no_overlap (x :: d) after a'); [exact E2|].
      cbn [List.length] in *. lia.
    + destruct (prefix_of_longer _ _ _ _ E2 Hge) as [d' Ed].
      rewrite Ed in E1. rewrite E1 in Hocc'.
      pose proof (occurrences_app_ge before App.INJECTION_MARKER d'). lia.
Qed.

(** X8: with several markers the split is at the first: the template is the
    trimmed text before it, the injection is all the rest, trimmed, with
    the later markers in it. *)
Theorem parseShader_first_marker before after :
  occurrences before App.INJECTION_MARKER = 0%nat ->
  App.parseShader (before ++ App.INJECTION_MARKER ++ after) =
    {| App.fragmentShader := trim before;
       App.mutateColorCode := trim after |}.
Proof.
  intros Hocc. apply parseShader_at; [reflexivity|].
  apply indexOf_marker_free. exact Hocc.
Qed.

Lemma parseShader_first_marker_witness :
  let before := of_string "vec3 x; " in
  let after := of_string " a(); // Injection point: b(); " in
  occurrences before App.INJECTION_MARKER = 0%nat /\
  App.parseShader (before ++ App.INJECTION_MARKER ++ after) =
    {| App.fragmentShader := trim before;
       App.mutateColorCode := trim after |}.
Proof.
  intros before after.
  assert (H : occurrences before App.INJECTION_MARKER = 0%nat) by reflexivity.
  split; [exact H|]. exact (parseShader_first_marker before after H).
Defined.

(** X9: joining and splitting normalises in one step: for a template without
    marker and any injection, the split of the joined text has both parts
    trimmed, and joining and splitting once more changes nothing. *)
Theorem join_split_idempotent fs mc :
  occurrences fs App.INJECTION_MARKER = 0%nat ->
  let p := {| App.fragmentShader := fs; App.mutateColorCode := mc |} in
  App.parseShader (App.join p) =
    {| App.fragmentShader := trim fs; App.mutateColorCode := trim mc |} /\
  App.parseShader (App.join (App.parseShader (App.join p))) =
    App.parseShader (App.join p).
Proof.
  intros Hocc p. subst p.
  rewrite (parseShader_join_parts fs mc Hocc). split; [reflexivity|].
  rewrite (parseShader_join_parts (trim fs) (trim mc))
    by (apply occurrences_trim; exact Hocc).
  rewrite !trim_idem. reflexivity.
Qed.

Lemma join_split_idempotent_witness :
  let fs := of_string " void mutate_color() {} " in
  let mc := of_string " rgba = vec4(1.0); // Injection point: " in
  let p := {| App.fragmentShader := fs; App.mutateColorCode := mc |} in
  occurrences fs App.INJECTION_MARKER = 0%nat /\
  App.parseShader (App.join p) =
    {| App.fragmentShader := trim fs; App.mutateColorCode := trim mc |} /\
  App.parseShader (App.join (App.parseShader (App.join p))) =
    App.parseShader (App.join p).
Proof.
  intros fs mc p.
  assert (H : occurrences fs App.INJECTION_MARKER = 0%nat) by reflexivity.
  split; [exact H|]. exact (join_split_idempotent fs mc H).
Defined.

Lemma white_no_marker w :
  all_white w -> occurrences w App.INJECTION_MARKER = 0%nat.
Proof.
  induction 1 as [|c w Hc _ IH]; [reflexivity|].
  cbn [occurrences]. rewrite IH.
  replace (starts_with App.INJECTION_MARKER (c :: w)) with false; [reflexivity|].
  symmetry. unfold App.INJECTION_MARKER. cbn [of_string starts_with].
  destruct (Z.eqb_spec (Z.of_N (N_of_ascii "/")) c) as [<-|_];
    [discriminate|reflexivity].
Qed.

Lemma trim_white w : all_white w -> trim w = [].
Proof. intros H. unfold trim. rewrite trim_start_all_white by exact H. reflexivity. Qed.

(** X10: empty parts fall back in the extension: a text that begins with the
    marker is drawn with the default template, and a text that ends with
    the marker is drawn with the default injection. *)
Theorem empty_parts_fall_back w rest :
  all_white w ->
  (CSE.module_fs (CSE.getShaders
     (Page.customLayer (w ++ App.INJECTION_MARKER ++ rest))) = CSE.fs) /\
  (occurrences rest App.INJECTION_MARKER = 0%nat ->
   CSE.module_inject (CSE.getShaders
     (Page.customLayer (rest ++ App.INJECTION_MARKER ++ w)))
     = CSE.DECKGL_MUTATE_COLOR).
Proof.
  intros Hw. split.
  - unfold Page.customLayer, CSE.getShaders.
    cbn [CSE.prop_fragmentShader CSE.module_fs].
    rewrite (parseShader_at _ w rest eq_refl
               (indexOf_marker_free w rest (white_no_marker w Hw))).
    cbn [App.fragmentShader]. rewrite (trim_white w Hw). reflexivity.
  - intros Hocc. unfold Page.customLayer, CSE.getShaders.
    cbn [CSE.prop_mutateColorCode CSE.module_inject].
    rewrite (parseShader_at _ rest w eq_refl (indexOf_marker_free rest w Hocc)).
    cbn [App.mutateColorCode]. rewrite (trim_white w Hw). reflexivity.
Qed.

Lemma empty_parts_fall_back_witness :
  let w := [10; 32] in
  let rest := of_string "rgba = vec4(1.0);" in
  all_white w /\
  (CSE.module_fs (CSE.getShaders
     (Page.customLayer (w ++ App.INJECTION_MARKER ++ rest))) = CSE.fs) /\
  (occurrences rest App.INJECTION_MARKER = 0%nat ->
   CSE.module_inject (CSE.getShaders
     (Page.customLayer (rest ++ App.INJECTION_MARKER ++ w)))
     = CSE.DECKGL_MUTATE_COLOR).
Proof.
  intros w rest.
  assert (H : all_white w) by (repeat constructor).
  split; [exact H|]. exact (empty_parts_fall_back w rest H).
Defined.

(** X11: the template part is stable: it has no marker and no white space
    around it, so splitting it again returns it, with the default
    injection. *)
Theorem parseShader_template_stable t :
  App.parseShader (App.fragmentShader (App.parseShader t)) =
    {| App.fragmentShader := App.fragmentShader (App.parseShader t);
       App.mutateColorCode := CSE.defaultMutateColorCode |}.
Proof.
  destruct (parseShader_parts t) as [Hocc [Htrim _]].
  rewrite (parseShader_absent _ Hocc), Htrim. reflexivity.
Qed.

End SplitterMore.

(** ** The shader module of the extension *)

Module ShaderModuleFacts.
Import JS Derived.
Module CSE := CustomShaderExtension.

Lemma to_int32_range z : -2147483648 <= CSE.to_int32 z < 2147483648.
Proof. unfold CSE.to_int32. lia. Qed.

(** [ToInt32] sees its argument modulo 2^32 only. *)
Lemma to_int32_add_multiple z k :
  CSE.to_int32 (z + k * 4294967296) = CSE.to_int32 z.
Proof.
  unfold CSE.to_int32.
  replace (z + k * 4294967296 + 2147483648)
    with (z + 2147483648 + k * 4294967296) by lia.
  rewrite Z.mod_add by lia. reflexivity.
Qed.

Lemma to_int32_multiple z : exists k, CSE.to_int32 z = z + k * 4294967296.
Proof.
  unfold CSE.to_int32. exists (- ((z + 2147483648) / 4294967296)).
  pose proof (Z.div_mod (z + 2147483648) 4294967296 ltac:(lia)). lia.
Qed.

(** One round of the loop, [((h << 5) - h + c) | 0], is [31 * h + c]
    wrapped to 32 bits. *)
Lemma hash_round h c :
  CSE.to_int32 (CSE.to_int32 (Z.shiftl (CSE.to_int32 h) 5) - CSE.to_int32 h + c)
  = CSE.to_int32 (31 * h + c).
Proof.
  rewrite Z.shiftl_mul_pow2 by lia. change (2 ^ 5) with 32.
  destruct (to_int32_multiple h) as [k Hk]. rewrite Hk.
  destruct (to_int32_multiple ((h + k * 4294967296) * 32)) as [k' Hk'].
  rewrite Hk'.
  replace ((h + k * 4294967296) * 32 + k' * 4294967296
           - (h + k * 4294967296) + c)
    with (31 * h + c + (31 * k + k') * 4294967296) by lia.
  apply to_int32_add_multiple.
Qed.

Lemma hash_loop str h :
  fold_left (fun h c => CSE.to_int32 (CSE.to_int32 (Z.shiftl h 5) - h + c))
    str (CSE.to_int32 h)
  = CSE.to_int32 (fold_left (fun h c => 31 * h + c) str h).
Proof.
  revert h. induction str as [|c str IH]; intros h; [reflexivity|].
  cbn [fold_left]. rewrite hash_round. apply IH.
Qed.

(** X12: [hashForCache] computes the polynomial in 31 over the code units of
    the string, wrapped to a signed 32-bit integer; the key of a module,
    its absolute value, is at most 2^31. *)
Theorem hash_is_poly31 str :
  CSE.hashForCache_int str = CSE.to_int32 (poly31 str) /\
  -2147483648 <= CSE.hashForCache_int str < 2147483648 /\
  0 <= Z.abs (CSE.hashForCache_int str) <= 2147483648.
Proof.
  assert (E : CSE.hashForCache_int str = CSE.to_int32 (poly31 str)).
  { unfold CSE.hashForCache_int, poly31.
    change 0 with (CSE.to_int32 0) at 1. apply hash_loop. }
  split; [exact E|]. rewrite E.
  pose proof (to_int32_range (poly31 str)). lia.
Qed.

(** X13: the key of a module depends on the template and the injection only
    through their concatenation: moving text across the boundary changes
    the module but not its key. *)
Theorem module_key_ignores_boundary a b c :
  a <> [] -> c <> [] ->
  CSE.module_key (CSE.getShaders (shader_props (a ++ b) c)) =
  CSE.module_key (CSE.getShaders (shader_props a (b ++ c))) /\
  (b <> [] ->
   CSE.module_fs (CSE.getShaders (shader_props (a ++ b) c)) <>
   CSE.module_fs (CSE.getShaders (shader_props a (b ++ c)))).
Proof.
  intros Ha Hc. destruct a as [|x a]; [congruence|].
  destruct c as [|y c]; [congruence|].
  unfold CSE.getShaders, shader_props.
  cbn [CSE.prop_fragmentShader CSE.prop_mutateColorCode CSE.module_key
       CSE.module_fs].
  assert (E1 : CSE.or_default (Some ((x :: a) ++ b)) CSE.fs = (x :: a) ++ b)
    by reflexivity.
  assert (E2 : CSE.or_default (Some (b ++ y :: c)) CSE.DECKGL_MUTATE_COLOR
               = b ++ y :: c) by (destruct b; reflexivity).
  rewrite E1, E2. cbn [CSE.or_default]. split.
  - rewrite <- app_assoc. reflexivity.
  - intros Hb H. apply (f_equal (@List.length Z)) in H.
    rewrite length_app in H. destruct b; [congruence|].
    cbn [List.length] in H. lia.
Qed.

Lemma module_key_ignores_boundary_witness :
  let a := of_string "void f() {}" in
  let b := of_string " // x" in
  let c := of_string "rgba = vec4(1.0);" in
  a <> [] /\ c <> [] /\
  CSE.module_key (CSE.getShaders (shader_props (a ++ b) c)) =
  CSE.module_key (CSE.getShaders (shader_props a (b ++ c))) /\
  (b <> [] ->
   CSE.module_fs (CSE.getShaders (shader_props (a ++ b) c)) <>
   CSE.module_fs (CSE.getShaders (shader_props a (b ++ c)))).
Proof.
  intros a b c.
  assert (Ha : a <> []) by discriminate.
  assert (Hc : c <> []) by discriminate.
  split; [exact Ha|]. split; [exact Hc|].
  exact (module_key_ignores_boundary a b c Ha Hc).
Defined.

End ShaderModuleFacts.

(** ** More on the page *)

Module PageMore.
Import JS Encoding Browser Page Derived.
Module CSE := CustomShaderExtension.

Section WithParser.
Variable parse : jsstring -> result unit.
Variable view : Type.
Variable initial_view : view.

Local Abbreviation Browser := (Page.Browser view).
Local Abbreviation AppState := (Page.AppState view).
Local Abbreviation step := (Page.step parse initial_view).
Local Abbreviation run := (Page.run parse initial_view).
Local Abbreviation act := (Page.act parse initial_view).
Local Abbreviation run_actions := (Page.run_actions parse initial_view).
Local Abbreviation settle := (Page.settle parse initial_view).

Lemma settle_done fuel (b : Browser) :
  document b <> Loading -> settle fuel b = Some b.
Proof.
  intros H. destruct fuel; cbn [Page.settle]; destruct (document b);
    congruence.
Qed.

Lemma settle_load fuel (b : Browser) :
  document b = Loading -> settle (S fuel) b = settle fuel (step b PageLoad).
Proof. intros H. cbn [Page.settle]. rewrite H. reflexivity. Qed.

Lemma fragment_of_decoded l s : App.getShaderFromUrl l = Some s -> fragment l <> [].
Proof.
  rewrite CodecFacts.getShaderFromUrl_fragment.
  destruct (fragment l); [discriminate|]. intros _. discriminate.
Qed.

Lemma load_nonempty_fragment l c n :
  fragment l <> [] ->
  step {| location := l; clipboard := c; document := Loading; reloads := n |}
    PageLoad =
  render_App initial_view
    {| location := l; clipboard := c; document := Loading; reloads := n |}.
Proof.
  intros Hf. unfold Page.step. cbn [document]. unfold main. cbn [location].
  unfold hash. destruct (fragment l); [congruence|]. reflexivity.
Qed.

Lemma load_decodable l c n s :
  App.getShaderFromUrl l = Some s -> s <> [] ->
  step {| location := l; clipboard := c; document := Loading; reloads := n |}
    PageLoad =
  {| location := l; clipboard := c;
     document := Running (mount initial_view s); reloads := n |}.
Proof.
  intros Hs Hne. rewrite load_nonempty_fragment
    by (exact (fragment_of_decoded l s Hs)).
  unfold render_App. cbn [location]. rewrite Hs.
  destruct s; [congruence|]. reflexivity.
Qed.

(** X14: a fragment that decodes to a non-empty text is left as it is: the
    page runs at once, without redirect or reload, with that text both in
    the editor and applied. *)
Theorem decodable_fragment_mounts l s :
  App.getShaderFromUrl l = Some s -> s <> [] ->
  settle 1 (visit view l) =
    Some {| location := l; clipboard := None;
            document := Running (mount initial_view s); reloads := 0 |}.
Proof.
  intros Hs Hne. unfold visit. rewrite settle_load by reflexivity.
  rewrite (load_decodable l None 0 s Hs Hne).
  apply settle_done. discriminate.
Qed.

(** X15: start-up ends for every address after at most one reload, and never
    by an uncaught exception. *)
Theorem startup_settles l :
  exists b : Browser,
    settle 2 (visit view l) = Some b /\
    (reloads b <= 1)%nat /\ document b <> Loading /\ document b <> Blank.
Proof.
  destruct (fragment l) as [|c0 f] eqn:Ef.
  - eexists. split; [apply (PageFacts.visit_empty_fragment parse view); exact Ef|].
    cbn [reloads document]. repeat split; try lia; discriminate.
  - unfold visit. rewrite settle_load by reflexivity.
    rewrite load_nonempty_fragment by (rewrite Ef; discriminate).
    unfold render_App. cbn [location].
    rewrite PageFacts.encode_default.
    destruct (falsy_opt (App.getShaderFromUrl l)).
    + destruct (location_replace l (page_url l default_token)) as [l'|url];
        (eexists; split; [apply settle_done; discriminate|]);
        cbn [reloads document set_document set_location];
        repeat split; try lia; discriminate.
    + destruct (App.getShaderFromUrl l) as [text|];
        (eexists; split; [apply settle_done; discriminate|]);
        cbn [reloads document set_document];
        repeat split; try lia; discriminate.
Qed.

Lemma set_hash_token l token :
  Forall (fun c => is_token_char c = true) token ->
  set_hash l token = with_fragment l token.
Proof.
  intros H. unfold set_hash. destruct H as [|c token Hc _]; [reflexivity|].
  destruct (Z.eqb_spec c HASH) as [->|_]; [discriminate|reflexivity].
Qed.

Lemma token_of_text t :
  exists token,
    App.encodeShaderForUrl t = Ok token /\
    Forall (fun c => is_token_char c = true) token.
Proof.
  eexists. split; [apply CodecMore.encode_as_token|].
  apply CodecMore.to_url_safe_token, CodecFacts.bytes_range.
Qed.

Lemma decode_clean l t token :
  wf_string t -> well_paired t = true -> t <> [] -> hd 0 t <> 65279 ->
  App.encodeShaderForUrl t = Ok token ->
  App.getShaderFromUrl (with_fragment l token) = Some t.
Proof.
  intros Hw Hp Hne Hb He.
  destruct (CodecFacts.decode_encode_general l t Hw Hne) as [token' [He' Hd]].
  rewrite He in He'. injection He' as <-.
  rewrite Hd, CodecFacts.strip_bom_no_bom, Utf16Facts.of_to_code_points
    by assumption.
  reflexivity.
Qed.

Lemma compile_reloads (b : Browser) (a : AppState) u token :
  document b = Running a ->
  parse (App.fragmentShader (App.parseShader (shaderText a))) = Ok u ->
  App.encodeShaderForUrl (shaderText a) = Ok token ->
  Forall (fun c => is_token_char c = true) token ->
  step b ClickCompile =
    {| location := with_fragment (location b) token;
       clipboard := clipboard b; document := Loading;
       reloads := S (reloads b) |}.
Proof.
  intros Hdoc Hparse He Ht. unfold Page.step. rewrite Hdoc.
  unfold handleCompile. cbn [set_compileError shaderText].
  rewrite Hparse. cbn [bind]. rewrite He. cbn [bind try_catch].
  unfold reload, set_location. cbn [location clipboard reloads].
  rewrite set_hash_token by exact Ht. reflexivity.
Qed.

(** X16: a compile that passes the parser applies the edit: after the reload
    the page runs with the edited text applied and in the editor, and the
    address carries its token.  (For a text without unpaired surrogates
    that is not empty and does not begin with U+FEFF.) *)
Theorem compile_applies_edit (b : Browser) (a : AppState) u :
  document b = Running a ->
  parse (App.fragmentShader (App.parseShader (shaderText a))) = Ok u ->
  wf_string (shaderText a) -> well_paired (shaderText a) = true ->
  shaderText a <> [] -> hd 0 (shaderText a) <> 65279 ->
  exists token,
    App.encodeShaderForUrl (shaderText a) = Ok token /\
    settle 1 (step b ClickCompile) =
      Some {| location := with_fragment (location b) token;
              clipboard := clipboard b;
              document := Running (mount initial_view (shaderText a));
              reloads := S (reloads b) |}.
Proof.
  intros Hdoc Hparse Hw Hp Hne Hb.
  destruct (token_of_text (shaderText a)) as [token [He Ht]].
  exists token. split; [exact He|].
  rewrite (compile_reloads b a u token Hdoc Hparse He Ht).
  rewrite settle_load by reflexivity.
  rewrite (load_decodable _ _ _ (shaderText a)
             (decode_clean (location b) _ token Hw Hp Hne Hb He) Hne).
  apply settle_done. discriminate.
Qed.

(** X17: compiling an empty editor (when the parser accepts the empty
    template) empties the fragment, and start-up then puts the default
    document in its place: two reloads later the page runs on the default
    document. *)
Theorem compile_empty_resets (b : Browser) (a : AppState) u :
  document b = Running a ->
  shaderText a = [] ->
  parse (App.fragmentShader (App.parseShader (shaderText a))) = Ok u ->
  settle 2 (step b ClickCompile) =
    Some {| location := with_fragment (location b) default_token;
            clipboard := clipboard b;
            document := Running (mount initial_view CSE.fragmentShader);
            reloads := S (S (reloads b)) |}.
Proof.
  intros Hdoc Ht Hparse.
  assert (He : App.encodeShaderForUrl (shaderText a) = Ok []).
  { rewrite Ht. reflexivity. }
  rewrite (compile_reloads b a u [] Hdoc Hparse He (Forall_nil _)).
  rewrite settle_load by reflexivity.
  assert (Hs : step {| location := with_fragment (location b) [];
                       clipboard := clipboard b; document := Loading;
                       reloads := S (reloads b) |} PageLoad =
               {| location := with_fragment (location b) default_token;
                  clipboard := clipboard b; document := Loading;
                  reloads := S (S (reloads b)) |}).
  { unfold Page.step. cbn [document]. unfold main. cbn [location].
    change (hash (with_fragment (location b) [])) with (@nil Z).
    cbn [falsy]. rewrite CodecFacts.main_encoder_same, PageFacts.encode_default.
    reflexivity. }
  rewrite Hs, settle_load by reflexivity.
  rewrite (PageFacts.load_default_token parse view initial_view).
  apply settle_done. discriminate.
Qed.

(** X18: the link of "Copy link" opens the edit: the string on the clipboard
    is the address of the page with the token behind its first [#], and
    a visit of that address runs at once with the edited text. *)
Theorem copied_link_opens_edit (b : Browser) (a : AppState) t :
  document b = Running a ->
  ~ In HASH (href_without_fragment (location b)) ->
  wf_string t -> well_paired t = true -> t <> [] -> hd 0 t <> 65279 ->
  exists url token,
    clipboard (run b [Edit t; ClickCopyLink]) = Some url /\
    split_fragment url = (href_without_fragment (location b), Some token) /\
    settle 1 (visit view (with_fragment (location b) token)) =
      Some {| location := with_fragment (location b) token;
              clipboard := None;
              document := Running (mount initial_view t); reloads := 0 |}.
Proof.
  intros Hdoc Hh Hw Hp Hne Hb.
  destruct (token_of_text t) as [token [He Ht]].
  exists (page_url (location b) token), token. split; [|split].
  - change (run b [Edit t; ClickCopyLink])
      with (step (step b (Edit t)) ClickCopyLink).
    assert (Hs : step b (Edit t) = set_document b (Running (setShaderText a t))).
    { unfold Page.step. rewrite Hdoc. reflexivity. }
    rewrite Hs. unfold Page.step. cbn [set_document document].
    unfold handleCopyLink. cbn [setShaderText shaderText]. rewrite He.
    reflexivity.
  - assert (E : page_url (location b) token
                = href_without_fragment (location b) ++ [HASH] ++ token).
    { unfold page_url, href_without_fragment. rewrite <- !app_assoc. reflexivity. }
    rewrite E. apply PageFacts.split_fragment_url. exact Hh.
  - unfold visit. rewrite settle_load by reflexivity.
    rewrite (load_decodable _ _ _ t
               (decode_clean (location b) t token Hw Hp Hne Hb He) Hne).
    apply settle_done. discriminate.
Qed.

Lemma step_keeps_page_ok (b : Browser) ev : page_ok b -> page_ok (step b ev).
Proof.
  unfold page_ok, Page.step. intros Hinv.
  destruct (document b) as [| | |a|url] eqn:Hdoc.
  - (* a loading page *)
    destruct ev; try (rewrite Hdoc; exact I).
    unfold main. destruct (falsy (hash (location b))).
    + rewrite CodecFacts.main_encoder_same, PageFacts.encode_default. exact I.
    + unfold render_App. rewrite PageFacts.encode_default.
      destruct (App.getShaderFromUrl (location b)) as [text|] eqn:Hs;
        cbn [falsy_opt].
      * destruct text as [|c text]; cbn [falsy].
        -- destruct (location_replace _ _); exact I.
        -- cbn [set_document document mount appliedShader panes data].
           split; [exists (location b); exact Hs|].
           split; [discriminate|reflexivity].
      * destruct (location_replace _ _); exact I.
  - contradiction.
  - destruct ev; rewrite Hdoc; exact I.
  - (* a running page *)
    destruct Hinv as [Hurl [Hne Hpanes]].
    destruct ev.
    + rewrite Hdoc. repeat split; assumption.
    + cbn [set_document document setShaderText appliedShader panes
           data viewState].
      repeat split; assumption.
    + unfold handleCompile. cbn [set_compileError shaderText].
      destruct (parse _) as [u|e]; cbn [bind try_catch].
      * destruct (App.encodeShaderForUrl (shaderText a)) as [token|e];
          cbn [bind try_catch reload document]; [exact I|].
        cbn [set_document document set_compileError appliedShader
             panes data viewState].
        repeat split; assumption.
      * cbn [set_document document set_compileError appliedShader
             panes data viewState].
        repeat split; assumption.
    + unfold handleCopyLink.
      destruct (App.encodeShaderForUrl (shaderText a)).
      * cbn [document]. rewrite Hdoc. repeat split; assumption.
      * rewrite Hdoc. repeat split; assumption.
    + cbn [set_document document]. unfold setData, render_effect.
      cbn [data appliedShader panes pane_view viewState].
      split; [exact Hurl|]. split; [exact Hne|]. split; reflexivity.
    + cbn [set_document document setViewState appliedShader panes
           data viewState].
      split; [exact Hurl|]. split; [exact Hne|].
      destruct (panes a) as [p|]; [|exact Hpanes].
      cbn [pane_view]. split; [apply Hpanes|reflexivity].
  - destruct ev; rewrite Hdoc; exact I.
Qed.

Lemma run_keeps_page_ok events (b : Browser) : page_ok b -> page_ok (run b events).
Proof.
  revert b. induction events as [|ev events IH]; intros b H; [exact H|].
  unfold Page.run. cbn [fold_left]. apply IH.
  apply step_keeps_page_ok. exact H.
Qed.

Lemma act_keeps_page_ok (b : Browser) x : page_ok b -> page_ok (act b x).
Proof.
  destruct x as [ev|f].
  - apply step_keeps_page_ok.
  - unfold page_ok. rewrite PageFacts.fragment_navigation_document. tauto.
Qed.

Lemma run_actions_keeps_page_ok actions (b : Browser) :
  page_ok b -> page_ok (run_actions b actions).
Proof.
  revert b. induction actions as [|x actions IH]; intros b H; [exact H|].
  unfold Page.run_actions. cbn [fold_left]. apply IH.
  apply act_keeps_page_ok. exact H.
Qed.

(** What the decoder returns is well formed. *)
Lemma decoded_well l s :
  App.getShaderFromUrl l = Some s -> wf_string s /\ well_paired s = true.
Proof.
  rewrite CodecFacts.getShaderFromUrl_fragment.
  destruct (fragment l); [discriminate|].
  destruct (Base64.atob _) as [binary|e]; [|discriminate].
  intros H. injection H as <-. apply CodecMore.TextDecoder_well.
Qed.

(** X19: in every state that a visit reaches, by the events of the page
    and by navigations to a fragment alike, a running page has an applied
    shader that is not empty, consists of code units and has no unpaired
    surrogate. *)
Theorem running_page_has_valid_state l actions (a : AppState) :
  document (run_actions (visit view l) actions) = Running a ->
  appliedShader a <> [] /\
  wf_string (appliedShader a) /\
  well_paired (appliedShader a) = true.
Proof.
  intros Ha.
  assert (Hinv : page_ok (run_actions (visit view l) actions)).
  { apply run_actions_keeps_page_ok. exact I. }
  unfold page_ok in Hinv. rewrite Ha in Hinv.
  destruct Hinv as [[l0 Hurl] [Hne _]].
  split; [exact Hne|]. exact (decoded_well l0 _ Hurl).
Qed.

(** X20: the decks exist exactly when the image data has arrived, and they
    always show the view state of the component. *)
Theorem decks_follow_data_and_view l events (a : AppState) :
  document (run (visit view l) events) = Running a ->
  (panes a = None <-> data a = false) /\
  forall p, panes a = Some p -> pane_view p = viewState a.
Proof.
  intros Ha.
  assert (Hinv : page_ok (run (visit view l) events)).
  { apply run_keeps_page_ok. exact I. }
  unfold page_ok in Hinv. rewrite Ha in Hinv.
  destruct Hinv as [_ [_ Hpanes]].
  destruct (panes a) as [p|].
  - destruct Hpanes as [Hd Hv]. split.
    + split; [discriminate|]. rewrite Hd. discriminate.
    + intros p' Hp'. injection Hp' as <-. exact Hv.
  - split; [tauto|]. intros p Hp. discriminate.
Qed.

(** X21: compiling the applied text again, when it is still the text in
    the editor and does not begin with U+FEFF, keeps it: after the reload
    the page runs on the same text, whatever form the token in the
    address had before. *)
Theorem recompile_keeps_text l events (a : AppState) u :
  document (run (visit view l) events) = Running a ->
  shaderText a = appliedShader a ->
  hd 0 (appliedShader a) <> 65279 ->
  parse (App.fragmentShader (App.parseShader (shaderText a))) = Ok u ->
  exists token,
    App.encodeShaderForUrl (appliedShader a) = Ok token /\
    settle 1 (step (run (visit view l) events) ClickCompile) =
      Some {| location :=
                with_fragment (location (run (visit view l) events)) token;
              clipboard := clipboard (run (visit view l) events);
              document := Running (mount initial_view (appliedShader a));
              reloads := S (reloads (run (visit view l) events)) |}.
Proof.
  intros Ha Hsame Hbom Hparse.
  set (b := run (visit view l) events) in *.
  assert (Hinv : page_ok b) by (apply run_keeps_page_ok; exact I).
  unfold page_ok in Hinv. rewrite Ha in Hinv.
  destruct Hinv as [[l0 Hurl] [Hne _]].
  destruct (decoded_well l0 _ Hurl) as [Hw Hp].
  destruct (token_of_text (appliedShader a)) as [token [He Ht]].
  exists token. split; [exact He|].
  assert (He' : App.encodeShaderForUrl (shaderText a) = Ok token)
    by (rewrite Hsame; exact He).
  rewrite (compile_reloads b a u token Ha Hparse He' Ht).
  rewrite settle_load by reflexivity.
  rewrite (load_decodable _ _ _ (appliedShader a)
             (decode_clean (location b) _ token Hw Hp Hne Hbom He) Hne).
  apply settle_done. discriminate.
Qed.

End WithParser.


(** *** Concrete runs *)

Lemma decodable_fragment_mounts_witness :
  let l := with_fragment example_location (of_string "dmVjMyB4Ow==") in
  let s := of_string "vec3 x;" in
  App.getShaderFromUrl l = Some s /\ s <> [] /\
  settle sample_parse tt 1 (visit unit l) =
    Some {| location := l; clipboard := None;
            document := Running (mount tt s); reloads := 0 |}.
Proof.
  intros l s.
  assert (Hs : App.getShaderFromUrl l = Some s) by reflexivity.
  assert (Hne : s <> []) by discriminate.
  split; [exact Hs|]. split; [exact Hne|].
  exact (decodable_fragment_mounts sample_parse unit tt l s Hs Hne).
Defined.

Lemma compile_applies_edit_witness :
  let a := setShaderText (mount tt (of_string "vec3 x;"))
             (of_string "vec3 y;") in
  let b := {| location := with_fragment example_location (of_string "dmVjMyB4Ow==");
              clipboard := None; document := Running a; reloads := 0 |} in
  document b = Running a /\
  sample_parse (App.fragmentShader (App.parseShader (shaderText a))) = Ok tt /\
  wf_string (shaderText a) /\ well_paired (shaderText a) = true /\
  shaderText a <> [] /\ hd 0 (shaderText a) <> 65279 /\
  exists token,
    App.encodeShaderForUrl (shaderText a) = Ok token /\
    settle sample_parse tt 1 (step sample_parse tt b ClickCompile) =
      Some {| location := with_fragment (location b) token;
              clipboard := clipboard b;
              document := Running (mount tt (shaderText a));
              reloads := S (reloads b) |}.
Proof.
  intros a b.
  assert (Hdoc : document b = Running a) by reflexivity.
  assert (Hparse : sample_parse
            (App.fragmentShader (App.parseShader (shaderText a))) = Ok tt)
    by reflexivity.
  assert (Hw : wf_string (shaderText a))
    by (apply CodecFacts.wf_string_check; reflexivity).
  assert (Hp : well_paired (shaderText a) = true) by reflexivity.
  assert (Hne : shaderText a <> []) by discriminate.
  assert (Hb : hd 0 (shaderText a) <> 65279) by discriminate.
  repeat (split; [assumption|]).
  exact (compile_applies_edit sample_parse unit tt b a tt Hdoc Hparse Hw Hp Hne Hb).
Defined.

Lemma compile_empty_resets_witness :
  let accept := fun _ : list Z => @Ok unit tt in
  let a := setShaderText (mount tt (of_string "vec3 x;")) [] in
  let b := {| location := with_fragment example_location (of_string "dmVjMyB4Ow==");
              clipboard := None; document := Running a; reloads := 0 |} in
  document b = Running a /\ shaderText a = [] /\
  accept (App.fragmentShader (App.parseShader (shaderText a))) = Ok tt /\
  settle accept tt 2 (step accept tt b ClickCompile) =
    Some {| location := with_fragment (location b) default_token;
            clipboard := clipboard b;
            document := Running (mount tt CSE.fragmentShader);
            reloads := S (S (reloads b)) |}.
Proof.
  intros accept a b.
  assert (Hdoc : document b = Running a) by reflexivity.
  assert (Ht : shaderText a = []) by reflexivity.
  assert (Hparse : accept (App.fragmentShader (App.parseShader (shaderText a)))
                   = Ok tt) by reflexivity.
  repeat (split; [assumption|]).
  exact (compile_empty_resets accept unit tt b a tt Hdoc Ht Hparse).
Defined.

Lemma example_href_has_no_hash l f :
  l = with_fragment example_location f ->
  ~ In HASH (href_without_fragment l).
Proof.
  intros -> H.
  assert (E : existsb (Z.eqb HASH)
                (href_without_fragment (with_fragment example_location f)) = true).
  { apply existsb_exists. exists HASH. split; [exact H|reflexivity]. }
  vm_compute in E. discriminate.
Qed.

Lemma copied_link_opens_edit_witness :
  let a := mount tt (of_string "vec3 x;") in
  let b := {| location := with_fragment example_location (of_string "dmVjMyB4Ow==");
              clipboard := None; document := Running a; reloads := 0 |} in
  let t := of_string "rgba = vec4(1.0);" in
  document b = Running a /\
  ~ In HASH (href_without_fragment (location b)) /\
  wf_string t /\ well_paired t = true /\ t <> [] /\ hd 0 t <> 65279 /\
  exists url token,
    clipboard (run sample_parse tt b [Edit t; ClickCopyLink]) = Some url /\
    split_fragment url = (href_without_fragment (location b), Some token) /\
    settle sample_parse tt 1 (visit unit (with_fragment (location b) token)) =
      Some {| location := with_fragment (location b) token;
              clipboard := None;
              document := Running (mount tt t); reloads := 0 |}.
Proof.
  intros a b t.
  assert (Hdoc : document b = Running a) by reflexivity.
  assert (Hh : ~ In HASH (href_without_fragment (location b)))
    by (apply (example_href_has_no_hash _ (of_string "dmVjMyB4Ow==")); reflexivity).
  assert (Hw : wf_string t) by (apply CodecFacts.wf_string_check; reflexivity).
  assert (Hp : well_paired t = true) by reflexivity.
  assert (Hne : t <> []) by discriminate.
  assert (Hb : hd 0 t <> 65279) by discriminate.
  repeat (split; [assumption|]).
  exact (copied_link_opens_edit sample_parse unit tt b a t Hdoc Hh Hw Hp Hne Hb).
Defined.

Lemma running_page_has_valid_state_witness :
  let l := with_fragment example_location (of_string "dmVjMyB4Ow==") in
  let actions := [Handled PageLoad; Handled (Edit []); FragmentNavigation [];
                  Handled DataLoaded] in
  let a := setData (setShaderText (mount tt (of_string "vec3 x;")) []) in
  document (run_actions sample_parse tt (visit unit l) actions) = Running a /\
  (appliedShader a <> [] /\
   wf_string (appliedShader a) /\
   well_paired (appliedShader a) = true) /\
  appliedShader a = of_string "vec3 x;" /\
  shaderText a = [] /\
  location (run_actions sample_parse tt (visit unit l) actions)
    = example_location.
Proof.
  intros l actions a.
  assert (Ha : document (run_actions sample_parse tt (visit unit l) actions)
               = Running a)
    by reflexivity.
  split; [exact Ha|].
  split; [exact (running_page_has_valid_state sample_parse unit tt l actions
                   a Ha)|].
  repeat split.
Defined.

Lemma decks_follow_data_and_view_witness :
  let l := with_fragment example_location (of_string "dmVjMyB4Ow==") in
  let events := [PageLoad; DataLoaded; ViewStateChange tt] in
  let a := setViewState (setData (mount tt (of_string "vec3 x;"))) tt in
  document (run sample_parse tt (visit unit l) events) = Running a /\
  (panes a = None <-> data a = false) /\
  forall p, panes a = Some p -> pane_view p = viewState a.
Proof.
  intros l events a.
  assert (Ha : document (run sample_parse tt (visit unit l) events) = Running a)
    by reflexivity.
  split; [exact Ha|].
  exact (decks_follow_data_and_view sample_parse unit tt l events a Ha).
Defined.

Lemma recompile_keeps_text_witness :
  let l := with_fragment example_location (of_string "dmVjMyB4Ow") in
  let events := [PageLoad; DataLoaded] in
  let a := setData (mount tt (of_string "vec3 x;")) in
  let b := run sample_parse tt (visit unit l) events in
  document b = Running a /\
  shaderText a = appliedShader a /\
  hd 0 (appliedShader a) <> 65279 /\
  sample_parse (App.fragmentShader (App.parseShader (shaderText a))) = Ok tt /\
  exists token,
    App.encodeShaderForUrl (appliedShader a) = Ok token /\
    settle sample_parse tt 1 (step sample_parse tt b ClickCompile) =
      Some {| location := with_fragment (location b) token;
              clipboard := clipboard b;
              document := Running (mount tt (appliedShader a));
              reloads := S (reloads b) |}.
Proof.
  intros l events a b.
  assert (Ha : document b = Running a) by reflexivity.
  assert (Hsame : shaderText a = appliedShader a) by reflexivity.
  assert (Hbom : hd 0 (appliedShader a) <> 65279) by discriminate.
  assert (Hparse : sample_parse
            (App.fragmentShader (App.parseShader (shaderText a))) = Ok tt)
    by reflexivity.
  repeat (split; [assumption|]).
  exact (recompile_keeps_text sample_parse unit tt l events a tt
           Ha Hsame Hbom Hparse).
Defined.

(** Why X21 leaves out a text that begins with U+FEFF: the decoder drops
    one such mark, so a fragment with two of them mounts a text with one,
    and compiling that text again loses it. *)
Example recompile_drops_leading_mark :
  let l := with_fragment example_location (of_string "77u_77u_dmVjMyB4Ow==") in
  let b := run sample_parse tt (visit unit l) [PageLoad] in
  document b = Running (mount tt (65279 :: of_string "vec3 x;")) /\
  settle sample_parse tt 1 (step sample_parse tt b ClickCompile) =
    Some {| location := with_fragment example_location
                          (of_string "77u_dmVjMyB4Ow==");
            clipboard := None;
            document := Running (mount tt (of_string "vec3 x;"));
            reloads := 1 |}.
Proof. split; vm_compute; reflexivity. Qed.

End PageMore.
